(** * AlfaFrens client plugin: message pipeline and fact validation

    A shallow embedding of the TypeScript sources of the AlfaFrens client
    plugin (the poll loop of [extensions/ai-interaction.ts], the generation
    helpers of [extensions/utils.ts], the fact validator of
    [extensions/fact-validation.ts], the REST wrapper of [api.ts] and the
    manager of [alfafrens-client.ts]) together with the properties its
    specification states about them.

    Conventions of the embedding.
    - A JavaScript string is a [string]: a sequence of 8-bit code units.  The
      helpers below ([trim], [toLowerCase], the regular expressions) follow
      ECMAScript on ASCII text; code units above 127 are left untouched.
    - A promise is modelled by its [Outcome]: it returns, it throws, or it
      never settles.  Asynchronous code is a state transformer
      [M S A := S -> Outcome A * S]; the effects performed before a throw
      stay in the state, as in JavaScript.
    - Everything outside the repository (the text-generation service, the
      memory store, the HTTP endpoint, the cache, the clock, [JSON.parse],
      [Date], [stringToUuid]) is a field of the [Runtime] record, a
      transformer of an abstract [World].
    - Calls to [elizaLogger] and [console] have no effect on the results and
      are left out. *)

From Stdlib Require Import ZArith QArith Qround Qabs String Ascii List Bool Lia.
From Stdlib Require Import Floats DecimalString.
From stdpp Require Import gmap strings.
Import ListNotations.

Set Warnings "-inexact-float,-register-all".

Local Open Scope list_scope.
Local Open Scope string_scope.

(* ===================================================================== *)
(** * Part I: the embedding *)
(* ===================================================================== *)

(** ** JavaScript strings *)

Module Js.

(** The double quote, which occurs in the prompts the sources build. *)
Definition dquote : string := String (ascii_of_nat 34) EmptyString.

(** The line feed, [\n]. *)
Definition nl : string := String (ascii_of_nat 10) EmptyString.

(** ECMAScript [WhiteSpace] and [LineTerminator] within ASCII: TAB, LF, VT,
    FF, CR and SP. *)
Definition isWhiteSpace (c : ascii) : bool :=
  let n := nat_of_ascii c in
  ((9 <=? n)%nat && (n <=? 13)%nat) || (n =? 32)%nat.

Definition isDigit (c : ascii) : bool :=
  let n := nat_of_ascii c in (48 <=? n)%nat && (n <=? 57)%nat.

Definition lowerChar (c : ascii) : ascii :=
  let n := nat_of_ascii c in
  if (65 <=? n)%nat && (n <=? 90)%nat then ascii_of_nat (n + 32) else c.

Definition upperChar (c : ascii) : ascii :=
  let n := nat_of_ascii c in
  if (97 <=? n)%nat && (n <=? 122)%nat then ascii_of_nat (n - 32) else c.

(** [String.prototype.toUpperCase]. *)
Fixpoint toUpperCase (s : string) : string :=
  match s with
  | EmptyString => EmptyString
  | String c r => String (upperChar c) (toUpperCase r)
  end.

(** A string is truthy when it is not empty. *)
Definition nonEmpty (s : string) : bool := (0 <? String.length s)%nat.

(** [x || d] for an optional string [x]. *)
Definition orElse (x : option string) (d : string) : string :=
  match x with
  | Some s => if nonEmpty s then s else d
  | None => d
  end.

(** [String.prototype.toLowerCase]. *)
Fixpoint toLowerCase (s : string) : string :=
  match s with
  | EmptyString => EmptyString
  | String c r => String (lowerChar c) (toLowerCase r)
  end.

Fixpoint rev_append (s acc : string) : string :=
  match s with
  | EmptyString => acc
  | String c r => rev_append r (String c acc)
  end.

Definition reverse (s : string) : string := rev_append s EmptyString.

Fixpoint trimStart (s : string) : string :=
  match s with
  | EmptyString => EmptyString
  | String c r => if isWhiteSpace c then trimStart r else s
  end.

Definition trimEnd (s : string) : string := reverse (trimStart (reverse s)).

(** [String.prototype.trim]. *)
Definition trim (s : string) : string := trimEnd (trimStart s).

(** [String.prototype.startsWith]. *)
Fixpoint startsWith (p s : string) : bool :=
  match p, s with
  | EmptyString, _ => true
  | String a p', String b s' => Ascii.eqb a b && startsWith p' s'
  | String _ _, EmptyString => false
  end.

(** [String.prototype.includes]. *)
Fixpoint includes (p s : string) : bool :=
  startsWith p s ||
  match s with
  | EmptyString => false
  | String _ r => includes p r
  end.

(** [s.replace(c, '')] with a one-character string pattern: the first
    occurrence of [c], wherever it stands, is removed and the rest is kept. *)
Fixpoint removeFirst (c : ascii) (s : string) : string :=
  match s with
  | EmptyString => EmptyString
  | String b r => if Ascii.eqb b c then r else String b (removeFirst c r)
  end.

(** [Array.prototype.join]. *)
Fixpoint join (sep : string) (l : list string) : string :=
  match l with
  | [] => EmptyString
  | [x] => x
  | x :: r => x ++ sep ++ join sep r
  end.

(** *** The regular expressions of the sources

    The patterns used are alternatives of literal characters and [\d], with
    or without the [i] flag; [test] looks for a match at any position. *)

Inductive atom : Type :=
| Ch (c : ascii)   (* a literal character *)
| Dig.             (* \d *)

Definition pattern : Type := list atom.

Fixpoint lit (s : string) : pattern :=
  match s with
  | EmptyString => []
  | String c r => Ch c :: lit r
  end.

Definition atomMatches (ignoreCase : bool) (a : atom) (c : ascii) : bool :=
  match a with
  | Ch x => if ignoreCase then Ascii.eqb (lowerChar x) (lowerChar c) else Ascii.eqb x c
  | Dig => isDigit c
  end.

Fixpoint matchHere (ignoreCase : bool) (p : pattern) (s : string) : bool :=
  match p, s with
  | [], _ => true
  | a :: p', String c s' => atomMatches ignoreCase a c && matchHere ignoreCase p' s'
  | _ :: _, EmptyString => false
  end.

Fixpoint search (ignoreCase : bool) (p : pattern) (s : string) : bool :=
  matchHere ignoreCase p s ||
  match s with
  | EmptyString => false
  | String _ r => search ignoreCase p r
  end.

(** [/a1|a2|.../.test(s)], with the [i] flag when [ignoreCase]. *)
Definition test (ignoreCase : bool) (alts : list pattern) (s : string) : bool :=
  existsb (fun p => search ignoreCase p s) alts.

(** [s.split(/[.!?]+/)]: the pieces between maximal runs of terminators.
    [cur] is the piece being read, reversed; [inRun] tells that the previous
    character was a terminator. *)
Definition isTerminator (c : ascii) : bool :=
  Ascii.eqb c "." || Ascii.eqb c "!" || Ascii.eqb c "?".

Fixpoint splitGo (s : string) (cur : string) (inRun : bool) : list string :=
  match s with
  | EmptyString => [reverse cur]
  | String c r =>
      if isTerminator c
      then if inRun then splitGo r cur true
           else reverse cur :: splitGo r EmptyString true
      else splitGo r (String c cur) false
  end.

Definition splitSentences (s : string) : list string := splitGo s EmptyString false.

End Js.

(** ** JavaScript numbers

    The sources compute with confidences: decimal literals, [+ - * /],
    comparisons, [Math.min], [Math.max] and [toFixed(2)].  The embedding is
    written once, over the interface [JsNumber], and read in two models: the
    rationals, where the arithmetic is exact, and IEEE 754 binary64 (the
    kernel's primitive floats), where the functions are evaluated at the
    values the specification names and where the comparisons, the clamp and
    NaN are followed through [Prim2SF]. *)

Module Num.

Class JsNumber (N : Type) : Type := {
  lit : Q -> N;                 (* a decimal literal of the source *)
  ofLength : nat -> N;          (* [array.length] *)
  add : N -> N -> N;
  sub : N -> N -> N;
  mul : N -> N -> N;
  div : N -> N -> N;
  ltb : N -> N -> bool;         (* [a < b] *)
  leb : N -> N -> bool;         (* [a <= b] *)
  Math_min : N -> N -> N;
  Math_max : N -> N -> N;
  toFixed2 : N -> string        (* [x.toFixed(2)] *)
}.

(** [a > b] and [a >= b]. *)
Definition gtb {N} `{JsNumber N} (a b : N) : bool := ltb b a.
Definition geb {N} `{JsNumber N} (a b : N) : bool := leb b a.

(** Decimal rendering of a natural number. *)
Definition showN (n : N) : string := NilZero.string_of_uint (N.to_uint n).

(** Decimal rendering of an integer, as [String(n)] gives it. *)
Definition showZ (z : Z) : string :=
  match z with
  | Z0 => "0"
  | Zpos p => showN (Npos p)
  | Zneg p => "-" ++ showN (Npos p)
  end.

(** [x.toFixed(2)] of an exact value [x] (below 10^21 in magnitude): the
    integer [n] nearest to [100 * |x|], the larger one on a tie, written
    with two decimals; a minus sign when [x < 0]. *)
Definition toFixed2Q (x : Q) : string :=
  let n := Qfloor (Qabs x * 100 + (1 # 2))%Q in
  let b := showZ (n mod 100) in
  (if Qle_bool 0 x then "" else "-") ++ showZ (n / 100) ++ "."
    ++ (if (n mod 100 <? 10)%Z then "0" ++ b else b).

(** *** Exact rationals *)

#[export] Instance Q_number : JsNumber Q := {|
  lit q := q;
  ofLength n := inject_Z (Z.of_nat n);
  add := Qplus;
  sub := Qminus;
  mul := Qmult;
  div := Qdiv;
  ltb a b := negb (Qle_bool b a);
  leb := Qle_bool;
  Math_min a b := if Qle_bool a b then a else b;
  Math_max a b := if Qle_bool a b then b else a;
  toFixed2 := toFixed2Q
|}.

(** *** IEEE 754 binary64 *)

Definition floatOfZ (z : Z) : float := PrimFloat.of_uint63 (Uint63.of_Z z).

(** The exact value of a finite float. *)
Definition floatValue (f : float) : option Q :=
  match Prim2SF f with
  | S754_zero _ => Some 0%Q
  | S754_finite s m e =>
      let v := (inject_Z (Zpos m) * Qpower 2 e)%Q in
      Some (if s then Qopp v else v)
  | _ => None
  end.

Definition isNegZero (f : float) : bool :=
  match Prim2SF f with S754_zero true => true | _ => false end.

(** [Math.min] and [Math.max]: NaN when an argument is NaN, and -0 below +0. *)
Definition floatMin (a b : float) : float :=
  if PrimFloat.is_nan a || PrimFloat.is_nan b then PrimFloat.nan
  else if PrimFloat.ltb a b then a
  else if PrimFloat.ltb b a then b
  else if isNegZero a then a else b.

Definition floatMax (a b : float) : float :=
  if PrimFloat.is_nan a || PrimFloat.is_nan b then PrimFloat.nan
  else if PrimFloat.ltb a b then b
  else if PrimFloat.ltb b a then a
  else if isNegZero a then b else a.

Definition floatToFixed2 (f : float) : string :=
  match floatValue f with
  | Some q => toFixed2Q q
  | None =>
      if PrimFloat.is_nan f then "NaN"
      else if PrimFloat.ltb f PrimFloat.zero then "-Infinity" else "Infinity"
  end.

(** A literal [n/d] with small [n] and [d] is the float nearest to it, since
    the division is correctly rounded. *)
#[export] Instance binary64 : JsNumber float := {|
  lit q := PrimFloat.div (floatOfZ (Qnum q)) (floatOfZ (Zpos (Qden q)));
  ofLength n := floatOfZ (Z.of_nat n);
  add := PrimFloat.add;
  sub := PrimFloat.sub;
  mul := PrimFloat.mul;
  div := PrimFloat.div;
  ltb := PrimFloat.ltb;
  leb := PrimFloat.leb;
  Math_min := floatMin;
  Math_max := floatMax;
  toFixed2 := floatToFixed2
|}.

End Num.

(** ** Promises and asynchronous code *)

Module Async.

(** A thrown [Error], by its message. *)
Definition JsError : Type := string.

(** What an awaited call comes to. *)
Inductive Outcome (A : Type) : Type :=
| Returns (a : A)
| Throws (e : JsError)
| Pending.                      (* the promise never settles *)

Arguments Returns {A} a.
Arguments Throws {A} e.
Arguments Pending {A}.

(** Code with effects on a state [S]. *)
Definition M (S A : Type) : Type := S -> Outcome A * S.

Definition ret {S A} (a : A) : M S A := fun s => (Returns a, s).

Definition throw {S A} (e : JsError) : M S A := fun s => (Throws e, s).

Definition bind {S A B} (m : M S A) (k : A -> M S B) : M S B :=
  fun s =>
    match m s with
    | (Returns a, s') => k a s'
    | (Throws e, s') => (Throws e, s')
    | (Pending, s') => (Pending, s')
    end.

(** [try { m } catch (e) { h e }]. *)
Definition tryCatch {S A} (m : M S A) (h : JsError -> M S A) : M S A :=
  fun s =>
    match m s with
    | (Throws e, s') => h e s'
    | other => other
    end.

Definition get {S} : M S S := fun s => (Returns s, s).

Definition modify {S} (f : S -> S) : M S unit := fun s => (Returns tt, f s).

(** [for (const x of l) { body x }]. *)
Fixpoint forEach {S A} (l : list A) (body : A -> M S unit) : M S unit :=
  match l with
  | [] => ret tt
  | x :: r => bind (body x) (fun _ => forEach r body)
  end.

(** [for (const x of l) { ys.push(await f x) }]. *)
Fixpoint mapM {S A B} (f : A -> M S B) (l : list A) : M S (list B) :=
  match l with
  | [] => ret []
  | x :: r => bind (f x) (fun y => bind (mapM f r) (fun ys => ret (y :: ys)))
  end.

(** Code on a part [T] of the state, run on the whole state. *)
Definition lift {S T A} (proj : S -> T) (upd : T -> S -> S) (m : M T A) : M S A :=
  fun s => let (r, t) := m (proj s) in (r, upd t s).

(** A promise that is raced: when it settles, counted in milliseconds from
    the moment it was created, and with what. *)
Inductive Promise (A : Type) : Type :=
| Settles (ms : Z) (r : JsError + A)
| Unsettled.

Arguments Settles {A} ms r.
Arguments Unsettled {A}.

(** [await p]. *)
Definition await {S A} (p : Promise A) : M S A :=
  fun s =>
    match p with
    | Settles _ (inr a) => (Returns a, s)
    | Settles _ (inl e) => (Throws e, s)
    | Unsettled => (Pending, s)
    end.

(** [Promise.race([p, q])]: the first to settle; [p], the first of the
    array, when both settle at the same time. *)
Definition race {A} (p q : Promise A) : Promise A :=
  match p, q with
  | Settles t1 _, Settles t2 _ => if (t2 <? t1)%Z then q else p
  | Settles _ _, Unsettled => p
  | Unsettled, _ => q
  end.

(** [new Promise((_, reject) => setTimeout(() => reject(new Error(msg)), ms))]. *)
Definition rejectAfter {A} (ms : Z) (msg : string) : Promise A := Settles ms (inl msg).

(** A pure computation that may throw, run as code. *)
Definition settle {S A} (o : Outcome A) : M S A := fun s => (o, s).

End Async.

Declare Scope async_scope.
Delimit Scope async_scope with async.
Notation "x <- m ;; k" := (Async.bind m (fun x => k))
  (at level 100, m at next level, right associativity) : async_scope.
Notation "m ;;; k" := (Async.bind m (fun _ => k))
  (at level 100, right associativity) : async_scope.

(** ** The data of the plugin *)

(** A time in milliseconds since the epoch, as a JavaScript number:
    [new Date(s).getTime()] is [NaN] when [s] is not a date. *)
Inductive millis : Type :=
| Ms (t : Z)
| NaN.

(** [x + 1] on such a number. *)
Definition millisSucc (x : millis) : millis :=
  match x with
  | Ms t => Ms (t + 1)
  | NaN => NaN
  end.

(** [ModelClass] of the agent runtime. *)
Inductive ModelClass : Type := SMALL | MEDIUM | LARGE.

(** [types.ts], [interface AlfaFrensMessage]. *)
Module AlfaFrensMessage.
Record t : Type := mk {
  id : string;
  senderId : string;
  senderUsername : string;
  content : string;
  timestamp : string;
  replyTo : option string
}.
End AlfaFrensMessage.

(** [types.ts], [interface AlfaFrensConfig]. *)
Module AlfaFrensConfig.
Record t : Type := mk {
  apiKey : string;
  userId : string;
  channelId : string;
  username : string;
  pollInterval : Z;
  enablePost : bool;
  postIntervalMin : Z;
  postIntervalMax : Z
}.
End AlfaFrensConfig.

(** [types.ts], [interface AlfaFrensSendMessageResponse]. *)
Module AlfaFrensSendMessageResponse.
Record t : Type := mk {
  status : string;
  messageId : string;
  timestamp : string
}.
End AlfaFrensSendMessageResponse.

(** An element of [FactValidation.relationships]. *)
Module Relationship.
Record t : Type := mk {
  sourceEntityId : string;
  targetEntityId : string;
  tags : list string
}.
End Relationship.

(** [fact-validation.ts], [interface FactValidation]. *)
Module FactValidation.
Record t (N : Type) : Type := mk {
  confidence : N;
  source : string;
  timestamp : Z;
  contradictions : list string;
  relationships : option (list Relationship.t)
}.
Arguments mk {N}.
Arguments confidence {N}.
Arguments source {N}.
Arguments timestamp {N}.
Arguments contradictions {N}.
Arguments relationships {N}.
End FactValidation.

(** [fact-validation.ts], [interface Contradiction]. *)
Module Contradiction.
Record t (N : Type) : Type := mk {
  fact : string;
  existingFact : string;
  confidence : N;
  timestamp : Z
}.
Arguments mk {N}.
Arguments fact {N}.
Arguments existingFact {N}.
Arguments confidence {N}.
Arguments timestamp {N}.
End Contradiction.

(** [Memory] of the agent runtime, with the content fields the plugin
    writes: [content.text], [content.action] and [content.metadata]. *)
Module Memory.
Record t (N : Type) : Type := mk {
  id : string;
  userId : string;
  agentId : string;
  roomId : string;
  text : string;
  action : option string;
  metadata : option (FactValidation.t N)
}.
Arguments mk {N}.
Arguments id {N}.
Arguments userId {N}.
Arguments agentId {N}.
Arguments roomId {N}.
Arguments text {N}.
Arguments action {N}.
Arguments metadata {N}.
End Memory.

(** The argument of [generateText]. *)
Module GenerateTextArgs.
Record t : Type := mk {
  context : string;
  modelClass : option ModelClass;
  stop : list string;
  customSystemPrompt : option string
}.
End GenerateTextArgs.

(** A value [JSON.parse] returns. *)
Inductive Json : Type :=
| JNull
| JBool (b : bool)
| JNumber (q : Q)
| JString (s : string)
| JArray (l : list Json)
| JObject (fields : list (string * Json)).

(** What a web search returns: [answer] and the [title] and [url] of each
    result. *)
Module SearchResults.
Record t : Type := mk {
  answer : option string;
  results : list (string * string)
}.
End SearchResults.

(** The data [processTemplate] substitutes in [generateResponse]. *)
Module TemplateData.
Record t : Type := mk {
  message_content : string;
  message_history : string;
  websearch : string;
  knowledge : string
}.
End TemplateData.

(** The body of a [POST /api/ai/postMessage]. *)
Module Payload.
Record t : Type := mk {
  content : string;
  replyToPostId : option string
}.
End Payload.

(** ** The environment *)

Import Async.

(** A call that leaves the plugin. *)
Inductive Call (N : Type) : Type :=
| GenerateText (args : GenerateTextArgs.t)
| CreateMemory (m : Memory.t N)
| GetRelevantFacts (fact : string)
| DetectContradictions (fact : string) (existing : list (Memory.t N))
| ExtractRelationships (fact : string)
| WebSearch (query : string)
| GetKnowledge (query : string) (limit : Z)
| HttpGet (url : string)
| HttpPost (path : string) (body : Payload.t)
| CacheGet (key : string)
| CacheSet (key : string) (value : millis)
| DateNow
| MathRandom.

Arguments GenerateText {N}.
Arguments CreateMemory {N}.
Arguments GetRelevantFacts {N}.
Arguments DetectContradictions {N}.
Arguments ExtractRelationships {N}.
Arguments WebSearch {N}.
Arguments GetKnowledge {N}.
Arguments HttpGet {N}.
Arguments HttpPost {N}.
Arguments CacheGet {N}.
Arguments CacheSet {N}.
Arguments DateNow {N}.
Arguments MathRandom {N}.

(** The agent runtime and the remote services, as they answer in a [World].
    The first group are values and pure functions, the second are calls with
    an effect; [generateText] answers with the promise the caller awaits or
    races. *)
Class Runtime (World N : Type) : Type := {
  agentId : string;
  characterName : option string;
  stringToUuid : string -> string;
  JSON_parse : string -> option Json;
  Date_getTime : string -> millis;
  toISOString : Z -> string;
  getSetting : string -> option string;
  parseInt : string -> option Z;
  processTemplate : string -> option TemplateData.t -> Outcome string;

  Date_now : World -> Z * World;
  Math_random : World -> Q * World;
  generateText : GenerateTextArgs.t -> World -> Promise string * World;
  createMemory : Memory.t N -> World -> Outcome unit * World;
  getRelevantFacts : string -> World -> Outcome (list (Memory.t N)) * World;
  detectContradictions :
    string -> list (Memory.t N) -> World -> Outcome (list (Contradiction.t N)) * World;
  extractRelationships :
    string -> AlfaFrensMessage.t -> World -> Outcome (option (list Relationship.t)) * World;
  webSearchService : bool;
  webSearch : string -> World -> Outcome (option SearchResults.t) * World;
  getKnowledge : string -> Z -> World -> Outcome (list (option string)) * World;
  httpGet : string -> World -> Outcome (list AlfaFrensMessage.t) * World;
  httpPost : string -> Payload.t -> World -> Outcome AlfaFrensSendMessageResponse.t * World;
  cacheGet : string -> World -> Outcome (option millis) * World;
  cacheSet : string -> millis -> World -> Outcome unit * World
}.

(** The state the helpers of [utils.ts], [fact-validation.ts] and [api.ts]
    act on: the world, and the calls made so far, oldest first. *)
Record Sys (World N : Type) : Type := mkSys {
  world : World;
  calls : list (Call N)
}.
Arguments mkSys {World N}.
Arguments world {World N}.
Arguments calls {World N}.

Section Calls.
Context {World N : Type}.

(** Makes the call [c]: it is recorded, and the world answers. *)
Definition perform {A} (c : Call N) (op : World -> A * World) : M (Sys World N) A :=
  fun s =>
    let (a, w) := op (world s) in
    (Returns a, {| world := w; calls := calls s ++ [c] |}).

(** The same, awaited. *)
Definition call {A} (c : Call N) (op : World -> Outcome A * World) : M (Sys World N) A :=
  fun s =>
    let (r, w) := op (world s) in
    (r, {| world := w; calls := calls s ++ [c] |}).

End Calls.

Import Num.
Local Open Scope async_scope.

(** ** [extensions/fact-validation.ts]: [class FactValidationManager] *)

Module FactValidationManager.

(** [result.match(/\[.*\]/s)]: from the first opening bracket to the last
    closing bracket after it. *)
Fixpoint fromFirst (c : ascii) (s : string) : option string :=
  match s with
  | EmptyString => None
  | String b r => if Ascii.eqb b c then Some s else fromFirst c r
  end.

Definition uptoLast (c : ascii) (s : string) : option string :=
  option_map Js.reverse (fromFirst c (Js.reverse s)).

Definition matchJsonArray (result : string) : option string :=
  match fromFirst "[" result with
  | Some t => uptoLast "]" t
  | None => None
  end.

(** [facts.filter(fact => typeof fact === 'string' && fact.trim().length > 0)]. *)
Fixpoint validFacts (facts : list Json) : list string :=
  match facts with
  | [] => []
  | JString fact :: r =>
      if Js.nonEmpty (Js.trim fact) then fact :: validFacts r else validFacts r
  | _ :: r => validFacts r
  end.

(** The tests of [extractFactsFallback] on one sentence. *)
Definition isQuestion (sentence : string) : bool :=
  Js.includes "?" sentence ||
  Js.startsWith "what" (Js.toLowerCase sentence) ||
  Js.startsWith "who" (Js.toLowerCase sentence) ||
  Js.startsWith "when" (Js.toLowerCase sentence) ||
  Js.startsWith "where" (Js.toLowerCase sentence) ||
  Js.startsWith "why" (Js.toLowerCase sentence) ||
  Js.startsWith "how" (Js.toLowerCase sentence).

(** [/think|feel|believe|opinion|seem|appear|likely|possibly|maybe|perhaps/i] *)
Definition opinionWords : list Js.pattern :=
  map Js.lit
    ["think"; "feel"; "believe"; "opinion"; "seem"; "appear"; "likely";
     "possibly"; "maybe"; "perhaps"].

Definition hasOpinionWords (sentence : string) : bool :=
  Js.test true opinionWords sentence.

(** [/in \d{4}|\d{4}|founded|created|established|launched|developed|built|designed|is a|was born|located|headquartered/i] *)
Definition factSignals : list Js.pattern :=
  (Js.lit "in " ++ [Js.Dig; Js.Dig; Js.Dig; Js.Dig])%list ::
  [Js.Dig; Js.Dig; Js.Dig; Js.Dig] ::
  map Js.lit
    ["founded"; "created"; "established"; "launched"; "developed"; "built";
     "designed"; "is a"; "was born"; "located"; "headquartered"].

Definition hasFactSignals (sentence : string) : bool :=
  Js.test true factSignals sentence.

(** [content.split(/[.!?]+/).map(s => s.trim()).filter(s => s.length > 0)] *)
Definition sentences (content : string) : list string :=
  List.filter Js.nonEmpty (map Js.trim (Js.splitSentences content)).

(** [extractFactsFallback], lines 153-180. *)
Definition extractFactsFallback (content : string) : list string :=
  List.filter
    (fun sentence =>
       negb (isQuestion sentence) && negb (hasOpinionWords sentence) && hasFactSignals sentence)
    (sentences content).

(** The prompt of [extractFacts], lines 100-108. *)
Definition extractFactsPrompt (content : string) : string :=
  Js.join Js.nl
    [ "Extract factual statements from this text. Return ONLY a JSON array of strings.";
      "        Only include clear, factual statements, not opinions or subjective content.";
      "        The JSON array must be properly formatted with square brackets and quoted strings.";
      "        ";
      ("        Text: " ++ Js.dquote ++ content ++ Js.dquote)%string;
      "        ";
      "        Example format:";
      ("        [" ++ Js.dquote ++ "Fact 1" ++ Js.dquote ++ ", " ++ Js.dquote ++ "Fact 2"
        ++ Js.dquote ++ ", " ++ Js.dquote ++ "Fact 3" ++ Js.dquote ++ "]")%string;
      "        " ].

Section Manager.
Context {World N : Type} {num : JsNumber N} {rt : Runtime World N}.

(** [private confidenceThreshold: number = 0.7] *)
Definition confidenceThreshold : N := lit 0.7.

(** [extractFacts], lines 99-147. *)
Definition extractFacts (content : string) : M (Sys World N) (list string) :=
  let args := GenerateTextArgs.mk (extractFactsPrompt content) (Some SMALL) [] None in
  Async.tryCatch
    (p <- perform (GenerateText args) (generateText args) ;;
     result <- await p ;;
     match matchJsonArray result with
     | None => ret (extractFactsFallback content)
     | Some jsonStr =>
         Async.tryCatch
           (match JSON_parse jsonStr with
            | None => throw "SyntaxError"
            | Some (JArray facts) => ret (validFacts facts)
            | Some _ => ret (extractFactsFallback content)
            end)
           (fun parseError => ret (extractFactsFallback content))
     end)
    (fun error => ret (extractFactsFallback content)).

(** [calculateFactConfidence], lines 290-313. *)
Definition calculateFactConfidence
    (fact : string) (message : AlfaFrensMessage.t)
    (contradictions : list (Contradiction.t N)) : N :=
  let confidence := lit 0.5 in
  let confidence :=
    if String.eqb (AlfaFrensMessage.senderId message) agentId
    then add confidence (lit 0.2)
    else confidence in
  let confidence :=
    if (0 <? List.length contradictions)%nat
    then
      let avgContradictionConfidence :=
        div (fold_left (fun acc c => add acc (Contradiction.confidence c))
                       contradictions (lit 0))
            (ofLength (List.length contradictions)) in
      sub confidence (mul avgContradictionConfidence (lit 0.3))
    else confidence in
  Math_max (lit 0) (Math_min (lit 1) confidence).

(** [validateFact], lines 182-195.  The three private helpers it awaits wrap
    the memory store and the generation service and catch their failures;
    they are calls to the environment. *)
Definition validateFact (fact : string) (message : AlfaFrensMessage.t)
  : M (Sys World N) (FactValidation.t N) :=
  existingFacts <- call (GetRelevantFacts fact) (getRelevantFacts fact) ;;
  contradictions <-
    call (DetectContradictions fact existingFacts) (detectContradictions fact existingFacts) ;;
  let confidence := calculateFactConfidence fact message contradictions in
  relationships <- call (ExtractRelationships fact) (extractRelationships fact message) ;;
  now <- perform DateNow Date_now ;;
  ret (FactValidation.mk confidence (AlfaFrensMessage.senderId message) now
         (map Contradiction.fact contradictions) relationships).

(** The memory [storeFact] builds, lines 332-347. *)
Definition factMemory (fact : string) (validation : FactValidation.t N) (now : Z)
  : Memory.t N :=
  Memory.mk (stringToUuid ("fact-" ++ showZ now)) agentId agentId agentId fact None
    (Some (FactValidation.mk (FactValidation.confidence validation)
             (FactValidation.source validation) (FactValidation.timestamp validation)
             (FactValidation.contradictions validation)
             (FactValidation.relationships validation))).

(** [storeFact], lines 325-353. *)
Definition storeFact (fact : string) (validation : FactValidation.t N)
  : M (Sys World N) unit :=
  if ltb (FactValidation.confidence validation) confidenceThreshold
  then ret tt
  else
    Async.tryCatch
      (now <- perform DateNow Date_now ;;
       let memory := factMemory fact validation now in
       call (CreateMemory memory) (createMemory memory))
      (fun error => ret tt).

End Manager.

End FactValidationManager.

(** ** [api.ts]: [class AlfaFrensApi] *)

Module AlfaFrensApi.

(** The options of [getMessages]; an absent flag is [false]. *)
Module Options.
Record t : Type := mk {
  since : option millis;
  until : option millis;
  includeReactions : bool;
  includeReplies : bool
}.
End Options.

(** Truthiness of an optional number: [undefined], [0] and [NaN] are falsy. *)
Definition truthy (x : option millis) : bool :=
  match x with
  | Some (Ms t) => negb (t =? 0)%Z
  | Some NaN => false
  | None => false
  end.

(** A number inside a template literal (integers below 10^21 in magnitude). *)
Definition showMillis (x : millis) : string :=
  match x with
  | Ms t => showZ t
  | NaN => "NaN"
  end.

Section Api.
Context {World N : Type} {rt : Runtime World N}.

(** [private async fetch<T>(path, options)], lines 20-45: the request is
    sent, and a response that is not [ok] is thrown. *)
Definition fetchGet (path : string) : M (Sys World N) (list AlfaFrensMessage.t) :=
  call (HttpGet path) (httpGet path).

Definition fetchPost (path : string) (body : Payload.t)
  : M (Sys World N) AlfaFrensSendMessageResponse.t :=
  call (HttpPost path body) (httpPost path body).

(** The [include] parameter, lines 69-84. *)
Definition includeParameter (options : Options.t) : string :=
  if Options.includeReactions options || Options.includeReplies options
  then
    let includeValues := [] in
    let includeValues :=
      if Options.includeReactions options then (includeValues ++ ["reactions"])%list
      else includeValues in
    let includeValues :=
      if Options.includeReplies options then ["reactions"; "replies"]
      else includeValues in
    if (0 <? List.length includeValues)%nat
    then "&include=" ++ Js.join "," includeValues
    else ""
  else "".

(** [getMessages], lines 52-101. *)
Definition getMessages (options : Options.t) : M (Sys World N) (list AlfaFrensMessage.t) :=
  Async.tryCatch
    (since <-
       (if truthy (Options.since options)
        then ret (default NaN (Options.since options))
        else (now <- perform DateNow Date_now ;; ret (Ms (now - 3600000)))) ;;
     let url := "/api/ai/getChannelMessages?since=" ++ showMillis since in
     let url :=
       if truthy (Options.until options)
       then url ++ "&until=" ++ showMillis (default NaN (Options.until options))
       else url in
     let url := url ++ includeParameter options in
     response <- fetchGet url ;;
     ret response)
    (fun error => throw error).

(** [sendMessageWithOptions], lines 134-154. *)
Definition sendMessageWithOptions (content : string) (replyTo : option string)
  : M (Sys World N) AlfaFrensSendMessageResponse.t :=
  Async.tryCatch
    (let payload :=
       Payload.mk (Js.trim content)
         (match replyTo with
          | Some r => if Js.nonEmpty r then Some r else None
          | None => None
          end) in
     response <- fetchPost "/api/ai/postMessage" payload ;;
     ret response)
    (fun error => throw error).

Definition sendMessage (content : string) := sendMessageWithOptions content None.

Definition replyMessage (content replyToPostId : string) :=
  sendMessageWithOptions content (Some replyToPostId).

Definition createPost (content : string) := sendMessageWithOptions content None.

End Api.

End AlfaFrensApi.

(** ** [memory.ts] *)

(** [createAlfaFrensMemory]. *)
Definition createAlfaFrensMemory {World N : Type} {rt : Runtime World N}
    (roomId senderId : string) (message : AlfaFrensMessage.t) (isBotMessage : bool)
  : Memory.t N :=
  Memory.mk (AlfaFrensMessage.id message) senderId agentId roomId
    (AlfaFrensMessage.content message)
    (if isBotMessage then Some "ALFAFRENS_SEND_MESSAGE" else None)
    None.

(** ** [alfafrens-client.ts]: the client operations of [AlfaFrensManager]

    [getMessages], [sendMessage], [createPost] and [searchKnowledge], which
    the manager offers to the poll loop as its [AlfaFrensClient]. *)

Module AlfaFrensClient.

Section Client.
Context {World N : Type} {rt : Runtime World N}.
Variable config : AlfaFrensConfig.t.

(** [getMessages], lines 325-345. *)
Definition getMessages (since until : option millis) (includeReactions includeReplies : bool)
  : M (Sys World N) (list AlfaFrensMessage.t) :=
  Async.tryCatch
    (messages <-
       AlfaFrensApi.getMessages
         (AlfaFrensApi.Options.mk since until includeReactions includeReplies) ;;
     ret messages)
    (fun error => throw error).

(** [createMessageFromResponse] and [prepareMessageAndMemory], lines 350-366
    and 482-490. *)
Definition prepareMessageAndMemory
    (response : AlfaFrensSendMessageResponse.t) (content roomId : string)
  : Memory.t N * AlfaFrensMessage.t :=
  let message :=
    AlfaFrensMessage.mk
      (AlfaFrensSendMessageResponse.messageId response)
      (AlfaFrensConfig.userId config)
      (Js.orElse (Some (AlfaFrensConfig.username config)) "AI Assistant")
      content
      (AlfaFrensSendMessageResponse.timestamp response)
      None in
  (createAlfaFrensMemory (stringToUuid roomId) agentId message true, message).

(** [sendMessage], lines 368-396. *)
Definition sendMessage (content roomId : string) (inReplyTo : option string)
  : M (Sys World N) (list (Memory.t N * AlfaFrensMessage.t)) :=
  Async.tryCatch
    (response <-
       (match inReplyTo with
        | Some parent =>
            if Js.nonEmpty parent
            then AlfaFrensApi.replyMessage content parent
            else AlfaFrensApi.sendMessage content
        | None => AlfaFrensApi.sendMessage content
        end) ;;
     let result := prepareMessageAndMemory response content roomId in
     ret [result])
    (fun error => throw error).

(** [createPost], lines 398-418. *)
Definition createPost (content roomId : string)
  : M (Sys World N) (list (Memory.t N * AlfaFrensMessage.t)) :=
  Async.tryCatch
    (response <- AlfaFrensApi.createPost content ;;
     let result := prepareMessageAndMemory response content roomId in
     ret [result])
    (fun error => throw error).

(** [searchKnowledge], lines 425-438; an entry is the [content.text] of a
    knowledge item, when it has one. *)
Definition searchKnowledge (query : string) (limit : Z)
  : M (Sys World N) (list (option string)) :=
  Async.tryCatch
    (results <- call (GetKnowledge query limit) (getKnowledge query limit) ;;
     ret results)
    (fun error => ret []).

End Client.

End AlfaFrensClient.

(** ** [extensions/utils.ts] *)

Module Utils.

(** The entry [generateResponse] keeps of each validated fact, line 375. *)
Module FactResult.
Record t (N : Type) : Type := mk {
  fact : string;
  confidence : N;
  contradictions : list string
}.
Arguments mk {N}.
Arguments fact {N}.
Arguments confidence {N}.
Arguments contradictions {N}.
End FactResult.

(** [formatConversationHistory], lines 161-172. *)
Definition formatConversationHistory (messages : list AlfaFrensMessage.t) : string :=
  if (List.length messages =? 0)%nat
  then "No previous messages."
  else
    Js.join (Js.nl ++ Js.nl)
      (map (fun msg =>
              let role :=
                if String.eqb (AlfaFrensMessage.senderId msg)
                              (AlfaFrensMessage.senderUsername msg)
                then "ASSISTANT"
                else "USER (" ++ AlfaFrensMessage.senderUsername msg ++ ")" in
              role ++ ": " ++ AlfaFrensMessage.content msg)
           messages).

(** The lines of the web search results, lines 299-301: [i] counts from 0. *)
Fixpoint searchResultLines (i : Z) (results : list (string * string)) : list string :=
  match results with
  | [] => []
  | (title, url) :: r =>
      (showZ (i + 1) ++ ". " ++ title ++ " - " ++ url) :: searchResultLines (i + 1) r
  end.

(** [r.content?.text || ""], then [filter(Boolean)], line 317. *)
Definition knowledgeTexts (results : list (option string)) : list string :=
  List.filter Js.nonEmpty (map (fun r => Js.orElse r "") results).

(** [parseModelClass], lines 50-59. *)
Definition parseModelClass (modelClass : option string) : option ModelClass :=
  match modelClass with
  | None => None
  | Some name =>
      if negb (Js.nonEmpty name) then None
      else if String.eqb (Js.toUpperCase name) "SMALL" then Some SMALL
      else if String.eqb (Js.toUpperCase name) "MEDIUM" then Some MEDIUM
      else if String.eqb (Js.toUpperCase name) "LARGE" then Some LARGE
      else None
  end.

(** [DEFAULT_POST_TEMPLATE], lines 82-98. *)
Definition DEFAULT_POST_TEMPLATE : string :=
  Js.join Js.nl
    [ "You are {{character.name}}, an AI assistant with the following traits:";
      "{{character.adjectives}}";
      "";
      "Your topics of expertise include:";
      "{{character.topics}}";
      "";
      "TASK: Write a new post for a community channel.";
      "";
      "RULES:";
      "1. Write ONLY the post content";
      "2. Do not include any meta-commentary";
      "3. Start directly with your message";
      "4. Keep it engaging and relevant";
      "5. Maximum length: 2-3 sentences";
      "6. Be concise and meaningful";
      "";
      "POST:" ].

(** [DEFAULT_RESPONSE_TEMPLATE], lines 103-122. *)
Definition DEFAULT_RESPONSE_TEMPLATE : string :=
  Js.join Js.nl
    [ "You are {{character.name}}, an AI assistant with the following traits:";
      "{{character.adjectives}}";
      "";
      "Your topics of expertise include:";
      "{{character.topics}}";
      "";
      "CONVERSATION HISTORY:";
      "{{message.history}}";
      "";
      "USER ({{message.sender}}): {{message.content}}";
      "";
      "TASK: Respond to the user's message.";
      "";
      "RULES:";
      "1. Keep responses concise (1-2 sentences)";
      "2. Be direct and helpful";
      "3. Stay focused on the question";
      "4. No meta-commentary";
      "";
      "YOUR RESPONSE:" ].

(** [DEFAULT_EVALUATION_TEMPLATE], lines 127-154. *)
Definition DEFAULT_EVALUATION_TEMPLATE : string :=
  Js.join Js.nl
    [ "TASK: Decide whether the AI assistant should respond to this message.";
      "";
      ("Message: " ++ Js.dquote ++ "{{message.content}}" ++ Js.dquote)%string;
      "Sender: {{message.sender}}";
      "";
      "INSTRUCTIONS:";
      "You are helping me decide if the AI assistant should respond to the message above.";
      "Consider the following:";
      "1. Is this a substantial message that requires a response?";
      "2. Is the message directed at the assistant?";
      "3. Is the message a question, request for help, or engaging in conversation?";
      "4. Is the message appropriate to respond to?";
      "";
      "Response format:";
      "Return a JSON array with:";
      "1. A boolean (true/false) indicating whether to respond";
      "2. A brief explanation for your decision";
      "";
      "Example response:";
      "```json";
      ("[true, " ++ Js.dquote
         ++ "This is a direct question that the assistant should answer"
         ++ Js.dquote ++ "]")%string;
      "```";
      "";
      "Or:";
      "```json";
      ("[false, " ++ Js.dquote
         ++ "This message is too short and doesn't require a response"
         ++ Js.dquote ++ "]")%string;
      "```";
      "" ].

(** The fallback of [generatePostContent], line 269. *)
Definition postFallback : string := "I'm sorry, I couldn't generate a post at this time.".

(** The message of the timeout error, line 202. *)
Definition timeoutMessage : string := "LLM request timed out".

Section Utils.
Context {World N : Type} {num : JsNumber N} {rt : Runtime World N}.

(** [getNumericSetting], lines 68-77. *)
Definition getNumericSetting (key : string) (defaultValue : Z) : Z :=
  match getSetting key with
  | None => defaultValue
  | Some value =>
      if negb (Js.nonEmpty value) then defaultValue
      else default defaultValue (parseInt value)
  end.

(** [generateLLMResponse], lines 177-241: the generation call is raced
    against a timer of 30000 ms; an error is rethrown. *)
Definition generateLLMResponse
    (context : string) (modelClass : option ModelClass) (traceId : string)
  : M (Sys World N) string :=
  Async.tryCatch
    (let timeoutPromise := rejectAfter 30000 timeoutMessage in
     let args :=
       GenerateTextArgs.mk context modelClass [Js.nl ++ Js.nl]
         (Some "You are a helpful assistant that responds as accurately as possible.") in
     llmPromise <- perform (GenerateText args) (generateText args) ;;
     result <- await (race llmPromise timeoutPromise) ;;
     ret result)
    (fun error => throw error).

(** [generatePostContent], lines 246-271. *)
Definition generatePostContent (template : string) (modelClass : option ModelClass)
  : M (Sys World N) string :=
  context <- settle (processTemplate template None) ;;
  Async.tryCatch
    (content <- generateLLMResponse context modelClass "post" ;;
     ret content)
    (fun error => ret postFallback).

(** The web search of [generateResponse], lines 285-308. *)
Definition searchWeb (message : string) : M (Sys World N) string :=
  Async.tryCatch
    (if webSearchService
     then
       searchResults <- call (WebSearch message) (webSearch message) ;;
       match searchResults with
       | Some found =>
           if (0 <? List.length (SearchResults.results found))%nat
           then
             ret (Js.orElse (SearchResults.answer found) "" ++ Js.nl ++ Js.nl
                    ++ "Relevant web search results:" ++ Js.nl
                    ++ Js.join Js.nl (searchResultLines 0 (SearchResults.results found)))
           else ret ""
       | None => ret ""
       end
     else ret "")
    (fun error => ret "").

(** The knowledge lookup of [generateResponse], lines 311-321. *)
Definition relevantKnowledge (message : string) : M (Sys World N) string :=
  Async.tryCatch
    (knowledgeResults <- AlfaFrensClient.searchKnowledge message 3 ;;
     if (0 <? List.length knowledgeResults)%nat
     then
       ret (Js.nl ++ Js.nl ++ "Relevant knowledge:" ++ Js.nl
              ++ Js.join (Js.nl ++ Js.nl) (knowledgeTexts knowledgeResults))
     else ret "")
    (fun error => ret "").

(** [validation.contradictions.length > 0 || validation.confidence < 0.7],
    lines 382 and 395. *)
Definition needsCorrection (r : FactResult.t N) : bool :=
  (0 <? List.length (FactResult.contradictions r))%nat
  || ltb (FactResult.confidence r) (lit 0.7).

(** The validation loop, lines 370-385; [requiresCorrection] and
    [factValidationResults] are the loop's two variables. *)
Fixpoint validateFacts
    (extractedFacts : list string) (dummyMessage : AlfaFrensMessage.t)
    (requiresCorrection : bool) (factValidationResults : list (FactResult.t N))
  : M (Sys World N) (bool * list (FactResult.t N)) :=
  match extractedFacts with
  | [] => ret (requiresCorrection, factValidationResults)
  | fact :: rest =>
      validation <- FactValidationManager.validateFact fact dummyMessage ;;
      let result :=
        FactResult.mk fact (FactValidation.confidence validation)
                      (FactValidation.contradictions validation) in
      validateFacts rest dummyMessage
        (requiresCorrection || needsCorrection result)
        (factValidationResults ++ [result])
  end.

(** One line of the correction context, lines 396-402. *)
Definition correctionLine (r : FactResult.t N) : string :=
  if (0 <? List.length (FactResult.contradictions r))%nat
  then "CORRECTION: " ++ Js.dquote ++ FactResult.fact r ++ Js.dquote
       ++ " contradicts known facts: " ++ Js.join ", " (FactResult.contradictions r)
  else "CORRECTION: " ++ Js.dquote ++ FactResult.fact r ++ Js.dquote
       ++ " has low confidence (" ++ toFixed2 (FactResult.confidence r) ++ ")".

(** [correctionContext], lines 394-403. *)
Definition correctionContext (factValidationResults : list (FactResult.t N)) : string :=
  Js.join Js.nl (map correctionLine (List.filter needsCorrection factValidationResults)).

(** [revisedPrompt], line 406. *)
Definition revisedPrompt (prompt : string) (factValidationResults : list (FactResult.t N))
  : string :=
  prompt ++ Js.nl ++ Js.nl
    ++ "Your initial response contains factual issues that need correction:" ++ Js.nl
    ++ correctionContext factValidationResults ++ Js.nl ++ Js.nl ++ "Revised response:".

(** The storing loop, lines 421-430. *)
Definition storeValidated (factValidationResults : list (FactResult.t N))
  : M (Sys World N) unit :=
  forEach factValidationResults
    (fun result =>
       if geb (FactResult.confidence result) (lit 0.7)
          && (List.length (FactResult.contradictions result) =? 0)%nat
       then
         now <- perform DateNow Date_now ;;
         FactValidationManager.storeFact (FactResult.fact result)
           (FactValidation.mk (FactResult.confidence result) agentId now [] None)
       else ret tt).

(** The message [generateResponse] validates its facts under, lines 361-367:
    it is signed by the agent. *)
Definition dummyMessage (rawResponse : string) (idStamp timeStamp : Z)
  : AlfaFrensMessage.t :=
  AlfaFrensMessage.mk
    ("validation-" ++ showZ idStamp)
    agentId
    (Js.orElse characterName "AI Assistant")
    rawResponse
    (toISOString timeStamp)
    None.

(** The first half of the [try] block of [generateResponse], lines 352-387:
    the facts of the response are extracted and validated.  [None] when no
    fact was extracted; else the two variables of the validation loop. *)
Definition validateDraft (rawResponse : string)
  : M (Sys World N) (option (bool * list (FactResult.t N))) :=
  extractedFacts <- FactValidationManager.extractFacts rawResponse ;;
  if (List.length extractedFacts =? 0)%nat
  then ret None
  else
    idStamp <- perform DateNow Date_now ;;
    timeStamp <- perform DateNow Date_now ;;
    validated <-
      validateFacts extractedFacts (dummyMessage rawResponse idStamp timeStamp) false [] ;;
    ret (Some validated).

(** The [try] block of [generateResponse], lines 350-431: [Some text] when
    the block returns [text], [None] when it runs to its end. *)
Definition validateResponse
    (prompt rawResponse : string) (modelClass : option ModelClass)
  : M (Sys World N) (option string) :=
  checked <- validateDraft rawResponse ;;
  match checked with
  | None => ret (Some rawResponse)
  | Some (requiresCorrection, factValidationResults) =>
      if (requiresCorrection : bool)
      then
        correctedResponse <-
          generateLLMResponse (revisedPrompt prompt factValidationResults)
            (Some (default MEDIUM modelClass)) "corrected-response" ;;
        ret (Some correctedResponse)
      else
        storeValidated factValidationResults ;;;
        ret None
  end.

(** The first part of [generateResponse], lines 284-345: the context is
    gathered, the prompt is built and the raw response is generated.  The
    [client] of the source is the manager, whose [searchKnowledge] is
    called. *)
Definition draftResponse
    (message : string) (messageHistory : list AlfaFrensMessage.t)
    (template : string) (modelClass : option ModelClass)
  : M (Sys World N) (string * string) :=
  webSearchResults <- searchWeb message ;;
  knowledgeContext <- relevantKnowledge message ;;
  let formattedHistory := formatConversationHistory messageHistory in
  let contextEnhancedMessage := message in
  prompt <-
    settle (processTemplate template
              (Some (TemplateData.mk contextEnhancedMessage formattedHistory
                       webSearchResults knowledgeContext))) ;;
  rawResponse <-
    generateLLMResponse prompt (Some (default MEDIUM modelClass)) "response" ;;
  ret (prompt, rawResponse).

(** [generateResponse], lines 276-438. *)
Definition generateResponse
    (message : string) (messageHistory : list AlfaFrensMessage.t)
    (template : string) (modelClass : option ModelClass)
  : M (Sys World N) string :=
  draft <- draftResponse message messageHistory template modelClass ;;
  let (prompt, rawResponse) := (draft : string * string) in
  returned <-
    Async.tryCatch (validateResponse prompt rawResponse modelClass)
                   (fun error => ret None) ;;
  match returned with
  | Some text => ret text
  | None => ret rawResponse
  end.

(** [evaluateMessage], lines 447-463: the forced debug mode answers [true]. *)
Definition evaluateMessage
    (message : AlfaFrensMessage.t) (template : string) (modelClass : option ModelClass)
  : M (Sys World N) bool :=
  ret true.

End Utils.

End Utils.

(** ** [extensions/ai-interaction.ts]: [class AlfaFrensAIInteraction] *)

Module AlfaFrensAIInteraction.

(** [AlfaFrensAIInteractionOptions], the fields the class reads. *)
Module Options.
Record t : Type := mk {
  evaluationTemplate : option string;
  responseTemplate : option string;
  postTemplate : option string;
  modelClass : option ModelClass;
  intervalSeconds : option Z
}.
End Options.

(** The calls of the poll loop to its collaborators, as they are made:
    [client.getMessages] with its [since], [evaluateMessage] on a message,
    [generateResponse] for a message, and [client.sendMessage] of a response
    in reply to a message. *)
Inductive Step : Type :=
| Fetch (since : millis)
| Evaluate (message : AlfaFrensMessage.t)
| Respond (message : AlfaFrensMessage.t)
| Reply (message : AlfaFrensMessage.t) (response : string).

(** The fields of the class, the calls made so far (oldest first), and the
    state of the helpers. *)
Record State (World N : Type) : Type := mkState {
  isRunning : bool;
  messageHistory : list AlfaFrensMessage.t;
  lastProcessedTime : millis;
  pollIntervalId : option Z;       (* the period of the poll timer, in ms *)
  postIntervalId : option Z;       (* the period of the post timer, in ms *)
  sentMessageIds : gset string;
  steps : list Step;
  sys : Sys World N
}.
Arguments mkState {World N}.
Arguments isRunning {World N}.
Arguments messageHistory {World N}.
Arguments lastProcessedTime {World N}.
Arguments pollIntervalId {World N}.
Arguments postIntervalId {World N}.
Arguments sentMessageIds {World N}.
Arguments steps {World N}.
Arguments sys {World N}.

(** The kind of generation [getConfig] is asked about. *)
Inductive Kind : Type := evaluation | response | post.

(** [x || d] for an optional number [x]: [undefined] and [0] are falsy. *)
Definition orNumber (x : option Z) (d : Z) : Z :=
  match x with
  | Some i => if (i =? 0)%Z then d else i
  | None => d
  end.

(** [array.slice(-n)]. *)
Definition lastN {A} (n : nat) (l : list A) : list A := skipn (List.length l - n) l.

(** The batches of [processMessages], lines 255-260:
    [messages.slice(i, i + batchSize)] for [i = 0, batchSize, ...]. *)
Fixpoint batchesOf {A} (fuel batchSize : nat) (messages : list A) : list (list A) :=
  match fuel, messages with
  | _, [] => []
  | O, _ => []
  | S fuel', _ =>
      firstn batchSize messages :: batchesOf fuel' batchSize (skipn batchSize messages)
  end.

Definition messageBatches {A} (batchSize : nat) (messages : list A) : list (list A) :=
  batchesOf (List.length messages) batchSize messages.

Section Interaction.
Context {World N : Type} {num : JsNumber N} {rt : Runtime World N}.
Variable config : AlfaFrensConfig.t.
Variable options : Options.t.

Abbreviation St := (State World N).

(** [new AlfaFrensAIInteraction(client, runtime, options)] at the time [now]:
    the field initialisers of lines 109-115. *)
Definition create (now : Z) (s : Sys World N) : St :=
  mkState false [] (Ms now) None None ∅ [] s.

Definition setRunning (b : bool) (s : St) : St :=
  mkState b (messageHistory s) (lastProcessedTime s) (pollIntervalId s)
    (postIntervalId s) (sentMessageIds s) (steps s) (sys s).

Definition setMessageHistory (h : list AlfaFrensMessage.t) (s : St) : St :=
  mkState (isRunning s) h (lastProcessedTime s) (pollIntervalId s)
    (postIntervalId s) (sentMessageIds s) (steps s) (sys s).

Definition setLastProcessedTime (t : millis) (s : St) : St :=
  mkState (isRunning s) (messageHistory s) t (pollIntervalId s)
    (postIntervalId s) (sentMessageIds s) (steps s) (sys s).

Definition setPollIntervalId (i : option Z) (s : St) : St :=
  mkState (isRunning s) (messageHistory s) (lastProcessedTime s) i
    (postIntervalId s) (sentMessageIds s) (steps s) (sys s).

Definition setPostIntervalId (i : option Z) (s : St) : St :=
  mkState (isRunning s) (messageHistory s) (lastProcessedTime s) (pollIntervalId s)
    i (sentMessageIds s) (steps s) (sys s).

Definition addSentMessageId (id : string) (s : St) : St :=
  mkState (isRunning s) (messageHistory s) (lastProcessedTime s) (pollIntervalId s)
    (postIntervalId s) ({[ id ]} ∪ sentMessageIds s) (steps s) (sys s).

Definition setSys (t : Sys World N) (s : St) : St :=
  mkState (isRunning s) (messageHistory s) (lastProcessedTime s) (pollIntervalId s)
    (postIntervalId s) (sentMessageIds s) (steps s) t.

(** Records a call of the poll loop. *)
Definition step (e : Step) : M St unit :=
  modify (fun s =>
    mkState (isRunning s) (messageHistory s) (lastProcessedTime s) (pollIntervalId s)
      (postIntervalId s) (sentMessageIds s) (steps s ++ [e]) (sys s)).

(** A helper of the other modules, run from the class. *)
Definition helper {A} (m : M (Sys World N) A) : M St A := Async.lift sys setSys m.

(** [getModelClass], lines 61-64. *)
Definition getModelClass (settingName fallbackSetting : string) : option ModelClass :=
  match Utils.parseModelClass (getSetting settingName) with
  | Some c => Some c
  | None => Utils.parseModelClass (getSetting fallbackSetting)
  end.

(** [getConfig], lines 69-90. *)
Definition getConfig (type : Kind) : string * option ModelClass :=
  let defaultTemplate :=
    match type with
    | evaluation => Utils.DEFAULT_EVALUATION_TEMPLATE
    | response => Utils.DEFAULT_RESPONSE_TEMPLATE
    | post => Utils.DEFAULT_POST_TEMPLATE
    end in
  let settingName :=
    match type with
    | evaluation => "ALFAFRENS_EVALUATION_MODEL_CLASS"
    | response => "ALFAFRENS_RESPONSE_MODEL_CLASS"
    | post => "ALFAFRENS_POST_MODEL_CLASS"
    end in
  let template :=
    match type with
    | evaluation => Options.evaluationTemplate options
    | response => Options.responseTemplate options
    | post => Options.postTemplate options
    end in
  (Js.orElse template defaultTemplate,
   match Options.modelClass options with
   | Some c => Some c
   | None => getModelClass settingName "ALFAFRENS_MODEL_CLASS"
   end).

(** [result && result.length > 0 && result[0].message && result[0].message.id],
    then [sentMessageIds.add], lines 373-376 and 434-437. *)
Definition trackSent (result : list (Memory.t N * AlfaFrensMessage.t)) : M St unit :=
  match result with
  | (_, sent) :: _ =>
      if Js.nonEmpty (AlfaFrensMessage.id sent)
      then modify (addSentMessageId (AlfaFrensMessage.id sent))
      else ret tt
  | [] => ret tt
  end.

(** The body of the loop of [processMessageBatch], lines 290-385, for one
    message; [continue] is the end of the body. *)
Definition processMessage (message : AlfaFrensMessage.t) : M St unit :=
  s <- get ;;
  if bool_decide (AlfaFrensMessage.id message ∈ sentMessageIds s)
  then ret tt
  else if String.eqb (AlfaFrensMessage.senderId message) (AlfaFrensConfig.userId config)
  then ret tt
  else
    let normalizedMessageUsername :=
      Js.orElse (Some (Js.removeFirst "@" (AlfaFrensMessage.senderUsername message))) "" in
    let normalizedConfigUsername :=
      Js.orElse (Some (Js.removeFirst "@" (AlfaFrensConfig.username config))) "" in
    if Js.nonEmpty normalizedMessageUsername && Js.nonEmpty normalizedConfigUsername
       && String.eqb normalizedMessageUsername normalizedConfigUsername
    then ret tt
    else
      let memory : Memory.t N :=
        createAlfaFrensMemory
          (stringToUuid (AlfaFrensConfig.channelId config))
          (stringToUuid (Js.orElse (Some (AlfaFrensMessage.senderId message)) "user"))
          message false in
      Async.tryCatch (helper (call (CreateMemory memory) (createMemory memory)))
                     (fun error => ret tt) ;;;
      let evaluationConfig := getConfig evaluation in
      Async.tryCatch
        (step (Evaluate message) ;;;
         shouldRespond <-
           helper (Utils.evaluateMessage message (fst evaluationConfig)
                     (snd evaluationConfig)) ;;
         if negb shouldRespond
         then ret tt
         else
           let responseConfig := getConfig response in
           s <- get ;;
           step (Respond message) ;;;
           response <-
             helper (Utils.generateResponse
                       (Js.orElse (Some (AlfaFrensMessage.content message)) "")
                       (lastN 10 (messageHistory s))
                       (fst responseConfig) (snd responseConfig)) ;;
           Async.tryCatch
             (step (Reply message response) ;;;
              result <-
                helper (AlfaFrensClient.sendMessage config response
                          (AlfaFrensConfig.channelId config)
                          (Some (AlfaFrensMessage.id message))) ;;
              trackSent result)
             (fun error => ret tt))
        (fun error => ret tt).

(** [processMessageBatch], lines 289-386. *)
Definition processMessageBatch (messages : list AlfaFrensMessage.t) : M St unit :=
  forEach messages processMessage.

(** The timestamp of [messages[messages.length - 1]]. *)
Definition lastTimestamp (messages : list AlfaFrensMessage.t) : string :=
  match List.last (map Some messages) None with
  | Some m => AlfaFrensMessage.timestamp m
  | None => ""
  end.

(** [processMessages], lines 210-284. *)
Definition processMessages : M St unit :=
  Async.tryCatch
    (s <- get ;;
     if negb (isRunning s)
     then ret tt
     else
       step (Fetch (lastProcessedTime s)) ;;;
       messages <-
         helper (AlfaFrensClient.getMessages (Some (lastProcessedTime s)) None false false) ;;
       if (List.length messages =? 0)%nat
       then ret tt
       else
         modify (fun s => setMessageHistory (lastN 50 (messageHistory s ++ messages)) s) ;;;
         modify (setLastProcessedTime (millisSucc (Date_getTime (lastTimestamp messages)))) ;;;
         let batchSize := 10%nat in
         forEach (messageBatches batchSize messages)
           (fun batch =>
              Async.tryCatch (processMessageBatch batch) (fun batchError => ret tt)))
    (fun error => ret tt).

(** The private [generatePostContent], lines 455-461, without a custom
    template. *)
Definition generatePostContent : M St string :=
  let postConfig := getConfig post in
  helper (Utils.generatePostContent (fst postConfig) (snd postConfig)).

(** [createPost], lines 416-448. *)
Definition createPost (customContent : option string)
  : M St (list (Memory.t N * AlfaFrensMessage.t)) :=
  Async.tryCatch
    (content <-
       (match customContent with
        | Some text => if Js.nonEmpty text then ret text else generatePostContent
        | None => generatePostContent
        end) ;;
     result <-
       helper (AlfaFrensClient.createPost config content
                 (AlfaFrensConfig.channelId config)) ;;
     trackSent result ;;;
     match result with
     | [] => throw "TypeError"
     | _ :: _ => ret result
     end)
    (fun error => throw error).

(** [start], lines 136-181.  The timers are registered with their periods;
    the cycles they trigger later are further calls of [processMessages] and
    [createPost].  The draw of [Math.random] is an exact number and the
    period of the post timer is computed from it without rounding, where
    binary64 rounds the product and the sum. *)
Definition start (intervalSeconds : option Z) : M St unit :=
  s <- get ;;
  if isRunning s
  then ret tt
  else
    modify (setRunning true) ;;;
    let interval :=
      orNumber intervalSeconds
        (orNumber (Options.intervalSeconds options)
           (Utils.getNumericSetting "ALFAFRENS_POLL_INTERVAL_SECONDS" 30)) in
    modify (setPollIntervalId (Some (interval * 1000)%Z)) ;;;
    Async.tryCatch processMessages (fun err => ret tt) ;;;
    if AlfaFrensConfig.enablePost config
    then
      r <- helper (perform MathRandom Math_random) ;;
      let postInterval :=
        Qfloor (r * inject_Z (AlfaFrensConfig.postIntervalMax config
                              - AlfaFrensConfig.postIntervalMin config)
                + inject_Z (AlfaFrensConfig.postIntervalMin config))%Q in
      modify (setPostIntervalId (Some (postInterval * 1000)%Z))
    else ret tt.

(** [stop], lines 186-205. *)
Definition stop : M St unit :=
  s <- get ;;
  if negb (isRunning s)
  then ret tt
  else
    modify (setRunning false) ;;;
    modify (setPollIntervalId None) ;;;
    modify (setPostIntervalId None).

End Interaction.

End AlfaFrensAIInteraction.

(** ** [config.ts] *)

(** [AlfaFrensGenerationConfig]: a template and a model class for each kind
    of generation. *)
Module AlfaFrensGenerationConfig.
Record t : Type := mk {
  evaluation : string * option ModelClass;
  response : string * option ModelClass;
  post : string * option ModelClass
}.
End AlfaFrensGenerationConfig.

(** [loadAlfaFrensConfig]. *)
Definition loadAlfaFrensConfig {World N : Type} {rt : Runtime World N}
  : AlfaFrensGenerationConfig.t :=
  let defaultModelClass := Utils.parseModelClass (getSetting "ALFAFRENS_MODEL_CLASS") in
  let orDefault (c : option ModelClass) :=
    match c with Some x => Some x | None => defaultModelClass end in
  AlfaFrensGenerationConfig.mk
    (Js.orElse (getSetting "ALFAFRENS_EVALUATION_TEMPLATE") "",
     orDefault (Utils.parseModelClass (getSetting "ALFAFRENS_EVALUATION_MODEL_CLASS")))
    (Js.orElse (getSetting "ALFAFRENS_RESPONSE_TEMPLATE") "",
     orDefault (Utils.parseModelClass (getSetting "ALFAFRENS_RESPONSE_MODEL_CLASS")))
    (Js.orElse (getSetting "ALFAFRENS_POST_TEMPLATE") "",
     orDefault (Utils.parseModelClass (getSetting "ALFAFRENS_POST_MODEL_CLASS"))).

(** ** [alfafrens-client.ts]: the life cycle of [AlfaFrensManager] *)

Module AlfaFrensManager.

(** The fields of the manager that change: [isRunning], its own
    [lastProcessedTime], and the poll loop it owns. *)
Record State (World N : Type) : Type := mkState {
  isRunning : bool;
  lastProcessedTime : millis;
  aiInteraction : AlfaFrensAIInteraction.State World N
}.
Arguments mkState {World N}.
Arguments isRunning {World N}.
Arguments lastProcessedTime {World N}.
Arguments aiInteraction {World N}.

(** The key of the cache entry. *)
Definition cacheKey : string := "alfafrens_last_processed_time".

(** The first post of [initialize], line 287. *)
Definition initialMessage : string :=
  "Hey AlfaFrens! I'm back online and ready to help with your questions. Feel free to ask anything!".

Section Manager.
Context {World N : Type} {num : JsNumber N} {rt : Runtime World N}.

(** The configuration the constructor reads from the settings, lines
    218-227. *)
Variable config : AlfaFrensConfig.t.

Abbreviation St := (State World N).

(** The options the constructor gives the poll loop, lines 244-251. *)
Definition interactionOptions : AlfaFrensAIInteraction.Options.t :=
  let generationConfig := loadAlfaFrensConfig in
  AlfaFrensAIInteraction.Options.mk
    (Some (fst (AlfaFrensGenerationConfig.evaluation generationConfig)))
    (Some (fst (AlfaFrensGenerationConfig.response generationConfig)))
    (Some (fst (AlfaFrensGenerationConfig.post generationConfig)))
    (snd (AlfaFrensGenerationConfig.response generationConfig))
    (Some (AlfaFrensConfig.pollInterval config)).

(** [new AlfaFrensManager(runtime)], lines 213-255: it throws without an
    API key, and creates the poll loop, whose field initialiser reads the
    clock. *)
Definition create (s : Sys World N) : JsError + St :=
  if negb (Js.nonEmpty (AlfaFrensConfig.apiKey config))
  then inl "AlfaFrens API key is required"
  else
    let (now, w) := Date_now (world s) in
    inr (mkState false (Ms 0)
           (AlfaFrensAIInteraction.create now (mkSys w (calls s ++ [DateNow])))).

Definition setRunning (b : bool) (s : St) : St :=
  mkState b (lastProcessedTime s) (aiInteraction s).

Definition setLastProcessedTime (t : millis) (s : St) : St :=
  mkState (isRunning s) t (aiInteraction s).

Definition setInteraction (a : AlfaFrensAIInteraction.State World N) (s : St) : St :=
  mkState (isRunning s) (lastProcessedTime s) a.

(** A method of the poll loop, called by the manager. *)
Definition interaction {A} (m : M (AlfaFrensAIInteraction.State World N) A) : M St A :=
  Async.lift aiInteraction setInteraction m.

(** A helper of the other modules, called by the manager. *)
Definition helper {A} (m : M (Sys World N) A) : M St A :=
  interaction (AlfaFrensAIInteraction.helper m).

(** [initialize], lines 257-299.  The registration of the actions with the
    runtime (lines 276-277) is left out. *)
Definition initialize : M St unit :=
  s <- get ;;
  if isRunning s
  then ret tt
  else
    modify (setRunning true) ;;;
    Async.tryCatch
      (cached <- helper (call (CacheGet cacheKey) (cacheGet cacheKey)) ;;
       restored <-
         (if AlfaFrensApi.truthy cached
          then ret (default NaN cached)
          else (now <- helper (perform DateNow Date_now) ;;
                ret (Ms (now - 5 * 60 * 1000)))) ;;
       modify (setLastProcessedTime restored) ;;;
       interaction
         (AlfaFrensAIInteraction.start config interactionOptions
            (Some (AlfaFrensConfig.pollInterval config))) ;;;
       helper (AlfaFrensClient.sendMessage config initialMessage
                 (AlfaFrensConfig.channelId config) None) ;;;
       ret tt)
      (fun error => modify (setRunning false) ;;; throw error).

(** [stop], lines 301-320. *)
Definition stop : M St unit :=
  s <- get ;;
  if negb (isRunning s)
  then ret tt
  else
    modify (setRunning false) ;;;
    Async.tryCatch
      (s <- get ;;
       helper (call (CacheSet cacheKey (lastProcessedTime s))
                    (cacheSet cacheKey (lastProcessedTime s))) ;;;
       interaction AlfaFrensAIInteraction.stop)
      (fun error => throw error).

End Manager.

End AlfaFrensManager.

(** ** Scripted environments

    Concrete instances of [Runtime], on which the embedding is run in the
    examples.  The world is the clock: a reading of [Date.now()] takes one
    millisecond, and the services answer as the script says. *)

Module Scripted.

(** Reads [n] decimal digits. *)
Fixpoint digits (n : nat) (s : string) (acc : Z) : option (Z * string) :=
  match n with
  | O => Some (acc, s)
  | S n' =>
      match s with
      | String c r =>
          if Js.isDigit c
          then digits n' r (acc * 10 + (Z.of_nat (nat_of_ascii c) - 48))%Z
          else None
      | EmptyString => None
      end
  end.

Definition expect (c : ascii) (s : string) : option string :=
  match s with
  | String b r => if Ascii.eqb b c then Some r else None
  | EmptyString => None
  end.

(** Days from 1970-01-01 to the civil date [y-m-d]. *)
Definition daysFromCivil (y m d : Z) : Z :=
  let y' := (if m <=? 2 then y - 1 else y)%Z in
  let era := (y' / 400)%Z in
  let yoe := (y' - era * 400)%Z in
  let doy := ((153 * (if m >? 2 then m - 3 else m + 9) + 2) / 5 + d - 1)%Z in
  let doe := (yoe * 365 + yoe / 4 - yoe / 100 + doy)%Z in
  (era * 146097 + doe - 719468)%Z.

(** [new Date(s).getTime()] on the format [YYYY-MM-DDTHH:MM:SS.sssZ] that
    [toISOString] writes; anything else is [NaN] here. *)
Definition isoGetTime (s : string) : millis :=
  let parsed :=
    '(y, s) ← digits 4 s 0%Z; s ← expect "-" s;
    '(mo, s) ← digits 2 s 0%Z; s ← expect "-" s;
    '(d, s) ← digits 2 s 0%Z; s ← expect "T" s;
    '(h, s) ← digits 2 s 0%Z; s ← expect ":" s;
    '(mi, s) ← digits 2 s 0%Z; s ← expect ":" s;
    '(se, s) ← digits 2 s 0%Z; s ← expect "." s;
    '(ms, s) ← digits 3 s 0%Z; s ← expect "Z" s;
    if negb (Js.nonEmpty s)
       && (1 <=? mo)%Z && (mo <=? 12)%Z && (1 <=? d)%Z && (d <=? 31)%Z
       && (h <=? 23)%Z && (mi <=? 59)%Z && (se <=? 59)%Z
    then Some ((((daysFromCivil y mo d * 24 + h) * 60 + mi) * 60 + se) * 1000 + ms)%Z
    else None in
  match parsed with
  | Some t => Ms t
  | None => NaN
  end.

(** What the services answer. *)
Record Script (N : Type) : Type := mkScript {
  agent : string;
  cached : option millis;                       (* the cache entry *)
  inbox : Outcome (list AlfaFrensMessage.t);    (* the answer to a GET *)
  posted : Outcome AlfaFrensSendMessageResponse.t;   (* the answer to a POST *)
  llm : string -> Promise string;               (* the generation, by its context *)
  parse : string -> option Json;                (* [JSON.parse] on the texts in play *)
  conflicts : string -> list (Contradiction.t N);    (* the contradictions of a fact *)
  stored : Outcome unit                         (* the answer of the memory store *)
}.
Arguments mkScript {N}.
Arguments agent {N}.
Arguments cached {N}.
Arguments inbox {N}.
Arguments posted {N}.
Arguments llm {N}.
Arguments parse {N}.
Arguments conflicts {N}.
Arguments stored {N}.

(** The environment of a script.  There are no settings, no web search and
    no knowledge; a template is rendered as itself followed by the message. *)
Definition runtime {N : Type} (sc : Script N) : Runtime Z N := {|
  agentId := agent sc;
  characterName := None;
  stringToUuid s := s;
  JSON_parse := parse sc;
  Date_getTime := isoGetTime;
  toISOString t := showZ t;
  getSetting _ := None;
  parseInt _ := None;
  processTemplate template data :=
    Returns (template ++ match data with
                         | Some d => TemplateData.message_content d
                         | None => ""
                         end);
  Date_now w := (w, (w + 1)%Z);
  Math_random w := (0%Q, w);
  generateText args w := (llm sc (GenerateTextArgs.context args), w);
  createMemory _ w := (stored sc, w);
  getRelevantFacts _ w := (Returns [], w);
  detectContradictions fact _ w := (Returns (conflicts sc fact), w);
  extractRelationships _ _ w := (Returns None, w);
  webSearchService := false;
  webSearch _ w := (Returns None, w);
  getKnowledge _ _ w := (Returns [], w);
  httpGet _ w := (inbox sc, w);
  httpPost _ _ w := (posted sc, w);
  cacheGet _ w := (Returns (cached sc), w);
  cacheSet _ _ w := (Returns tt, w)
|}.

(** A quiet script: nothing cached, an empty channel, a generator that
    answers [ok] at once, a parser that knows no text. *)
Definition quiet {N : Type} : Script N :=
  mkScript "agent" None (Returns [])
    (Returns (AlfaFrensSendMessageResponse.mk "success" "sent-1" "2025-01-01T00:00:00.000Z"))
    (fun _ => Settles 0 (inr "ok")) (fun _ => None) (fun _ => []) (Returns tt).

(** The state in which nothing has been called yet, at the time [now]. *)
Definition fresh {N : Type} (now : Z) : Sys Z N := mkSys now [].

End Scripted.

(* ===================================================================== *)
(** * Part II: properties *)
(* ===================================================================== *)

Import FactValidationManager Utils.

(** ** Running asynchronous code *)

Ltac unfold_async :=
  unfold Async.bind, Async.ret, Async.throw, Async.tryCatch, Async.get, Async.modify,
    Async.settle, Async.await, Async.lift, perform, call in *.

Lemma bind_returns {S A B} (m : M S A) (k : A -> M S B) s a s' :
  m s = (Returns a, s') -> Async.bind m k s = k a s'.
Proof. intros H. unfold Async.bind. now rewrite H. Qed.

Lemma bind_throws {S A B} (m : M S A) (k : A -> M S B) s e s' :
  m s = (Throws e, s') -> Async.bind m k s = (Throws e, s').
Proof. intros H. unfold Async.bind. now rewrite H. Qed.

Lemma bind_pending {S A B} (m : M S A) (k : A -> M S B) s s' :
  m s = (Pending, s') -> Async.bind m k s = (Pending, s').
Proof. intros H. unfold Async.bind. now rewrite H. Qed.

Lemma tryCatch_returns {S A} (m : M S A) h s a s' :
  m s = (Returns a, s') -> Async.tryCatch m h s = (Returns a, s').
Proof. intros H. unfold Async.tryCatch. now rewrite H. Qed.

Lemma tryCatch_throws {S A} (m : M S A) h s e s' :
  m s = (Throws e, s') -> Async.tryCatch m h s = h e s'.
Proof. intros H. unfold Async.tryCatch. now rewrite H. Qed.

Lemma tryCatch_pending {S A} (m : M S A) h s s' :
  m s = (Pending, s') -> Async.tryCatch m h s = (Pending, s').
Proof. intros H. unfold Async.tryCatch. now rewrite H. Qed.

Lemma tryCatch_rethrow {S A} (m : M S A) s :
  Async.tryCatch m (fun e => throw e) s = m s.
Proof. unfold Async.tryCatch, throw. destruct (m s) as [[a|e|] s']; reflexivity. Qed.

Lemma bind_ret_r {S A} (m : M S A) s : Async.bind m (fun x => ret x) s = m s.
Proof. unfold Async.bind, ret. destruct (m s) as [[a|e|] s']; reflexivity. Qed.

Lemma bind_ret_l {S A B} (a : A) (k : A -> M S B) s : Async.bind (ret a) k s = k a s.
Proof. reflexivity. Qed.

Lemma call_run {World N A} (c : Call N) (op : World -> Outcome A * World) (s : Sys World N) :
  call c op s = (fst (op (world s)), mkSys (snd (op (world s))) (calls s ++ [c])).
Proof. unfold call. destruct (op (world s)); reflexivity. Qed.

Lemma perform_run {World N A} (c : Call N) (op : World -> A * World) (s : Sys World N) :
  perform c op s = (Returns (fst (op (world s))), mkSys (snd (op (world s))) (calls s ++ [c])).
Proof. unfold perform. destruct (op (world s)); reflexivity. Qed.

(** ** The two models of numbers *)

Section Numbers.

Local Open Scope Q_scope.

Lemma Q_ltb_lt (a b : Q) : ltb a b = true <-> a < b.
Proof.
  cbn. rewrite negb_true_iff. split.
  - intros H. apply Qnot_le_lt. intros Hle. apply Qle_bool_iff in Hle. congruence.
  - intros H. destruct (Qle_bool b a) eqn:E; [|reflexivity].
    apply Qle_bool_iff in E. exfalso. apply (Qlt_not_le _ _ H E).
Qed.

Lemma Q_ltb_ge (a b : Q) : ltb a b = false <-> b <= a.
Proof.
  cbn. rewrite negb_false_iff. apply Qle_bool_iff.
Qed.

Lemma Q_geb_ge (a b : Q) : geb a b = true <-> b <= a.
Proof. apply Qle_bool_iff. Qed.

(** [Math.max(0, Math.min(1, x))] lies in [0,1]. *)
Lemma Q_clamp_range (x : Q) : 0 <= Math_max 0 (Math_min 1 x) <= 1.
Proof.
  cbn. destruct (Qle_bool 1 x) eqn:E1.
  - destruct (Qle_bool 0 1) eqn:E0; split; try discriminate; try apply Qle_refl.
    all: try (now apply Qle_bool_iff).
    all: try (discriminate E0).
  - assert (Hx : x <= 1).
    { apply Qlt_le_weak, Qnot_le_lt. intros H. apply Qle_bool_iff in H. congruence. }
    destruct (Qle_bool 0 x) eqn:E0.
    + split; [now apply Qle_bool_iff | exact Hx].
    + split; [apply Qle_refl | discriminate].
Qed.

(** The clamp leaves a value of [0,1] as it is. *)
Lemma Q_clamp_id (x : Q) : 0 <= x <= 1 -> Math_max 0 (Math_min 1 x) == x.
Proof.
  intros [H0 H1]. cbn.
  destruct (Qle_bool 1 x) eqn:E1.
  - apply Qle_bool_iff in E1. cbn. apply Qle_antisym; assumption.
  - apply Qle_bool_iff in H0. rewrite H0. reflexivity.
Qed.

(** The literals of the sources are the nearest binary64 values. *)
Lemma binary64_literals :
  lit (N := float) 0.5 = 0.5%float /\ lit (N := float) 0.2 = 0.2%float /\
  lit (N := float) 0.3 = 0.3%float /\ lit (N := float) 0.7 = 0.7%float /\
  lit (N := float) 0 = 0%float /\ lit (N := float) 1 = 1%float.
Proof. repeat split; vm_compute; reflexivity. Qed.

(** In binary64, [0.5 + 0.2] is [0.7]: the sum rounds to the literal. *)
Lemma binary64_base_sum : add (lit (N := float) 0.5) (lit 0.2) = lit 0.7.
Proof. vm_compute. reflexivity. Qed.

End Numbers.

(** ** Comparisons and NaN in binary64 *)

Section Binary64.

Lemma SFcompare_antisym (x y : spec_float) (c : comparison) :
  SFcompare x y = Some c -> SFcompare y x = Some (CompOpp c).
Proof.
  destruct x as [sx|sx| |sx mx ex], y as [sy|sy| |sy my ey]; cbn;
    try discriminate; try (intros [= <-]; now destruct sx, sy);
    try (intros [= <-]; now destruct sx); try (intros [= <-]; now destruct sy).
  intros [= <-]. f_equal.
  assert (Hm : Pos.compare_cont Eq my mx = CompOpp (Pos.compare_cont Eq mx my)).
  { now rewrite (Pos.compare_cont_antisym mx my Eq). }
  change PosDef.Pos.compare_cont with Pos.compare_cont.
  destruct sx, sy; try reflexivity;
    rewrite (Z.compare_antisym ex ey); destruct (ex ?= ey)%Z; cbn; try reflexivity;
    rewrite Hm; now destruct (Pos.compare_cont Eq mx my).
Qed.

Lemma SFcompare_defined (x y : spec_float) :
  x <> S754_nan -> y <> S754_nan -> exists c, SFcompare x y = Some c.
Proof. destruct x, y; cbn; intros Hx Hy; try congruence; eauto. Qed.

Lemma is_nan_false (x : float) : PrimFloat.is_nan x = false -> Prim2SF x <> S754_nan.
Proof.
  unfold PrimFloat.is_nan. rewrite FloatAxioms.eqb_spec. intros H E. rewrite E in H.
  discriminate H.
Qed.

(** There is one NaN. *)
Lemma is_nan_true (x : float) : PrimFloat.is_nan x = true -> x = PrimFloat.nan.
Proof.
  unfold PrimFloat.is_nan. rewrite FloatAxioms.eqb_spec. intros H.
  apply Prim2SF_inj. change (Prim2SF PrimFloat.nan) with S754_nan.
  destruct (Prim2SF x) as [s|s| |s m e] eqn:E; try reflexivity; exfalso.
  - discriminate H.
  - destruct s; discriminate H.
  - unfold SFeqb in H.
    destruct (SFcompare (S754_finite s m e) (S754_finite s m e)) as [c|] eqn:Hc;
      [|discriminate Hc].
    pose proof (SFcompare_antisym _ _ _ Hc) as Hc'. rewrite Hc in Hc'.
    injection Hc' as Hc'. destruct c; discriminate.
Qed.

Lemma float_lt_le (a b : float) : PrimFloat.ltb a b = true -> PrimFloat.leb a b = true.
Proof.
  rewrite FloatAxioms.ltb_spec, FloatAxioms.leb_spec. unfold SFltb, SFleb.
  now destruct (SFcompare (Prim2SF a) (Prim2SF b)) as [[]|].
Qed.

Lemma float_nlt_le (a b : float) :
  PrimFloat.is_nan a = false -> PrimFloat.is_nan b = false ->
  PrimFloat.ltb a b = false -> PrimFloat.leb b a = true.
Proof.
  intros Ha Hb. apply is_nan_false in Ha, Hb.
  rewrite FloatAxioms.ltb_spec, FloatAxioms.leb_spec. unfold SFltb, SFleb.
  destruct (SFcompare_defined _ _ Ha Hb) as (c & Hc).
  rewrite Hc, (SFcompare_antisym _ _ _ Hc). now destruct c.
Qed.

(** An operation on NaN gives NaN. *)
Lemma add_nan_l (y : float) : PrimFloat.add PrimFloat.nan y = PrimFloat.nan.
Proof. apply Prim2SF_inj. rewrite FloatAxioms.add_spec. reflexivity. Qed.

Lemma add_nan_r (x : float) : PrimFloat.add x PrimFloat.nan = PrimFloat.nan.
Proof.
  apply Prim2SF_inj. rewrite FloatAxioms.add_spec.
  change (Prim2SF PrimFloat.nan) with S754_nan.
  unfold SF64add, SFadd. now destruct (Prim2SF x).
Qed.

Lemma div_nan_l (y : float) : PrimFloat.div PrimFloat.nan y = PrimFloat.nan.
Proof. apply Prim2SF_inj. rewrite FloatAxioms.div_spec. reflexivity. Qed.

Lemma mul_nan_l (y : float) : PrimFloat.mul PrimFloat.nan y = PrimFloat.nan.
Proof. apply Prim2SF_inj. rewrite FloatAxioms.mul_spec. reflexivity. Qed.

Lemma sub_nan_r (x : float) : PrimFloat.sub x PrimFloat.nan = PrimFloat.nan.
Proof.
  apply Prim2SF_inj. rewrite FloatAxioms.sub_spec.
  change (Prim2SF PrimFloat.nan) with S754_nan.
  unfold SF64sub, SFsub. now destruct (Prim2SF x).
Qed.

(** [Math.max(0, Math.min(1, x))] in binary64: in [0,1] unless [x] is NaN,
    and NaN when [x] is. *)
Lemma binary64_clamp_range (x : float) :
  PrimFloat.is_nan x = false ->
  PrimFloat.leb 0 (floatMax 0 (floatMin 1 x)) = true
  /\ PrimFloat.leb (floatMax 0 (floatMin 1 x)) 1 = true.
Proof.
  intros Hx.
  assert (Hmin : PrimFloat.is_nan (floatMin 1 x) = false
                 /\ PrimFloat.leb (floatMin 1 x) 1 = true).
  { unfold floatMin. rewrite Hx. change (PrimFloat.is_nan 1) with false. cbn [orb].
    destruct (PrimFloat.ltb 1 x) eqn:E1; [split; reflexivity|].
    assert (Hle : PrimFloat.leb x 1 = true) by (now apply float_nlt_le).
    change (isNegZero 1) with false.
    destruct (PrimFloat.ltb x 1); now split. }
  destruct Hmin as (Hnan & Hle). set (m := floatMin 1 x) in *.
  unfold floatMax. rewrite Hnan. change (PrimFloat.is_nan 0) with false. cbn [orb].
  change (isNegZero 0) with false.
  destruct (PrimFloat.ltb 0 m) eqn:E0.
  - split; [now apply float_lt_le | exact Hle].
  - destruct (PrimFloat.ltb m 0); split; reflexivity.
Qed.

Lemma binary64_clamp_nan (x : float) :
  PrimFloat.is_nan x = true ->
  PrimFloat.is_nan (floatMax 0 (floatMin 1 x)) = true.
Proof.
  intros Hx. unfold floatMin. rewrite Hx, orb_true_r. reflexivity.
Qed.

End Binary64.

(** ** The confidence of a fact ([calculateFactConfidence]) *)

Section Unclamped.

Import FactValidationManager.

Context {World N : Type} {num : JsNumber N} {rt : Runtime World N}.

(** The base: 0.5, and 0.2 more for a message of the agent. *)
Definition baseConfidence (message : AlfaFrensMessage.t) : N :=
  if String.eqb (AlfaFrensMessage.senderId message) agentId
  then add (lit 0.5) (lit 0.2)
  else lit 0.5.

(** The average of the confidences of the contradictions, as the source
    computes it: their sum from 0, over their number. *)
Definition averageConfidence (contradictions : list (Contradiction.t N)) : N :=
  div (fold_left (fun acc c => add acc (Contradiction.confidence c)) contradictions (lit 0))
      (ofLength (List.length contradictions)).

(** The confidence before it is clamped. *)
Definition unclamped (message : AlfaFrensMessage.t)
    (contradictions : list (Contradiction.t N)) : N :=
  match contradictions with
  | [] => baseConfidence message
  | _ :: _ =>
      sub (baseConfidence message) (mul (averageConfidence contradictions) (lit 0.3))
  end.

Lemma calculateFactConfidence_clamps (fact : string) (message : AlfaFrensMessage.t)
    (contradictions : list (Contradiction.t N)) :
  calculateFactConfidence fact message contradictions
  = Math_max (lit 0) (Math_min (lit 1) (unclamped message contradictions)).
Proof.
  unfold calculateFactConfidence, unclamped, baseConfidence, averageConfidence.
  destruct contradictions as [|c l]; reflexivity.
Qed.

End Unclamped.

Section Confidence.

Import FactValidationManager.
Local Open Scope Q_scope.

Context {World : Type} {rtQ : Runtime World Q} {rt64 : Runtime World float}.

(** The average of the contradiction confidences, as the specification
    words it: their sum over their number. *)
Definition total (l : list (Contradiction.t Q)) : Q :=
  fold_right (fun c acc => Contradiction.confidence c + acc) 0 l.

Definition average (l : list (Contradiction.t Q)) : Q :=
  total l / inject_Z (Z.of_nat (List.length l)).

(** The base confidence: 0.5, and 0.2 more for the agent's own messages. *)
Definition base (message : AlfaFrensMessage.t) : Q :=
  if String.eqb (AlfaFrensMessage.senderId message) (agentId (N := Q)) then 0.7 else 0.5.

Lemma fold_left_total (l : list (Contradiction.t Q)) (acc : Q) :
  fold_left (fun a c => add a (Contradiction.confidence c)) l acc == acc + total l.
Proof.
  revert acc. induction l as [|c l IH]; intros acc; cbn [fold_left].
  - change (total []) with 0. ring.
  - rewrite IH. change (total (c :: l)) with (Contradiction.confidence c + total l).
    cbn [add Q_number]. ring.
Qed.

Lemma Q_clamp_compat (x y : Q) :
  x == y -> Math_max 0 (Math_min 1 x) == Math_max 0 (Math_min 1 y).
Proof.
  intros E. cbn.
  assert (E1 : Qle_bool 1 x = Qle_bool 1 y).
  { apply eq_true_iff_eq. rewrite !Qle_bool_iff. now rewrite E. }
  rewrite E1. destruct (Qle_bool 1 y); [reflexivity|].
  assert (E0 : Qle_bool 0 x = Qle_bool 0 y).
  { apply eq_true_iff_eq. rewrite !Qle_bool_iff. now rewrite E. }
  rewrite E0. destruct (Qle_bool 0 y); [exact E | reflexivity].
Qed.

(** A sum in binary64 that has met NaN is NaN. *)
Lemma fold_left_nan (l : list (Contradiction.t float)) :
  fold_left (fun a c => add a (Contradiction.confidence c)) l PrimFloat.nan = PrimFloat.nan.
Proof.
  induction l as [|c l IH]; [reflexivity|].
  cbn [fold_left]. cbn [add binary64]. now rewrite add_nan_l.
Qed.

Lemma sum_nan (l : list (Contradiction.t float)) (acc : float) :
  Exists (fun c => PrimFloat.is_nan (Contradiction.confidence c) = true) l ->
  fold_left (fun a c => add a (Contradiction.confidence c)) l acc = PrimFloat.nan.
Proof.
  intros H. revert acc. induction H as [c l Hc|c l _ IH]; intros acc; cbn [fold_left].
  - rewrite (is_nan_true _ Hc). cbn [add binary64]. rewrite add_nan_r. apply fold_left_nan.
  - apply IH.
Qed.

(** C3.  [calculateFactConfidence] is the clamp [Math.max(0, Math.min(1, x))]
    of the base (0.5, and 0.2 more for a message of the agent) less, when
    there are contradictions, 0.3 times the average of their confidences.
    In binary64: the result lies in [0,1] whenever that value [x] is not
    NaN, and is NaN when it is, as it is as soon as the confidence of one
    contradiction is NaN; it is the number 0.7 for a message of the agent
    without contradictions and 0.5 for a message of anyone else without
    contradictions.  Over exact arithmetic the result lies in [0,1] for
    every input and is the clamp of the base less 0.3 times the sum of the
    confidences over their number. *)
Theorem calculateFactConfidence_spec :
  (forall fact message contradictions,
     calculateFactConfidence (N := float) fact message contradictions
     = Math_max (lit 0) (Math_min (lit 1) (unclamped message contradictions))) /\
  (forall fact message contradictions,
     PrimFloat.is_nan (unclamped (N := float) message contradictions) = false ->
     leb (lit 0) (calculateFactConfidence (N := float) fact message contradictions) = true
     /\ leb (calculateFactConfidence (N := float) fact message contradictions) (lit 1)
        = true) /\
  (forall fact message contradictions,
     PrimFloat.is_nan (unclamped (N := float) message contradictions) = true ->
     PrimFloat.is_nan (calculateFactConfidence (N := float) fact message contradictions)
     = true) /\
  (forall fact message contradictions,
     Exists (fun c => PrimFloat.is_nan (Contradiction.confidence c) = true) contradictions ->
     PrimFloat.is_nan (calculateFactConfidence (N := float) fact message contradictions)
     = true
     /\ leb (lit 0) (calculateFactConfidence (N := float) fact message contradictions)
        = false) /\
  (forall fact message,
     AlfaFrensMessage.senderId message = agentId (N := float) ->
     calculateFactConfidence (N := float) fact message [] = 0.7%float) /\
  (forall fact message,
     AlfaFrensMessage.senderId message <> agentId (N := float) ->
     calculateFactConfidence (N := float) fact message [] = 0.5%float) /\
  (forall fact message contradictions,
     0 <= calculateFactConfidence (N := Q) fact message contradictions <= 1) /\
  (forall fact message,
     AlfaFrensMessage.senderId message = agentId (N := Q) ->
     calculateFactConfidence (N := Q) fact message [] == 0.7) /\
  (forall fact message,
     AlfaFrensMessage.senderId message <> agentId (N := Q) ->
     calculateFactConfidence (N := Q) fact message [] == 0.5) /\
  (forall fact message contradictions,
     contradictions <> [] ->
     calculateFactConfidence (N := Q) fact message contradictions
     == Math_max 0 (Math_min 1 (base message - 0.3 * average contradictions))).
Proof.
  assert (Hnan : forall message contradictions,
            Exists (fun c => PrimFloat.is_nan (Contradiction.confidence c) = true)
              contradictions ->
            unclamped (N := float) message contradictions = PrimFloat.nan).
  { intros message contradictions H. unfold unclamped, averageConfidence.
    destruct contradictions as [|c l]; [inversion H|].
    rewrite (sum_nan _ _ H). cbn [div mul sub binary64].
    now rewrite div_nan_l, mul_nan_l, sub_nan_r. }
  split; [|split; [|split; [|split; [|split; [|split; [|split; [|split; [|split]]]]]]]].
  - intros fact message contradictions. apply calculateFactConfidence_clamps.
  - intros fact message contradictions Hx. rewrite calculateFactConfidence_clamps.
    exact (binary64_clamp_range _ Hx).
  - intros fact message contradictions Hx. rewrite calculateFactConfidence_clamps.
    exact (binary64_clamp_nan _ Hx).
  - intros fact message contradictions H.
    rewrite calculateFactConfidence_clamps, (Hnan _ _ H). split; reflexivity.
  - intros fact message H. unfold calculateFactConfidence.
    apply String.eqb_eq in H. rewrite H. vm_compute. reflexivity.
  - intros fact message H. unfold calculateFactConfidence.
    apply String.eqb_neq in H. rewrite H. vm_compute. reflexivity.
  - intros fact message contradictions. apply Q_clamp_range.
  - intros fact message H. unfold calculateFactConfidence.
    apply String.eqb_eq in H. rewrite H. reflexivity.
  - intros fact message H. unfold calculateFactConfidence.
    apply String.eqb_neq in H. rewrite H. reflexivity.
  - intros fact message contradictions Hne. unfold calculateFactConfidence.
    destruct contradictions as [|c l]; [congruence|].
    cbn [List.length Nat.ltb Nat.leb].
    apply Q_clamp_compat. unfold base, average.
    set (l' := c :: l).
    assert (Hsum : fold_left (fun acc c0 => add acc (Contradiction.confidence c0)) l' (lit 0)
                   == total l').
    { rewrite fold_left_total. cbn. ring. }
    destruct (String.eqb _ _); cbn [add sub mul div lit ofLength Q_number];
      rewrite Hsum; subst l'; cbn [List.length]; unfold Qdiv; ring.
Qed.

End Confidence.

(** The message of the examples: [sender] writes [text]. *)
Definition messageFrom (sender text : string) : AlfaFrensMessage.t :=
  AlfaFrensMessage.mk "m-1" sender sender text "2025-01-01T00:00:00.000Z" None.

(** A contradiction whose confidence is not a number: what the average of
    two confidences that were parsed as strings comes to. *)
Definition nanContradiction : Contradiction.t float :=
  Contradiction.mk "Paris is the capital of France" "Lyon is the capital of France"
    PrimFloat.nan 0.

Lemma calculateFactConfidence_witness :
  PrimFloat.is_nan
    (calculateFactConfidence (rt := Scripted.runtime (N := float) Scripted.quiet)
       "Paris is the capital of France" (messageFrom "someone" "hello") [nanContradiction])
  = true
  /\ (calculateFactConfidence (rt := Scripted.runtime (N := Q) Scripted.quiet)
        "Paris is the capital of France" (messageFrom "agent" "hello") [] == 0.7)%Q
  /\ (calculateFactConfidence (rt := Scripted.runtime (N := Q) Scripted.quiet)
        "Paris is the capital of France" (messageFrom "someone" "hello") [] == 0.5)%Q.
Proof.
  pose proof (@calculateFactConfidence_spec Z (Scripted.runtime Scripted.quiet)
                (Scripted.runtime Scripted.quiet))
    as (_ & _ & _ & Hnan & _ & _ & _ & Hagent & Hother & _).
  split; [|split].
  - apply Hnan. left. reflexivity.
  - apply Hagent. reflexivity.
  - apply Hother. discriminate.
Defined.

(** ** Storing a fact ([storeFact]) *)

Section Store.

Import FactValidationManager.
Local Open Scope Q_scope.

Context {World : Type} {rtQ : Runtime World Q} {rt64 : Runtime World float}.

(** What [storeFact] does once past the threshold, in any model of numbers:
    the memory is built at the time read from the clock and handed to the
    store, whose failure is swallowed. *)
Lemma storeFact_write {N : Type} {num : JsNumber N} {rt : Runtime World N}
    (fact : string) (v : FactValidation.t N) (s : Sys World N) :
  ltb (FactValidation.confidence v) confidenceThreshold = false ->
  storeFact fact v s =
    (let (now, w1) := Date_now (world s) in
     let (r, w2) := createMemory (factMemory fact v now) w1 in
     (match r with Throws _ => Returns tt | other => other end,
      mkSys w2 (calls s ++ [DateNow; CreateMemory (factMemory fact v now)]))).
Proof.
  intros H. unfold storeFact. rewrite H. unfold_async.
  destruct (Date_now (world s)) as [now w1]. cbn.
  destruct (createMemory (factMemory fact v now) w1) as [r w2].
  rewrite <- app_assoc. cbn. destruct r; reflexivity.
Qed.

Lemma storeFact_skip {N : Type} {num : JsNumber N} {rt : Runtime World N}
    (fact : string) (v : FactValidation.t N) (s : Sys World N) :
  ltb (FactValidation.confidence v) confidenceThreshold = true ->
  storeFact fact v s = (Returns tt, s).
Proof. intros H. unfold storeFact. rewrite H. reflexivity. Qed.

(** C2.  [storeFact] hands the fact to the memory store if and only if the
    confidence of the validation is at least 0.7; below 0.7 it does nothing
    and returns; it never throws.  In binary64, a confidence of 0.69999 is
    not stored and a confidence of 0.7 is. *)
Theorem storeFact_threshold :
  (forall fact (v : FactValidation.t Q) (s : Sys World Q),
     (exists m, calls (snd (storeFact fact v s)) = (calls s ++ [DateNow; CreateMemory m])%list
                /\ Memory.text m = fact /\ Memory.metadata m = Some v)
     <-> 0.7 <= FactValidation.confidence v) /\
  (forall fact (v : FactValidation.t Q) (s : Sys World Q),
     FactValidation.confidence v < 0.7 -> storeFact fact v s = (Returns tt, s)) /\
  (forall fact (v : FactValidation.t Q) (s : Sys World Q) e,
     fst (storeFact fact v s) <> Throws e) /\
  (forall fact (v : FactValidation.t float) (s : Sys World float),
     FactValidation.confidence v = 0.69999%float -> storeFact fact v s = (Returns tt, s)) /\
  (forall fact (v : FactValidation.t float) (s : Sys World float),
     FactValidation.confidence v = 0.7%float ->
     exists m, calls (snd (storeFact fact v s)) = (calls s ++ [DateNow; CreateMemory m])%list
               /\ Memory.text m = fact).
Proof.
  split; [|split; [|split; [|split]]].
  - intros fact v s. split.
    + intros (m & Hcalls & _). apply Q_ltb_ge.
      destruct (ltb (FactValidation.confidence v) confidenceThreshold) eqn:E; [|exact E].
      rewrite (storeFact_skip _ _ _ E) in Hcalls. cbn in Hcalls.
      apply (f_equal (@List.length _)) in Hcalls. rewrite length_app in Hcalls.
      cbn in Hcalls. lia.
    + intros H. apply Q_ltb_ge in H. rewrite (storeFact_write _ _ _ H).
      destruct (Date_now (world s)) as [now w1].
      destruct (createMemory (factMemory fact v now) w1) as [r w2].
      exists (factMemory fact v now). cbn. destruct v. auto.
  - intros fact v s H. apply storeFact_skip. now apply Q_ltb_lt.
  - intros fact v s e.
    destruct (ltb (FactValidation.confidence v) confidenceThreshold) eqn:E.
    + rewrite (storeFact_skip _ _ _ E). discriminate.
    + rewrite (storeFact_write _ _ _ E).
      destruct (Date_now (world s)) as [now w1].
      destruct (createMemory (factMemory fact v now) w1) as [r w2].
      destruct r; discriminate.
  - intros fact v s H. apply storeFact_skip. rewrite H. vm_compute. reflexivity.
  - intros fact v s H. rewrite storeFact_write by (rewrite H; vm_compute; reflexivity).
    destruct (Date_now (world s)) as [now w1].
    destruct (createMemory (factMemory fact v now) w1) as [r w2].
    exists (factMemory fact v now). cbn. auto.
Qed.

End Store.

Lemma storeFact_witness :
  storeFact (rt := Scripted.runtime (N := Q) Scripted.quiet)
    "Paris is the capital of France"
    (FactValidation.mk (69999 # 100000)%Q "agent" 0 [] None) (Scripted.fresh 0)
  = (Returns tt, Scripted.fresh 0).
Proof.
  apply (proj1 (proj2 (@storeFact_threshold Z (Scripted.runtime Scripted.quiet)
                         (Scripted.runtime Scripted.quiet)))).
  reflexivity.
Defined.

(** ** Strings: what the tests of the sources decide *)

Arguments String.append !_ _ / : simpl nomatch.

Section Strings.

Lemma append_nil_r (s : string) : s ++ "" = s.
Proof. induction s as [|c s IH]; cbn; [reflexivity | now rewrite IH]. Qed.

Lemma append_assoc (a b c : string) : (a ++ b) ++ c = a ++ b ++ c.
Proof. induction a as [|x a IH]; cbn; [reflexivity | now rewrite IH]. Qed.

Lemma toLowerCase_app (a b : string) :
  Js.toLowerCase (a ++ b) = Js.toLowerCase a ++ Js.toLowerCase b.
Proof. induction a as [|x a IH]; cbn; [reflexivity | now rewrite IH]. Qed.

(** A split of the lower-cased string is the lower-casing of a split. *)
Lemma toLowerCase_split (s x y : string) :
  Js.toLowerCase s = x ++ y ->
  exists a b, s = a ++ b /\ Js.toLowerCase a = x /\ Js.toLowerCase b = y.
Proof.
  revert s. induction x as [|c x IH]; intros s H.
  - exists "", s. auto.
  - destruct s as [|d s]; [discriminate|]. cbn in H. injection H as Hc Hs.
    destruct (IH s Hs) as (a & b & -> & Ha & Hb).
    exists (String d a), b. cbn. rewrite Ha, Hc. auto.
Qed.

Lemma startsWith_spec (p s : string) :
  Js.startsWith p s = true <-> exists r, s = p ++ r.
Proof.
  revert s. induction p as [|a p IH]; intros s; cbn.
  - split; [exists s; reflexivity | reflexivity].
  - destruct s as [|b s].
    + split; [discriminate | intros (r & H); discriminate].
    + rewrite andb_true_iff, Ascii.eqb_eq, IH. split.
      * intros (-> & r & ->). now exists r.
      * intros (r & H). injection H as -> ->. split; [reflexivity | now exists r].
Qed.

Lemma includes_spec (p s : string) :
  Js.includes p s = true <-> exists a b, s = a ++ p ++ b.
Proof.
  induction s as [|c s IH].
  - cbn [Js.includes]. rewrite orb_false_r, startsWith_spec. split.
    + intros (r & H). now exists "", r.
    + intros (a & b & H). destruct a; [now exists b | discriminate].
  - cbn [Js.includes]. rewrite orb_true_iff, startsWith_spec, IH. split.
    + intros [(r & H) | (a & b & ->)].
      * now exists "", r.
      * now exists (String c a), b.
    + intros (a & b & H). destruct a as [|x a].
      * left. now exists b.
      * right. injection H as -> ->. now exists a, b.
Qed.

(** A case-insensitive literal pattern is a prefix test on the lower-cased
    texts. *)
Lemma matchHere_lit (w s : string) :
  Js.matchHere true (Js.lit w) s = Js.startsWith (Js.toLowerCase w) (Js.toLowerCase s).
Proof.
  revert s. induction w as [|a w IH]; intros s; cbn; [reflexivity|].
  destruct s as [|b s]; cbn; [reflexivity|]. now rewrite IH.
Qed.

Lemma search_lit (w s : string) :
  Js.search true (Js.lit w) s = Js.includes (Js.toLowerCase w) (Js.toLowerCase s).
Proof.
  induction s as [|c s IH]; cbn [Js.search Js.includes Js.toLowerCase];
    rewrite matchHere_lit; [reflexivity | now rewrite IH].
Qed.

Lemma search_spec (ic : bool) (p : Js.pattern) (s : string) :
  Js.search ic p s = true <-> exists a b, s = a ++ b /\ Js.matchHere ic p b = true.
Proof.
  induction s as [|c s IH]; cbn [Js.search].
  - rewrite orb_false_r. split.
    + intros H. now exists "", "".
    + intros (a & b & H & Hm). destruct a, b; try discriminate. exact Hm.
  - rewrite orb_true_iff, IH. split.
    + intros [H | (a & b & -> & H)].
      * now exists "", (String c s).
      * now exists (String c a), b.
    + intros (a & b & H & Hm). destruct a as [|x a].
      * cbn in H. subst b. now left.
      * injection H as -> ->. right. now exists a, b.
Qed.

(** A match of [p] followed by [q] holds a match of [q]. *)
Lemma matchHere_app (ic : bool) (p q : Js.pattern) (s : string) :
  Js.matchHere ic (p ++ q)%list s = true ->
  exists a b, s = a ++ b /\ Js.matchHere ic q b = true.
Proof.
  revert s. induction p as [|x p IH]; intros s H.
  - now exists "", s.
  - destruct s as [|c s]; [discriminate|]. cbn in H.
    apply andb_true_iff in H as [_ H]. destruct (IH s H) as (a & b & -> & Hb).
    now exists (String c a), b.
Qed.

Lemma search_app (ic : bool) (p q : Js.pattern) (s : string) :
  Js.search ic (p ++ q)%list s = true -> Js.search ic q s = true.
Proof.
  rewrite !search_spec. intros (a & b & -> & H).
  destruct (matchHere_app _ _ _ _ H) as (a' & b' & -> & H').
  exists (a ++ a'), b'. now rewrite append_assoc.
Qed.

(** Two ways of cutting one string: one cut comes first. *)
Lemma append_eq_append (a x b y : string) :
  a ++ x = b ++ y ->
  (exists d, b = a ++ d /\ x = d ++ y) \/ (exists d, a = b ++ d /\ y = d ++ x).
Proof.
  revert b. induction a as [|c a IH]; intros b H.
  - left. now exists b.
  - destruct b as [|c' b].
    + right. now exists (String c a).
    + injection H as -> H. destruct (IH b H) as [(d & -> & ->) | (d & -> & ->)].
      * left. now exists d.
      * right. now exists d.
Qed.

Lemma rev_append_spec (s acc : string) : Js.rev_append s acc = Js.reverse s ++ acc.
Proof.
  unfold Js.reverse. revert acc. induction s as [|c s IH]; intros acc; cbn.
  - reflexivity.
  - rewrite IH, (IH (String c "")), append_assoc. reflexivity.
Qed.

Lemma reverse_cons (c : ascii) (s : string) :
  Js.reverse (String c s) = Js.reverse s ++ String c "".
Proof. unfold Js.reverse at 1. cbn. apply rev_append_spec. Qed.

Lemma reverse_app (a b : string) : Js.reverse (a ++ b) = Js.reverse b ++ Js.reverse a.
Proof.
  induction a as [|c a IH].
  - change (Js.reverse "") with "". now rewrite append_nil_r.
  - change (String c a ++ b) with (String c (a ++ b)).
    now rewrite !reverse_cons, IH, append_assoc.
Qed.

Lemma reverse_involutive (s : string) : Js.reverse (Js.reverse s) = s.
Proof.
  induction s as [|c s IH]; [reflexivity|].
  now rewrite reverse_cons, reverse_app, IH.
Qed.

(** The character [c] occurs in [s]. *)
Definition Occurs (c : ascii) (s : string) : Prop :=
  exists a b, s = a ++ String c b.

Lemma Occurs_reverse (c : ascii) (s : string) : Occurs c (Js.reverse s) <-> Occurs c s.
Proof.
  assert (H : forall t, Occurs c t -> Occurs c (Js.reverse t)).
  { intros t (a & b & ->). exists (Js.reverse b), (Js.reverse a).
    rewrite reverse_app, reverse_cons, append_assoc. reflexivity. }
  split; [|apply H]. intros Ho. apply H in Ho. now rewrite reverse_involutive in Ho.
Qed.

Lemma fromFirst_none (c : ascii) (s : string) :
  fromFirst c s = None <-> ~ Occurs c s.
Proof.
  induction s as [|b s IH]; cbn.
  - split; [|reflexivity]. intros _ (a & t & H). destruct a; discriminate.
  - destruct (Ascii.eqb b c) eqn:E.
    + apply Ascii.eqb_eq in E as ->. split; [discriminate|].
      intros H. exfalso. apply H. now exists "", s.
    + rewrite IH. apply Ascii.eqb_neq in E. split.
      * intros H (a & t & Heq). destruct a as [|x a].
        -- injection Heq as -> _. congruence.
        -- injection Heq as -> ->. apply H. now exists a, t.
      * intros H (a & t & ->). apply H. now exists (String b a), t.
Qed.

Lemma fromFirst_some (c : ascii) (s t : string) :
  fromFirst c s = Some t ->
  exists a t', s = a ++ t /\ t = String c t' /\ ~ Occurs c a.
Proof.
  revert t. induction s as [|b s IH]; intros t H; cbn in H; [discriminate|].
  destruct (Ascii.eqb b c) eqn:E.
  - apply Ascii.eqb_eq in E as ->. injection H as <-.
    exists "", s. repeat split. intros (a & x & Heq). destruct a; discriminate.
  - destruct (IH t H) as (a & t' & -> & -> & Hno). apply Ascii.eqb_neq in E.
    exists (String b a), t'. repeat split.
    intros (x & y & Heq). destruct x as [|x0 x].
    + injection Heq as -> _. congruence.
    + injection Heq as -> ->. apply Hno. now exists x, y.
Qed.

Lemma uptoLast_none (c : ascii) (s : string) :
  uptoLast c s = None <-> ~ Occurs c s.
Proof.
  unfold uptoLast. rewrite <- Occurs_reverse, <- fromFirst_none.
  destruct (fromFirst c (Js.reverse s)); cbn; split; congruence.
Qed.

Lemma uptoLast_some (c : ascii) (s t : string) :
  uptoLast c s = Some t -> exists t' b, s = t ++ b /\ t = t' ++ String c "".
Proof.
  unfold uptoLast. destruct (fromFirst c (Js.reverse s)) as [r|] eqn:E; [|discriminate].
  cbn. intros H. injection H as <-.
  destruct (fromFirst_some _ _ _ E) as (a & r' & Hs & -> & _).
  exists (Js.reverse r'), (Js.reverse a). split.
  - rewrite <- reverse_app, <- Hs. now rewrite reverse_involutive.
  - apply reverse_cons.
Qed.

(** What [/\[.*\]/s] matches: a piece of the text from an opening bracket
    to a closing bracket. *)
Lemma matchJsonArray_some (result jsonStr : string) :
  matchJsonArray result = Some jsonStr ->
  exists before inner after,
    result = before ++ jsonStr ++ after /\ jsonStr = "[" ++ inner ++ "]".
Proof.
  unfold matchJsonArray. destruct (fromFirst "[" result) as [t|] eqn:E; [|discriminate].
  intros H. destruct (fromFirst_some _ _ _ E) as (a & t' & -> & -> & _).
  destruct (uptoLast_some _ _ _ H) as (j' & b & Ht & ->).
  destruct j' as [|x j'].
  - cbn in Ht. discriminate.
  - cbn in Ht. injection Ht as <- Ht. exists a, j', b. split; [|reflexivity].
    cbn. now rewrite Ht.
Qed.

(** It matches nothing exactly when no closing bracket follows an opening
    bracket. *)
Lemma matchJsonArray_none (result : string) :
  matchJsonArray result = None <->
  ~ exists before inner after, result = before ++ "[" ++ inner ++ "]" ++ after.
Proof.
  split.
  - unfold matchJsonArray. intros H (a & b & c & Heq).
    destruct (fromFirst "[" result) as [t|] eqn:E.
    + destruct (fromFirst_some _ _ _ E) as (a0 & t' & Hr & -> & Hno).
      apply uptoLast_none in H. apply H. rewrite Hr in Heq.
      destruct (append_eq_append _ _ _ _ Heq) as [(d & -> & Hd) | (d & -> & Hd)].
      * exists (d ++ "[" ++ b), c. rewrite Hd. now rewrite !append_assoc.
      * destruct d as [|x d].
        -- cbn in Hd. injection Hd as <-. exists (String "[" b), c. reflexivity.
        -- exfalso. apply Hno. cbn in Hd. injection Hd as -> _. now exists a, d.
    + apply fromFirst_none in E. apply E. now exists a, (b ++ "]" ++ c).
  - intros H. destruct (matchJsonArray result) as [j|] eqn:E; [|reflexivity].
    exfalso. apply H. destruct (matchJsonArray_some _ _ E) as (a & b & c & -> & ->).
    exists a, b, c. now rewrite !append_assoc.
Qed.

End Strings.

(** ** The heuristic extraction ([extractFactsFallback]) *)

Section Fallback.

(** The three conditions, as the specification words them.  A text starts
    with, or contains, a lower-case word without regard to case when its
    lower-casing does. *)
Definition StartsWith (w s : string) : Prop :=
  exists rest, Js.toLowerCase s = w ++ rest.

Definition Contains (w s : string) : Prop :=
  exists before after, Js.toLowerCase s = before ++ w ++ after.

(** Four digits in a row. *)
Definition HasYear (s : string) : Prop :=
  exists before d1 d2 d3 d4 after,
    s = before ++ String d1 (String d2 (String d3 (String d4 after)))
    /\ Js.isDigit d1 = true /\ Js.isDigit d2 = true
    /\ Js.isDigit d3 = true /\ Js.isDigit d4 = true.

Definition interrogatives : list string := ["what"; "who"; "when"; "where"; "why"; "how"].

Definition hedges : list string :=
  ["think"; "feel"; "believe"; "opinion"; "seem"; "appear"; "likely"; "possibly";
   "maybe"; "perhaps"].

Definition signalWords : list string :=
  ["founded"; "created"; "established"; "launched"; "developed"; "built"; "designed";
   "is a"; "was born"; "located"; "headquartered"].

Definition Question (s : string) : Prop :=
  (exists before after, s = before ++ "?" ++ after)
  \/ exists w, In w interrogatives /\ StartsWith w s.

Definition Hedged (s : string) : Prop := exists w, In w hedges /\ Contains w s.

Definition FactSignal (s : string) : Prop :=
  HasYear s \/ exists w, In w signalWords /\ Contains w s.

Lemma search_word (w s : string) :
  Js.toLowerCase w = w ->
  Js.search true (Js.lit w) s = true <-> Contains w s.
Proof.
  intros Hw. rewrite search_lit, Hw, includes_spec. reflexivity.
Qed.

Lemma test_words (ws : list string) (s : string) :
  Forall (fun w => Js.toLowerCase w = w) ws ->
  Js.test true (map Js.lit ws) s = true <-> exists w, In w ws /\ Contains w s.
Proof.
  intros Hlow. unfold Js.test. rewrite existsb_exists. split.
  - intros (p & Hin & Hs). apply in_map_iff in Hin as (w & <- & Hin).
    exists w. split; [exact Hin|]. apply search_word; [|exact Hs].
    rewrite List.Forall_forall in Hlow. now apply Hlow.
  - intros (w & Hin & Hc). exists (Js.lit w). split; [now apply in_map|].
    apply search_word; [|exact Hc]. rewrite List.Forall_forall in Hlow. now apply Hlow.
Qed.

Lemma search_year (s : string) :
  Js.search true [Js.Dig; Js.Dig; Js.Dig; Js.Dig] s = true <-> HasYear s.
Proof.
  rewrite search_spec. split.
  - intros (a & b & -> & H).
    destruct b as [|d1 [|d2 [|d3 [|d4 b]]]]; cbn in H;
      rewrite ?andb_false_r in H; try discriminate.
    rewrite andb_true_r, !andb_true_iff in H. destruct H as (H1 & H2 & H3 & H4).
    now exists a, d1, d2, d3, d4, b.
  - intros (a & d1 & d2 & d3 & d4 & b & -> & H1 & H2 & H3 & H4).
    exists a, (String d1 (String d2 (String d3 (String d4 b)))).
    split; [reflexivity|]. cbn. now rewrite H1, H2, H3, H4.
Qed.

Lemma isQuestion_spec (s : string) : isQuestion s = true <-> Question s.
Proof.
  unfold isQuestion, Question. rewrite !orb_true_iff, includes_spec, !startsWith_spec.
  split.
  - intros [[[[[[H|H]|H]|H]|H]|H]|H]; [now left | right ..].
    + exists "what". split; [cbn; tauto | exact H].
    + exists "who". split; [cbn; tauto | exact H].
    + exists "when". split; [cbn; tauto | exact H].
    + exists "where". split; [cbn; tauto | exact H].
    + exists "why". split; [cbn; tauto | exact H].
    + exists "how". split; [cbn; tauto | exact H].
  - intros [H | (w & Hin & H)]; [tauto|].
    cbn in Hin. unfold StartsWith in H.
    destruct Hin as [<-|[<-|[<-|[<-|[<-|[<-|[]]]]]]]; tauto.
Qed.

Lemma hasOpinionWords_spec (s : string) : hasOpinionWords s = true <-> Hedged s.
Proof.
  unfold hasOpinionWords, Hedged. apply (test_words hedges).
  repeat constructor.
Qed.

Lemma hasFactSignals_spec (s : string) : hasFactSignals s = true <-> FactSignal s.
Proof.
  unfold hasFactSignals, FactSignal.
  change (Js.test true factSignals s)
    with (Js.search true (Js.lit "in " ++ [Js.Dig; Js.Dig; Js.Dig; Js.Dig])%list s
          || (Js.search true [Js.Dig; Js.Dig; Js.Dig; Js.Dig] s
              || Js.test true (map Js.lit signalWords) s)).
  rewrite !orb_true_iff, search_year.
  rewrite (test_words signalWords) by repeat constructor.
  split.
  - intros [H | [H | H]]; [left | now left | now right].
    apply search_year. exact (search_app _ _ _ _ H).
  - intros [H | H]; [right; now left | right; now right].
Qed.

(** C7.  The heuristic extraction keeps exactly the sentences of the input
    that are no question (no question mark, no interrogative at the start),
    hold no hedge or opinion marker and hold a fact signal, four digits in a
    row or one of the signal words.  A sentence that starts with
    [What is] or holds [I think] is never kept; a sentence that holds
    [founded in 1999] has a fact signal, and is kept when it is no question
    and is not hedged. *)
Theorem extractFactsFallback_spec :
  (forall content s,
     In s (extractFactsFallback content) <->
     In s (sentences content) /\ ~ Question s /\ ~ Hedged s /\ FactSignal s) /\
  (forall content rest, ~ In ("What is" ++ rest) (extractFactsFallback content)) /\
  (forall content before after,
     ~ In (before ++ "I think" ++ after) (extractFactsFallback content)) /\
  (forall content before after,
     let s := before ++ "founded in 1999" ++ after in
     FactSignal s /\
     (In s (sentences content) -> ~ Question s -> ~ Hedged s ->
      In s (extractFactsFallback content))) /\
  extractFactsFallback
    "What is AlfaFrens? I think it launched early. AlfaFrens was founded in 1999."
  = ["AlfaFrens was founded in 1999"].
Proof.
  assert (Hchar : forall content s,
     In s (extractFactsFallback content) <->
     In s (sentences content) /\ ~ Question s /\ ~ Hedged s /\ FactSignal s).
  { intros content s. unfold extractFactsFallback.
    rewrite filter_In, !andb_true_iff, !negb_true_iff.
    rewrite <- isQuestion_spec, <- hasOpinionWords_spec, <- hasFactSignals_spec.
    rewrite !not_true_iff_false. tauto. }
  assert (Hsignal : forall before after,
     FactSignal (before ++ "founded in 1999" ++ after)).
  { intros before after. right. exists "founded". split; [cbn; tauto|].
    exists (Js.toLowerCase before), (" in 1999" ++ Js.toLowerCase after).
    rewrite !toLowerCase_app. reflexivity. }
  split; [exact Hchar|]. split; [|split; [|split]].
  - intros content rest Hin. apply Hchar in Hin as (_ & Hq & _).
    apply Hq. right. exists "what". split; [cbn; tauto|].
    exists (" is" ++ Js.toLowerCase rest). rewrite toLowerCase_app. reflexivity.
  - intros content before after Hin. apply Hchar in Hin as (_ & _ & Hh & _).
    apply Hh. exists "think". split; [cbn; tauto|].
    exists (Js.toLowerCase before ++ "i "), (Js.toLowerCase after).
    rewrite !toLowerCase_app, append_assoc. reflexivity.
  - intros content before after s. split; [apply Hsignal|].
    intros Hin Hq Hh. apply Hchar. repeat split; try assumption. apply Hsignal.
  - vm_compute. reflexivity.
Qed.

End Fallback.

Lemma extractFactsFallback_witness :
  In "AlfaFrens was founded in 1999"
     (extractFactsFallback "Is it old? AlfaFrens was founded in 1999.").
Proof.
  pose proof extractFactsFallback_spec as (_ & _ & _ & H & _).
  apply (proj2 (H "Is it old? AlfaFrens was founded in 1999." "AlfaFrens was " "")).
  - vm_compute. auto.
  - rewrite <- isQuestion_spec. vm_compute. discriminate.
  - rewrite <- hasOpinionWords_spec. vm_compute. discriminate.
Defined.

(** ** The extraction of facts ([extractFacts]) *)

(** The strings of a parsed array that are not empty: the filter of
    [extractFacts] as the specification words it. *)
Fixpoint nonEmptyStrings (facts : list Json) : list string :=
  match facts with
  | [] => []
  | JString fact :: r =>
      if Js.nonEmpty fact then fact :: nonEmptyStrings r else nonEmptyStrings r
  | _ :: r => nonEmptyStrings r
  end.

(** A generator that answers with an array of one blank string, and a
    parser that reads this text. *)
Definition blankArrayText : string := "[" ++ Js.dquote ++ " " ++ Js.dquote ++ "]".

Definition blankScript : Scripted.Script Q :=
  Scripted.mkScript "agent" None (Returns [])
    (Returns (AlfaFrensSendMessageResponse.mk "success" "sent-1" "2025-01-01T00:00:00.000Z"))
    (fun _ => Settles 0 (inr blankArrayText))
    (fun text => if String.eqb text blankArrayText then Some (JArray [JString " "]) else None)
    (fun _ => []) (Returns tt).

Section Extraction.

Context {World N : Type} {num : JsNumber N} {rt : Runtime World N}.

(** The request [extractFacts] sends to the generator. *)
Definition extractFactsArgs (content : string) : GenerateTextArgs.t :=
  GenerateTextArgs.mk (extractFactsPrompt content) (Some SMALL) [] None.

(** What [extractFacts] comes to, by the answer of the generator. *)
Definition extractFactsResult (content : string) (answer : Promise string)
  : Outcome (list string) :=
  match answer with
  | Unsettled => Pending
  | Settles _ (inl _) => Returns (extractFactsFallback content)
  | Settles _ (inr result) =>
      match matchJsonArray result with
      | None => Returns (extractFactsFallback content)
      | Some jsonStr =>
          match JSON_parse jsonStr with
          | Some (JArray facts) => Returns (validFacts facts)
          | Some _ => Returns (extractFactsFallback content)
          | None => Returns (extractFactsFallback content)
          end
      end
  end.

Lemma extractFacts_run (content : string) (s : Sys World N) :
  extractFacts content s =
    (extractFactsResult content (fst (generateText (extractFactsArgs content) (world s))),
     mkSys (snd (generateText (extractFactsArgs content) (world s)))
           (calls s ++ [GenerateText (extractFactsArgs content)])).
Proof.
  unfold extractFacts, extractFactsResult. fold (extractFactsArgs content).
  unfold_async.
  destruct (generateText (extractFactsArgs content) (world s)) as [p w]. cbn.
  destruct p as [t [e|result]|]; cbn; try reflexivity.
  destruct (matchJsonArray result) as [jsonStr|]; [|reflexivity].
  destruct (JSON_parse jsonStr) as [[]|]; reflexivity.
Qed.

(** The entries [validFacts] keeps, and their order. *)
Lemma validFacts_spec (facts : list Json) :
  validFacts facts =
  flat_map (fun v => match v with
                     | JString fact => if Js.nonEmpty (Js.trim fact) then [fact] else []
                     | _ => []
                     end) facts.
Proof.
  induction facts as [|v facts IH]; [reflexivity|].
  destruct v; cbn [validFacts flat_map]; rewrite IH; try reflexivity.
  destruct (Js.nonEmpty (Js.trim s)); reflexivity.
Qed.

Lemma validFacts_In (facts : list Json) (fact : string) :
  In fact (validFacts facts) <-> In (JString fact) facts /\ Js.trim fact <> "".
Proof.
  induction facts as [|v facts IH]; cbn [validFacts In]; [tauto|].
  destruct v; try (rewrite IH; split; [tauto | intros [[H|H] Ht]; [discriminate | tauto]]).
  destruct (Js.nonEmpty (Js.trim s)) eqn:E; cbn [In]; rewrite IH.
  - split.
    + intros [-> | [H Ht]]; [|tauto]. split; [now left|].
      intros Hnil. rewrite Hnil in E. discriminate.
    + intros [[H|H] Ht]; [left; congruence | tauto].
  - split; [tauto|]. intros [[H|H] Ht]; [|tauto].
    injection H as ->. exfalso. apply Ht.
    destruct (Js.trim fact); [reflexivity | discriminate].
Qed.

(** C6, as amended.  [extractFacts] never throws.  When the generation
    fails, when its text holds no bracketed piece, when the piece does not
    parse, or parses to something that is no array, the result is the
    heuristic extraction of the input; when the piece parses to an array,
    the result is the strings of the array that are not blank (not empty
    once trimmed), in their order.  While the generation does not settle,
    neither does [extractFacts]. *)
Theorem extractFacts_total :
  forall (content : string) (s : Sys World N),
    let answer := fst (generateText (extractFactsArgs content) (world s)) in
    (forall e, fst (extractFacts content s) <> Throws e) /\
    (forall t e, answer = Settles t (inl e) ->
       fst (extractFacts content s) = Returns (extractFactsFallback content)) /\
    (forall t result, answer = Settles t (inr result) ->
       (~ (exists before inner after, result = before ++ "[" ++ inner ++ "]" ++ after) ->
        fst (extractFacts content s) = Returns (extractFactsFallback content)) /\
       (forall jsonStr, matchJsonArray result = Some jsonStr ->
          (JSON_parse jsonStr = None ->
           fst (extractFacts content s) = Returns (extractFactsFallback content)) /\
          (forall v, JSON_parse jsonStr = Some v -> (forall l, v <> JArray l) ->
           fst (extractFacts content s) = Returns (extractFactsFallback content)) /\
          (forall facts, JSON_parse jsonStr = Some (JArray facts) ->
           fst (extractFacts content s) = Returns (validFacts facts) /\
           forall fact, In fact (validFacts facts) <->
                        In (JString fact) facts /\ Js.trim fact <> ""))) /\
    (answer = Unsettled -> fst (extractFacts content s) = Pending).
Proof.
  intros content s answer. rewrite extractFacts_run. cbn [fst]. fold answer.
  split; [|split; [|split]].
  - intros e. unfold extractFactsResult.
    destruct answer as [t [e'|result]|]; try discriminate.
    destruct (matchJsonArray result) as [jsonStr|]; [|discriminate].
    destruct (JSON_parse jsonStr) as [[]|]; discriminate.
  - intros t e ->. reflexivity.
  - intros t result ->. cbn [extractFactsResult]. split.
    + intros Hno. apply matchJsonArray_none in Hno. now rewrite Hno.
    + intros jsonStr ->. split; [|split].
      * intros ->. reflexivity.
      * intros v -> Hv. destruct v; try reflexivity. now destruct (Hv l).
      * intros facts ->. split; [reflexivity | apply validFacts_In].
  - intros ->. reflexivity.
Qed.

End Extraction.

(** C6, as stated, fails: an array holding one blank string parses, and the
    result is empty, not the array filtered to its non-empty strings. *)
Lemma extractFacts_blank_counterexample :
  ~ (forall (World N : Type) (rt : Runtime World N)
            (content : string) (s : Sys World N) t result jsonStr facts,
       fst (generateText (extractFactsArgs content) (world s)) = Settles t (inr result) ->
       matchJsonArray result = Some jsonStr ->
       JSON_parse jsonStr = Some (JArray facts) ->
       fst (extractFacts content s) = Returns (nonEmptyStrings facts)).
Proof.
  intros H.
  specialize (H Z Q (Scripted.runtime blankScript) "Hello" (Scripted.fresh 0)
                0%Z blankArrayText blankArrayText [JString " "]
                eq_refl eq_refl eq_refl).
  vm_compute in H. discriminate.
Qed.

Lemma extractFacts_witness :
  fst (extractFacts (rt := Scripted.runtime blankScript) "Hello" (Scripted.fresh 0))
  = Returns [].
Proof.
  pose proof (@extractFacts_total Z Q (Scripted.runtime blankScript)
                "Hello" (Scripted.fresh 0)) as (_ & _ & H & _).
  destruct (H 0%Z blankArrayText eq_refl) as (_ & Hjson).
  destruct (Hjson blankArrayText eq_refl) as (_ & _ & Harray).
  exact (proj1 (Harray [JString " "] eq_refl)).
Defined.

(** ** The timeout of a generation ([generateLLMResponse], [generatePostContent]) *)

(** A generator that never answers. *)
Definition silentScript : Scripted.Script Q :=
  Scripted.mkScript "agent" None (Returns [])
    (Returns (AlfaFrensSendMessageResponse.mk "success" "sent-1" "2025-01-01T00:00:00.000Z"))
    (fun _ => Unsettled) (fun _ => None) (fun _ => []) (Returns tt).

Section Timeout.

Context {World N : Type} {rt : Runtime World N}.

(** The request [generateLLMResponse] sends to the generator. *)
Definition llmArgs (context : string) (modelClass : option ModelClass) : GenerateTextArgs.t :=
  GenerateTextArgs.mk context modelClass [Js.nl ++ Js.nl]
    (Some "You are a helpful assistant that responds as accurately as possible.").

(** The promise has not settled [ms] milliseconds after its creation. *)
Definition NotSettledWithin (ms : Z) (p : Promise string) : Prop :=
  match p with
  | Unsettled => True
  | Settles t _ => (ms < t)%Z
  end.

(** What the race against the timer comes to. *)
Definition raced (answer : Promise string) : Outcome string :=
  match answer with
  | Settles t (inr text) => if (30000 <? t)%Z then Throws timeoutMessage else Returns text
  | Settles t (inl e) => if (30000 <? t)%Z then Throws timeoutMessage else Throws e
  | Unsettled => Throws timeoutMessage
  end.

Lemma generateLLMResponse_run (context : string) (modelClass : option ModelClass)
    (traceId : string) (s : Sys World N) :
  generateLLMResponse context modelClass traceId s =
    (raced (fst (generateText (llmArgs context modelClass) (world s))),
     mkSys (snd (generateText (llmArgs context modelClass) (world s)))
           (calls s ++ [GenerateText (llmArgs context modelClass)])).
Proof.
  unfold generateLLMResponse. fold (llmArgs context modelClass). unfold_async.
  destruct (generateText (llmArgs context modelClass) (world s)) as [p w]. cbn.
  destruct p as [t [e|text]|]; cbn; try reflexivity;
    destruct (30000 <? t)%Z; reflexivity.
Qed.

Lemma raced_settles (answer : Promise string) : raced answer <> Pending.
Proof.
  destruct answer as [t [e|text]|]; cbn;
    [destruct (30000 <? t)%Z; discriminate .. | discriminate].
Qed.

Lemma raced_timeout (answer : Promise string) :
  NotSettledWithin 30000 answer -> raced answer = Throws timeoutMessage.
Proof.
  destruct answer as [t [e|text]|]; cbn; intros H; try reflexivity;
    apply Z.ltb_lt in H; now rewrite H.
Qed.

Lemma generatePostContent_run (template : string) (modelClass : option ModelClass)
    (context : string) (s : Sys World N) :
  processTemplate template None = Returns context ->
  generatePostContent template modelClass s =
    (match raced (fst (generateText (llmArgs context modelClass) (world s))) with
     | Returns content => Returns content
     | Throws _ => Returns postFallback
     | Pending => Pending
     end,
     mkSys (snd (generateText (llmArgs context modelClass) (world s)))
           (calls s ++ [GenerateText (llmArgs context modelClass)])).
Proof.
  intros Ht. unfold generatePostContent.
  unfold Async.bind at 1. unfold Async.settle. rewrite Ht.
  unfold Async.tryCatch, Async.bind. rewrite generateLLMResponse_run.
  destruct (raced _); reflexivity.
Qed.

(** C8.  A generation that has not settled 30000 ms after it was started
    makes [generateLLMResponse] throw the timeout error, whoever calls it;
    [generateLLMResponse] is never left pending; and [generatePostContent]
    then returns its fallback sentence instead of throwing. *)
Theorem generation_timeout :
  forall (template context : string) (modelClass : option ModelClass) (s : Sys World N),
    processTemplate template None = Returns context ->
    NotSettledWithin 30000 (fst (generateText (llmArgs context modelClass) (world s))) ->
    (forall traceId,
       fst (generateLLMResponse context modelClass traceId s)
       = Throws "LLM request timed out") /\
    (forall context' modelClass' traceId s',
       fst (generateLLMResponse context' modelClass' traceId s') <> Pending) /\
    fst (generatePostContent template modelClass s)
    = Returns "I'm sorry, I couldn't generate a post at this time.".
Proof.
  intros template context modelClass s Ht Hlate. split; [|split].
  - intros traceId. rewrite generateLLMResponse_run. cbn [fst].
    now apply raced_timeout.
  - intros context' modelClass' traceId s'. rewrite generateLLMResponse_run. cbn [fst].
    destruct (fst (generateText (llmArgs context' modelClass') (world s')))
      as [t [e|text]|]; cbn;
      [destruct (30000 <? t)%Z; discriminate .. | discriminate].
  - rewrite (generatePostContent_run _ _ _ _ Ht). cbn [fst].
    now rewrite (raced_timeout _ Hlate).
Qed.

End Timeout.

Lemma generation_timeout_witness :
  fst (generatePostContent (rt := Scripted.runtime silentScript)
         DEFAULT_POST_TEMPLATE (Some SMALL) (Scripted.fresh 0))
  = Returns "I'm sorry, I couldn't generate a post at this time.".
Proof.
  apply (@generation_timeout Z Q (Scripted.runtime silentScript)
           DEFAULT_POST_TEMPLATE (DEFAULT_POST_TEMPLATE ++ "") (Some SMALL) (Scripted.fresh 0)).
  - reflexivity.
  - exact I.
Defined.

(** ** The default of [since] ([AlfaFrensApi.getMessages]) *)

Section Since.

Import AlfaFrensApi.
Context {World N : Type} {rt : Runtime World N}.

(** The [until] parameter, lines 64-66. *)
Definition untilParameter (options : Options.t) : string :=
  if truthy (Options.until options)
  then "&until=" ++ showMillis (default NaN (Options.until options))
  else "".

Lemma getMessages_run (options : Options.t) (s : Sys World N) :
  getMessages options s =
    if truthy (Options.since options)
    then
      let url := "/api/ai/getChannelMessages?since="
                   ++ showMillis (default NaN (Options.since options))
                   ++ untilParameter options ++ includeParameter options in
      (fst (httpGet url (world s)),
       mkSys (snd (httpGet url (world s))) (calls s ++ [HttpGet url]))
    else
      let (now, w) := Date_now (world s) in
      let url := "/api/ai/getChannelMessages?since=" ++ showZ (now - 3600000)
                   ++ untilParameter options ++ includeParameter options in
      (fst (httpGet url w),
       mkSys (snd (httpGet url w)) (calls s ++ [DateNow; HttpGet url])).
Proof.
  assert (Hurl : forall since : string,
    (if truthy (Options.until options)
     then ("/api/ai/getChannelMessages?since=" ++ since) ++ "&until="
            ++ showMillis (default NaN (Options.until options))
     else "/api/ai/getChannelMessages?since=" ++ since) ++ includeParameter options
    = "/api/ai/getChannelMessages?since=" ++ since
        ++ untilParameter options ++ includeParameter options).
  { intros since. unfold untilParameter. destruct (truthy (Options.until options)).
    - now rewrite !append_assoc.
    - now rewrite append_assoc. }
  unfold getMessages, fetchGet. rewrite tryCatch_rethrow.
  destruct (truthy (Options.since options)).
  - rewrite bind_ret_l, bind_ret_r, Hurl. apply call_run.
  - unfold Async.bind at 1. unfold Async.bind at 1. rewrite perform_run.
    destruct (Date_now (world s)) as [now w]. cbn [fst snd].
    unfold ret at 1. rewrite bind_ret_r, Hurl, call_run. cbn [world calls].
    now rewrite <- app_assoc.
Qed.

(** C10.  When [since] is absent, or is 0, [getMessages] reads the clock
    and asks for the messages since one hour (3600000 ms) before; a caller
    that passes 0 gets the last hour, not the whole history.  Any other
    number is sent as it is, without a reading of the clock. *)
Theorem getMessages_default_since :
  forall (options : Options.t) (s : Sys World N),
    (Options.since options = None \/ Options.since options = Some (Ms 0) ->
     calls (snd (getMessages options s)) =
       (calls s ++
        [DateNow;
         HttpGet ("/api/ai/getChannelMessages?since="
                    ++ showZ (fst (Date_now (world s)) - 3600000)
                    ++ untilParameter options ++ includeParameter options)])%list) /\
    (forall t, Options.since options = Some (Ms t) -> t <> 0%Z ->
     calls (snd (getMessages options s)) =
       (calls s ++
        [HttpGet ("/api/ai/getChannelMessages?since=" ++ showZ t
                    ++ untilParameter options ++ includeParameter options)])%list).
Proof.
  intros options s. rewrite getMessages_run. split.
  - intros H. assert (Hf : truthy (Options.since options) = false).
    { destruct H as [-> | ->]; reflexivity. }
    rewrite Hf. destruct (Date_now (world s)) as [now w]. reflexivity.
  - intros t Hs Ht. rewrite Hs. cbn [truthy].
    apply Z.eqb_neq in Ht. rewrite Ht. reflexivity.
Qed.

End Since.

Lemma getMessages_default_since_witness :
  calls (snd (AlfaFrensApi.getMessages (rt := Scripted.runtime (N := Q) Scripted.quiet)
                (AlfaFrensApi.Options.mk (Some (Ms 0)) None false false)
                (Scripted.fresh 1700000000000)))
  = [DateNow; HttpGet "/api/ai/getChannelMessages?since=1699996400000"].
Proof.
  apply (proj1 (@getMessages_default_since Z Q (Scripted.runtime Scripted.quiet)
                  (AlfaFrensApi.Options.mk (Some (Ms 0)) None false false)
                  (Scripted.fresh 1700000000000))).
  right. reflexivity.
Defined.

(** ** The calls a piece of code adds *)

Section Frames.

Context {World N : Type}.

Lemma bind_inv_returns {S A B} (m : M S A) (k : A -> M S B) s b s' :
  Async.bind m k s = (Returns b, s') ->
  exists a s1, m s = (Returns a, s1) /\ k a s1 = (Returns b, s').
Proof.
  unfold Async.bind. destruct (m s) as [[a|e|] s1]; try discriminate.
  intros H. now exists a, s1.
Qed.

(** Every call [m] makes satisfies [P]. *)
Definition Adds {A} (P : Call N -> Prop) (m : M (Sys World N) A) : Prop :=
  forall s, exists new, calls (snd (m s)) = (calls s ++ new)%list /\ Forall P new.

Lemma Adds_nothing {A} (P : Call N -> Prop) (m : M (Sys World N) A) :
  (forall s, snd (m s) = s) -> Adds P m.
Proof.
  intros H s. exists []. rewrite H, app_nil_r. split; [reflexivity | constructor].
Qed.

Lemma Adds_ret {A} (P : Call N -> Prop) (a : A) : Adds P (ret a).
Proof. now apply Adds_nothing. Qed.

Lemma Adds_throw {A} (P : Call N -> Prop) e : Adds P (throw (A := A) e).
Proof. now apply Adds_nothing. Qed.

Lemma Adds_settle {A} (P : Call N -> Prop) (o : Outcome A) : Adds P (settle o).
Proof. now apply Adds_nothing. Qed.

Lemma Adds_await {A} (P : Call N -> Prop) (p : Promise A) : Adds P (await p).
Proof.
  apply Adds_nothing. intros s. unfold await. destruct p as [t [e|a]|]; reflexivity.
Qed.

Lemma Adds_perform {A} (P : Call N -> Prop) (c : Call N) (op : World -> A * World) :
  P c -> Adds P (perform c op).
Proof.
  intros Hc s. exists [c]. rewrite perform_run. split; [reflexivity | now repeat constructor].
Qed.

Lemma Adds_call {A} (P : Call N -> Prop) (c : Call N) (op : World -> Outcome A * World) :
  P c -> Adds P (call c op).
Proof.
  intros Hc s. exists [c]. rewrite call_run. split; [reflexivity | now repeat constructor].
Qed.

Lemma Adds_bind {A B} (P : Call N -> Prop) (m : M (Sys World N) A)
    (k : A -> M (Sys World N) B) :
  Adds P m -> (forall a, Adds P (k a)) -> Adds P (Async.bind m k).
Proof.
  intros Hm Hk s. destruct (Hm s) as (n1 & E1 & F1). unfold Async.bind.
  destruct (m s) as [[a|e|] s1]; cbn [snd] in *; try (now exists n1).
  destruct (Hk a s1) as (n2 & E2 & F2). exists (n1 ++ n2)%list.
  rewrite E2, E1, app_assoc. split; [reflexivity | now apply Forall_app].
Qed.

Lemma Adds_tryCatch {A} (P : Call N -> Prop) (m : M (Sys World N) A)
    (h : JsError -> M (Sys World N) A) :
  Adds P m -> (forall e, Adds P (h e)) -> Adds P (Async.tryCatch m h).
Proof.
  intros Hm Hh s. destruct (Hm s) as (n1 & E1 & F1). unfold Async.tryCatch.
  destruct (m s) as [[a|e|] s1]; cbn [snd] in *; try (now exists n1).
  destruct (Hh e s1) as (n2 & E2 & F2). exists (n1 ++ n2)%list.
  rewrite E2, E1, app_assoc. split; [reflexivity | now apply Forall_app].
Qed.

Lemma Adds_forEach {A} (P : Call N -> Prop) (l : list A)
    (body : A -> M (Sys World N) unit) :
  (forall x, Adds P (body x)) -> Adds P (forEach l body).
Proof.
  intros Hb. induction l as [|x l IH]; cbn [forEach].
  - apply Adds_ret.
  - apply Adds_bind; [apply Hb | intros _; exact IH].
Qed.

(** Any call but a write to the memory store. *)
Definition NotStore (c : Call N) : Prop :=
  match c with
  | CreateMemory _ => False
  | _ => True
  end.

End Frames.

Ltac adds_step :=
  first
    [ apply Adds_ret | apply Adds_throw | apply Adds_settle | apply Adds_await
    | apply Adds_perform; exact I | apply Adds_call; exact I
    | apply Adds_bind; [|intros ?] | apply Adds_tryCatch; [|intros ?] ].

(** ** Generation, then validation ([generateResponse]) *)

Section Correction.

Context {World N : Type} {num : JsNumber N} {rt : Runtime World N}.

(** A validated fact is flagged when it has contradictions or a confidence
    below 0.7. *)
Definition Flagged (r : FactResult.t N) : Prop :=
  FactResult.contradictions r <> [] \/ ltb (FactResult.confidence r) (lit 0.7) = true.

Lemma needsCorrection_spec (r : FactResult.t N) :
  needsCorrection r = true <-> Flagged r.
Proof.
  unfold needsCorrection, Flagged. rewrite orb_true_iff. split.
  - intros [H|H]; [left | right; exact H].
    destruct (FactResult.contradictions r); [discriminate H | discriminate].
  - intros [H|H]; [left | right; exact H].
    destruct (FactResult.contradictions r); [congruence | reflexivity].
Qed.

Lemma existsb_needsCorrection (results : list (FactResult.t N)) :
  existsb needsCorrection results = true <-> Exists Flagged results.
Proof.
  rewrite existsb_exists, List.Exists_exists.
  split; intros (r & Hin & H); exists r; (split; [exact Hin | now apply needsCorrection_spec]).
Qed.

Lemma existsb_snoc {A} (f : A -> bool) (l : list A) (x : A) :
  existsb f (l ++ [x]) = existsb f l || f x.
Proof. rewrite existsb_app. cbn. now rewrite orb_false_r. Qed.

(** The loop returns one result per fact, in order, and raises its flag
    when one of them needs a correction. *)
Lemma validateFacts_returns (facts : list string) (m : AlfaFrensMessage.t)
    (flag0 : bool) (results0 : list (FactResult.t N)) (s s' : Sys World N)
    (flag : bool) (results : list (FactResult.t N)) :
  validateFacts facts m flag0 results0 s = (Returns (flag, results), s') ->
  exists new,
    results = (results0 ++ new)%list /\ map FactResult.fact new = facts
    /\ flag = flag0 || existsb needsCorrection new.
Proof.
  revert flag0 results0 s. induction facts as [|fact facts IH]; intros flag0 results0 s H.
  - cbn in H. injection H as <- <- <-. exists []. now rewrite app_nil_r, orb_false_r.
  - cbn [validateFacts] in H. apply bind_inv_returns in H as (v & s1 & _ & H).
    apply IH in H as (new & -> & Hfacts & ->).
    exists (FactResult.mk fact (FactValidation.confidence v)
              (FactValidation.contradictions v) :: new).
    rewrite <- app_assoc. cbn. now rewrite Hfacts, orb_assoc.
Qed.

(** What [validateDraft] returns when facts were extracted. *)
Lemma validateDraft_returns (rawResponse : string) (s s' : Sys World N)
    (flag : bool) (results : list (FactResult.t N)) :
  validateDraft rawResponse s = (Returns (Some (flag, results)), s') ->
  results <> [] /\ flag = existsb needsCorrection results
  /\ exists s1, extractFacts rawResponse s = (Returns (map FactResult.fact results), s1).
Proof.
  unfold validateDraft. intros H.
  apply bind_inv_returns in H as (facts & s1 & Hfacts & H).
  destruct facts as [|fact facts]; [discriminate|]. cbn [List.length Nat.eqb] in H.
  apply bind_inv_returns in H as (t1 & s2 & _ & H).
  apply bind_inv_returns in H as (t2 & s3 & _ & H).
  apply bind_inv_returns in H as ([f r] & s4 & Hv & H).
  injection H as -> -> ->.
  apply validateFacts_returns in Hv as (new & -> & Hnew & ->). cbn [app orb].
  repeat split.
  - intros ->. discriminate.
  - exists s1. now rewrite Hnew.
Qed.

Lemma extractFacts_adds (content : string) :
  Adds (World := World) NotStore (extractFacts content).
Proof.
  intros s. exists [GenerateText (extractFactsArgs content)].
  rewrite extractFacts_run. split; [reflexivity | now repeat constructor].
Qed.

Lemma validateFact_adds (fact : string) (m : AlfaFrensMessage.t) :
  Adds (World := World) NotStore (validateFact fact m).
Proof. unfold validateFact. repeat adds_step. Qed.

Lemma validateFacts_adds (facts : list string) (m : AlfaFrensMessage.t)
    (flag0 : bool) (results0 : list (FactResult.t N)) :
  Adds (World := World) NotStore (validateFacts facts m flag0 results0).
Proof.
  revert flag0 results0. induction facts as [|fact facts IH]; intros flag0 results0;
    cbn [validateFacts].
  - apply Adds_ret.
  - apply Adds_bind; [apply validateFact_adds | intros v; apply IH].
Qed.

Lemma validateDraft_adds (rawResponse : string) :
  Adds (World := World) NotStore (validateDraft rawResponse).
Proof.
  unfold validateDraft. apply Adds_bind; [apply extractFacts_adds | intros facts].
  destruct (List.length facts =? 0)%nat; [apply Adds_ret|].
  repeat adds_step. apply validateFacts_adds.
Qed.

Lemma generateLLMResponse_adds (context : string) (modelClass : option ModelClass)
    (traceId : string) :
  Adds (World := World) (N := N) NotStore (generateLLMResponse context modelClass traceId).
Proof.
  intros s. exists [GenerateText (llmArgs context modelClass)].
  rewrite generateLLMResponse_run. split; [reflexivity | now repeat constructor].
Qed.

Lemma draftResponse_adds (message : string) (history : list AlfaFrensMessage.t)
    (template : string) (modelClass : option ModelClass) :
  Adds (World := World) (N := N) NotStore (draftResponse message history template modelClass).
Proof.
  unfold draftResponse. apply Adds_bind.
  { unfold searchWeb. apply Adds_tryCatch; [|intros e; apply Adds_ret].
    destruct webSearchService; [|apply Adds_ret].
    apply Adds_bind; [apply Adds_call; exact I | intros [found|]; [|apply Adds_ret]].
    destruct (0 <? _)%nat; apply Adds_ret. }
  intros web. apply Adds_bind.
  { unfold relevantKnowledge, AlfaFrensClient.searchKnowledge.
    apply Adds_tryCatch; [|intros e; apply Adds_ret].
    apply Adds_bind; [repeat adds_step | intros results].
    destruct (0 <? _)%nat; apply Adds_ret. }
  intros knowledge. apply Adds_bind; [apply Adds_settle | intros prompt].
  apply Adds_bind; [apply generateLLMResponse_adds | intros raw; apply Adds_ret].
Qed.

(** The request of the regeneration. *)
Definition regeneration (prompt : string) (results : list (FactResult.t N))
    (modelClass : option ModelClass) : GenerateTextArgs.t :=
  llmArgs (revisedPrompt prompt results) (Some (default MEDIUM modelClass)).

(** C5.  Let the draft of a response be generated from [prompt], and let
    the validation of its extracted facts flag at least one of them
    (contradictions, or a confidence below 0.7).  Then [generateResponse]
    makes exactly one more call, a generation whose context is the prompt
    followed by the correction context, one line per flagged fact giving its
    contradictions or else its confidence to two decimals; the text of that
    generation is returned as it is (the draft, if the generation fails);
    and from its start to its end the call writes nothing to the memory
    store. *)
Theorem generateResponse_correction :
  forall (message : string) (history : list AlfaFrensMessage.t) (template : string)
         (modelClass : option ModelClass) (s s1 s2 : Sys World N)
         (prompt rawResponse : string) (flag : bool) (results : list (FactResult.t N)),
    draftResponse message history template modelClass s
      = (Returns (prompt, rawResponse), s1) ->
    validateDraft rawResponse s1 = (Returns (Some (flag, results)), s2) ->
    Exists Flagged results ->
    let answer := generateText (regeneration prompt results modelClass) (world s2) in
    generateResponse message history template modelClass s
      = (match raced (fst answer) with
         | Returns correctedResponse => Returns correctedResponse
         | _ => Returns rawResponse
         end,
         mkSys (snd answer)
               (calls s2 ++ [GenerateText (regeneration prompt results modelClass)]))
    /\ GenerateTextArgs.context (regeneration prompt results modelClass)
       = prompt ++ Js.nl ++ Js.nl
           ++ "Your initial response contains factual issues that need correction:"
           ++ Js.nl
           ++ Js.join Js.nl (map correctionLine (List.filter needsCorrection results))
           ++ Js.nl ++ Js.nl ++ "Revised response:"
    /\ (forall r, needsCorrection r = true <-> Flagged r)
    /\ (forall r,
          correctionLine r =
          "CORRECTION: " ++ Js.dquote ++ FactResult.fact r ++ Js.dquote
            ++ (if (0 <? List.length (FactResult.contradictions r))%nat
                then " contradicts known facts: "
                       ++ Js.join ", " (FactResult.contradictions r)
                else " has low confidence ("
                       ++ toFixed2 (FactResult.confidence r) ++ ")"))
    /\ exists new,
         calls (snd (generateResponse message history template modelClass s))
           = (calls s ++ new)%list
         /\ Forall NotStore new.
Proof.
  intros message history template modelClass s s1 s2 prompt rawResponse flag results
         Hdraft Hcheck Hflag answer.
  assert (Hrun : generateResponse message history template modelClass s
      = (match raced (fst answer) with
         | Returns correctedResponse => Returns correctedResponse
         | _ => Returns rawResponse
         end,
         mkSys (snd answer)
               (calls s2 ++ [GenerateText (regeneration prompt results modelClass)]))).
  { unfold generateResponse. rewrite (bind_returns _ _ _ _ _ Hdraft).
    destruct (validateDraft_returns _ _ _ _ _ Hcheck) as (_ & Hf & _).
    apply existsb_needsCorrection in Hflag. rewrite Hflag in Hf. subst flag.
    unfold validateResponse. unfold Async.bind at 1. unfold Async.tryCatch.
    rewrite (bind_returns _ _ _ _ _ Hcheck). cbn iota beta.
    unfold Async.bind at 1. rewrite generateLLMResponse_run.
    fold (regeneration prompt results modelClass). fold answer.
    pose proof (raced_settles (fst answer)) as Hsettles.
    destruct (raced (fst answer)); [reflexivity | reflexivity | congruence]. }
  split; [exact Hrun|]. split; [reflexivity|]. split; [apply needsCorrection_spec|].
  split.
  - intros r. unfold correctionLine.
    destruct (0 <? List.length (FactResult.contradictions r))%nat; reflexivity.
  - rewrite Hrun. cbn [snd calls].
    destruct (draftResponse_adds message history template modelClass s) as (n1 & E1 & F1).
    destruct (validateDraft_adds rawResponse s1) as (n2 & E2 & F2).
    rewrite Hdraft in E1. rewrite Hcheck in E2. cbn [snd] in E1, E2.
    exists (n1 ++ n2 ++ [GenerateText (regeneration prompt results modelClass)])%list.
    split.
    + rewrite E2, E1, !app_assoc. reflexivity.
    + apply Forall_app. split; [exact F1|]. apply Forall_app. split; [exact F2|].
      now repeat constructor.
Qed.

End Correction.

(** A generator whose draft holds a fact that the store contradicts: the
    draft says Texas, the extraction returns the fact as a JSON array, and
    the regeneration says France. *)
Definition texasFacts : string :=
  "[" ++ Js.dquote ++ "Paris is the capital of Texas" ++ Js.dquote ++ "]".

Definition texasScript : Scripted.Script Q :=
  Scripted.mkScript "agent" None (Returns [])
    (Returns (AlfaFrensSendMessageResponse.mk "success" "sent-1" "2025-01-01T00:00:00.000Z"))
    (fun context =>
       if Js.startsWith "Extract factual statements" context
       then Settles 5 (inr texasFacts)
       else if Js.includes "Revised response:" context
       then Settles 9 (inr "Paris is the capital of France.")
       else Settles 7 (inr "Paris is the capital of Texas."))
    (fun text =>
       if String.eqb text texasFacts
       then Some (JArray [JString "Paris is the capital of Texas"])
       else None)
    (fun fact => [Contradiction.mk fact "Paris is the capital of France" 0.9%Q 0%Z])
    (Returns tt).

Lemma generateResponse_correction_witness :
  fst (generateResponse (rt := Scripted.runtime texasScript)
         "Where is Paris?" [] "Answer: " None (Scripted.fresh 0))
  = Returns "Paris is the capital of France.".
Proof.
  edestruct (@generateResponse_correction Z Q _ (Scripted.runtime texasScript)
               "Where is Paris?" [] "Answer: " None (Scripted.fresh 0)) as (Hrun & _).
  - lazy. reflexivity.
  - lazy. reflexivity.
  - apply Exists_cons_hd. left. discriminate.
  - rewrite Hrun. vm_compute. reflexivity.
Defined.

(** The line of a fact of low confidence, in both models of numbers. *)
Example correctionLine_low_confidence :
  correctionLine (N := Q) (FactResult.mk "Paris is the capital of France" 0.5%Q [])
  = "CORRECTION: " ++ Js.dquote ++ "Paris is the capital of France" ++ Js.dquote
      ++ " has low confidence (0.50)"
  /\ correctionLine (N := float)
       (FactResult.mk "Paris is the capital of France" 0.5%float [])
     = "CORRECTION: " ++ Js.dquote ++ "Paris is the capital of France" ++ Js.dquote
         ++ " has low confidence (0.50)".
Proof. split; vm_compute; reflexivity. Qed.

(** ** The poll loop ([AlfaFrensAIInteraction]) *)

#[export] Instance AlfaFrensMessage_eq_dec : EqDecision AlfaFrensMessage.t.
Proof. solve_decision. Defined.

Section Loop.

Import AlfaFrensAIInteraction.

Context {World N : Type} {num : JsNumber N} {rt : Runtime World N}.
Variable config : AlfaFrensConfig.t.
Variable options : Options.t.

Abbreviation St := (State World N).

(** The message a call of the loop is about. *)
Definition subject (e : Step) : option AlfaFrensMessage.t :=
  match e with
  | Fetch _ => None
  | Evaluate m => Some m
  | Respond m => Some m
  | Reply m _ => Some m
  end.

(** From [s] to [s']: the set of sent ids has grown, the checkpoint, the
    running flag and the history are the same, and the calls made in
    between satisfy [P]. *)
Definition Evolves (P : Step -> Prop) (s s' : St) : Prop :=
  sentMessageIds s ⊆ sentMessageIds s'
  /\ lastProcessedTime s' = lastProcessedTime s
  /\ isRunning s' = isRunning s
  /\ messageHistory s' = messageHistory s
  /\ exists new, steps s' = (steps s ++ new)%list /\ Forall P new.

Lemma Evolves_refl (P : Step -> Prop) (s : St) : Evolves P s s.
Proof.
  repeat split; try reflexivity. exists []. now rewrite app_nil_r.
Qed.

Lemma Evolves_trans (P : Step -> Prop) (s1 s2 s3 : St) :
  Evolves P s1 s2 -> Evolves P s2 s3 -> Evolves P s1 s3.
Proof.
  intros (A1 & B1 & C1 & D1 & n1 & E1 & F1) (A2 & B2 & C2 & D2 & n2 & E2 & F2).
  repeat split; try congruence.
  - set_solver.
  - exists (n1 ++ n2)%list. rewrite E2, E1, app_assoc.
    split; [reflexivity | now apply Forall_app].
Qed.

Lemma Evolves_weaken (P Q : Step -> Prop) (s s' : St) :
  (forall e, P e -> Q e) -> Evolves P s s' -> Evolves Q s s'.
Proof.
  intros H (A & B & C & D & n & E & F). repeat split; try assumption.
  exists n. split; [exact E | exact (List.Forall_impl _ H F)].
Qed.

(** Code that makes the state evolve so, wherever it starts. *)
Definition Keeps {A} (P : Step -> Prop) (m : M St A) : Prop :=
  forall s, Evolves P s (snd (m s)).

Lemma Keeps_ret {A} (P : Step -> Prop) (a : A) : Keeps P (ret a).
Proof. intros s. apply Evolves_refl. Qed.

Lemma Keeps_throw {A} (P : Step -> Prop) e : Keeps P (throw (A := A) e).
Proof. intros s. apply Evolves_refl. Qed.

Lemma Keeps_get (P : Step -> Prop) : Keeps P (get (S := St)).
Proof. intros s. apply Evolves_refl. Qed.

Lemma Keeps_bind {A B} (P : Step -> Prop) (m : M St A) (k : A -> M St B) :
  Keeps P m -> (forall a, Keeps P (k a)) -> Keeps P (Async.bind m k).
Proof.
  intros Hm Hk s. specialize (Hm s). unfold Async.bind.
  destruct (m s) as [[a|e|] s1]; cbn [snd] in *; try exact Hm.
  exact (Evolves_trans _ _ _ _ Hm (Hk a s1)).
Qed.

Lemma Keeps_tryCatch {A} (P : Step -> Prop) (m : M St A) (h : JsError -> M St A) :
  Keeps P m -> (forall e, Keeps P (h e)) -> Keeps P (Async.tryCatch m h).
Proof.
  intros Hm Hh s. specialize (Hm s). unfold Async.tryCatch.
  destruct (m s) as [[a|e|] s1]; cbn [snd] in *; try exact Hm.
  exact (Evolves_trans _ _ _ _ Hm (Hh e s1)).
Qed.

Lemma Keeps_forEach {A} (P : Step -> Prop) (l : list A) (body : A -> M St unit) :
  (forall x, Keeps P (body x)) -> Keeps P (forEach l body).
Proof.
  intros Hb. induction l as [|x l IH]; cbn [forEach].
  - apply Keeps_ret.
  - apply Keeps_bind; [apply Hb | intros _; exact IH].
Qed.

Lemma Keeps_helper {A} (P : Step -> Prop) (m : M (Sys World N) A) : Keeps P (helper m).
Proof.
  intros s. unfold helper, Async.lift. destruct (m (sys s)) as [r t]. cbn.
  repeat split; try reflexivity. exists []. now rewrite app_nil_r.
Qed.

Lemma Keeps_step (P : Step -> Prop) (e : Step) : P e -> Keeps P (step e).
Proof.
  intros He s. cbn. repeat split; try reflexivity. exists [e].
  split; [reflexivity | now repeat constructor].
Qed.

Lemma Keeps_trackSent (P : Step -> Prop) (result : list (Memory.t N * AlfaFrensMessage.t)) :
  Keeps P (trackSent result).
Proof.
  intros s. unfold trackSent. destruct result as [|[memory sent] rest]; [apply Evolves_refl|].
  destruct (Js.nonEmpty (AlfaFrensMessage.id sent)); [|apply Evolves_refl].
  cbn. repeat split; try reflexivity; [set_solver|].
  exists []. now rewrite app_nil_r.
Qed.

(** The three tests by which [processMessageBatch] skips a message. *)
Definition skips (s : St) (message : AlfaFrensMessage.t) : bool :=
  bool_decide (AlfaFrensMessage.id message ∈ sentMessageIds s)
  || String.eqb (AlfaFrensMessage.senderId message) (AlfaFrensConfig.userId config)
  || (Js.nonEmpty (Js.removeFirst "@" (AlfaFrensMessage.senderUsername message))
      && Js.nonEmpty (Js.removeFirst "@" (AlfaFrensConfig.username config))
      && String.eqb (Js.removeFirst "@" (AlfaFrensMessage.senderUsername message))
                    (Js.removeFirst "@" (AlfaFrensConfig.username config))).

Lemma orElse_empty (x : string) : Js.orElse (Some x) "" = x.
Proof. unfold Js.orElse, Js.nonEmpty. destruct x; reflexivity. Qed.

(** A skipped message leaves no trace. *)
Lemma processMessage_skips (message : AlfaFrensMessage.t) (s : St) :
  skips s message = true -> processMessage config options message s = (Returns tt, s).
Proof.
  unfold skips, processMessage. intros H.
  unfold Async.bind at 1. unfold get at 1. cbn iota beta.
  rewrite !orElse_empty.
  destruct (bool_decide _); [reflexivity|].
  destruct (String.eqb _ _); [reflexivity|].
  cbn [orb] in H. rewrite H. reflexivity.
Qed.

(** The calls made for a message are about this message. *)
Lemma processMessage_keeps (message : AlfaFrensMessage.t) :
  Keeps (fun e => subject e = Some message) (processMessage config options message).
Proof.
  unfold processMessage. apply Keeps_bind; [apply Keeps_get | intros s0].
  destruct (bool_decide _); [apply Keeps_ret|].
  destruct (String.eqb _ _); [apply Keeps_ret|].
  destruct (_ && _); [apply Keeps_ret|].
  apply Keeps_bind.
  { apply Keeps_tryCatch; [apply Keeps_helper | intros e; apply Keeps_ret]. }
  intros _. apply Keeps_tryCatch; [|intros e; apply Keeps_ret].
  apply Keeps_bind; [now apply Keeps_step | intros _].
  apply Keeps_bind; [apply Keeps_helper | intros shouldRespond].
  destruct (negb shouldRespond); [apply Keeps_ret|].
  apply Keeps_bind; [apply Keeps_get | intros s1].
  apply Keeps_bind; [now apply Keeps_step | intros _].
  apply Keeps_bind; [apply Keeps_helper | intros response].
  apply Keeps_tryCatch; [|intros e; apply Keeps_ret].
  apply Keeps_bind; [now apply Keeps_step | intros _].
  apply Keeps_bind; [apply Keeps_helper | intros result].
  apply Keeps_trackSent.
Qed.

Lemma skips_mono (s s' : St) (message : AlfaFrensMessage.t) :
  sentMessageIds s ⊆ sentMessageIds s' -> skips s message = true -> skips s' message = true.
Proof.
  unfold skips. intros Hsub H.
  apply orb_true_iff in H as [H|H]; [|now rewrite H, orb_true_r].
  apply orb_true_iff in H as [H|H]; [|now rewrite H, orb_true_r].
  apply bool_decide_eq_true in H.
  rewrite (bool_decide_eq_true_2 _ (Hsub _ H)). reflexivity.
Qed.

(** A batch makes no call about a message it skips. *)
Lemma processMessageBatch_skips (message : AlfaFrensMessage.t)
    (batch : list AlfaFrensMessage.t) (s : St) :
  skips s message = true ->
  Evolves (fun e => subject e <> Some message) s
          (snd (processMessageBatch config options batch s)).
Proof.
  unfold processMessageBatch. revert s.
  induction batch as [|m batch IH]; intros s Hskip; cbn [forEach].
  - apply Evolves_refl.
  - destruct (decide (m = message)) as [->|Hne].
    + rewrite (bind_returns _ _ _ _ _ (processMessage_skips _ _ Hskip)). now apply IH.
    + assert (Hother : forall e, subject e = Some m -> subject e <> Some message)
        by (intros e H1 H2; congruence).
      pose proof (Evolves_weaken _ _ _ _ Hother (processMessage_keeps m s)) as Hm.
      pose proof (processMessage_keeps m s) as (Hsub & _).
      unfold Async.bind.
      destruct (processMessage config options m s) as [[[]|e|] s1]; cbn [snd] in *;
        try exact Hm.
      apply (Evolves_trans _ _ s1); [exact Hm|].
      apply IH. exact (skips_mono _ _ _ Hsub Hskip).
Qed.

End Loop.

(** ** Self-suppression *)

(** A handle without its leading at sign. *)
Definition stripLeadingAt (handle : string) : string :=
  match handle with
  | String c rest => if Ascii.eqb c "@" then rest else handle
  | EmptyString => EmptyString
  end.

(** A handle that has no at sign but, possibly, the leading one. *)
Definition PlainHandle (handle : string) : Prop := ~ Occurs "@" (stripLeadingAt handle).

Lemma removeFirst_absent (c : ascii) (s : string) :
  ~ Occurs c s -> Js.removeFirst c s = s.
Proof.
  induction s as [|b r IH]; intros Hno; cbn [Js.removeFirst]; [reflexivity|].
  destruct (Ascii.eqb_spec b c) as [->|Hne].
  - destruct Hno. now exists EmptyString, r.
  - f_equal. apply IH. intros (x & y & ->). apply Hno. now exists (String b x), y.
Qed.

Lemma removeFirst_plain (handle : string) :
  PlainHandle handle -> Js.removeFirst "@" handle = stripLeadingAt handle.
Proof.
  unfold PlainHandle. destruct handle as [|c rest]; [reflexivity|].
  cbn [stripLeadingAt Js.removeFirst].
  destruct (Ascii.eqb_spec c "@") as [->|Hne]; [reflexivity|].
  intros Hno. pose proof (removeFirst_absent "@" (String c rest) Hno) as E.
  cbn [Js.removeFirst] in E. apply Ascii.eqb_neq in Hne. now rewrite Hne in E.
Qed.

Section SelfSuppression.

Import AlfaFrensAIInteraction.

Context {World N : Type} {num : JsNumber N} {rt : Runtime World N}.
Variable config : AlfaFrensConfig.t.
Variable options : Options.t.

(** A message of the agent's own, given the ids it has sent: by its id, by
    the id of its sender, or by the handle of its sender, which is then a
    non-empty plain handle. *)
Definition SelfMessage (sent : gset string) (message : AlfaFrensMessage.t) : Prop :=
  AlfaFrensMessage.id message ∈ sent
  \/ AlfaFrensMessage.senderId message = AlfaFrensConfig.userId config
  \/ (PlainHandle (AlfaFrensMessage.senderUsername message)
      /\ PlainHandle (AlfaFrensConfig.username config)
      /\ stripLeadingAt (AlfaFrensMessage.senderUsername message) <> ""
      /\ stripLeadingAt (AlfaFrensMessage.senderUsername message)
         = stripLeadingAt (AlfaFrensConfig.username config)).

Lemma nonEmpty_spec (x : string) : x <> "" -> Js.nonEmpty x = true.
Proof. destruct x; [congruence | reflexivity]. Qed.

Lemma SelfMessage_skips (s : State World N) (message : AlfaFrensMessage.t) :
  SelfMessage (sentMessageIds s) message -> skips config s message = true.
Proof.
  unfold skips. intros [Hid | [Hsender | (Hm & Hc & Hne & Heq)]].
  - now rewrite (bool_decide_eq_true_2 _ Hid).
  - apply String.eqb_eq in Hsender. now rewrite Hsender, orb_true_r.
  - rewrite (removeFirst_plain _ Hm), (removeFirst_plain _ Hc), <- Heq.
    rewrite (nonEmpty_spec _ Hne), String.eqb_refl. apply orb_true_r.
Qed.

(** C4.  In a batch, wherever it starts, neither the evaluator nor the
    generator is called for a message of the agent's own, and no reply to
    it is sent: a message whose id is among the sent ids, or whose sender
    id is the configured user id, or whose sender handle, a non-empty
    plain handle, is the configured handle up to the leading at sign. *)
Theorem processMessageBatch_self_suppression :
  forall (batch : list AlfaFrensMessage.t) (message : AlfaFrensMessage.t)
         (s : State World N),
    SelfMessage (sentMessageIds s) message ->
    exists new,
      steps (snd (processMessageBatch config options batch s)) = (steps s ++ new)%list
      /\ ~ In (Evaluate message) new
      /\ ~ In (Respond message) new
      /\ forall response, ~ In (Reply message response) new.
Proof.
  intros batch message s Hself.
  destruct (processMessageBatch_skips config options message batch s
              (SelfMessage_skips _ _ Hself)) as (_ & _ & _ & _ & new & Hnew & Hall).
  exists new. split; [exact Hnew|].
  rewrite List.Forall_forall in Hall.
  split; [|split]; [| |intros response]; intros Hin; now apply (Hall _ Hin).
Qed.

End SelfSuppression.

(** A configuration without a handle, and a message without one. *)
Definition namelessConfig : AlfaFrensConfig.t :=
  AlfaFrensConfig.mk "key" "bot-id" "room" "" 15 false 3600 7200.

Definition noOptions : AlfaFrensAIInteraction.Options.t :=
  AlfaFrensAIInteraction.Options.mk None None None None None.

Definition namelessMessage : AlfaFrensMessage.t :=
  AlfaFrensMessage.mk "a" "u1" "" "hi" "2025-01-01T00:00:02.000Z" None.

(** C4, as stated, fails where the handles are empty: they are equal, and
    the message is evaluated. *)
Lemma self_suppression_counterexample :
  ~ (forall (World N : Type) (num : JsNumber N) (rt : Runtime World N)
            (config : AlfaFrensConfig.t) (options : AlfaFrensAIInteraction.Options.t)
            (batch : list AlfaFrensMessage.t) (message : AlfaFrensMessage.t)
            (s : AlfaFrensAIInteraction.State World N),
       AlfaFrensMessage.id message ∈ AlfaFrensAIInteraction.sentMessageIds s
       \/ AlfaFrensMessage.senderId message = AlfaFrensConfig.userId config
       \/ stripLeadingAt (AlfaFrensMessage.senderUsername message)
          = stripLeadingAt (AlfaFrensConfig.username config) ->
       exists new,
         AlfaFrensAIInteraction.steps
           (snd (AlfaFrensAIInteraction.processMessageBatch config options batch s))
         = (AlfaFrensAIInteraction.steps s ++ new)%list
         /\ ~ In (AlfaFrensAIInteraction.Evaluate message) new).
Proof.
  intros H.
  destruct (H Z Q _ (Scripted.runtime Scripted.quiet) namelessConfig noOptions
              [namelessMessage] namelessMessage
              (AlfaFrensAIInteraction.create 1000 (Scripted.fresh 1000))
              (or_intror (or_intror eq_refl))) as (new & Hnew & Hno).
  vm_compute in Hnew. subst new. apply Hno. left. reflexivity.
Qed.

(** The same where the configured handle has an inner at sign: the first
    one is removed wherever it stands. *)
Example removeFirst_inner : Js.removeFirst "@" "x@y" = "xy".
Proof. reflexivity. Qed.

Lemma processMessageBatch_self_suppression_witness :
  exists new,
    AlfaFrensAIInteraction.steps
      (snd (AlfaFrensAIInteraction.processMessageBatch
              (rt := Scripted.runtime (N := Q) Scripted.quiet)
              (AlfaFrensConfig.mk "key" "bot-id" "room" "bot" 15 false 3600 7200)
              noOptions
              [AlfaFrensMessage.mk "a" "u1" "@bot" "hi" "2025-01-01T00:00:02.000Z" None;
               AlfaFrensMessage.mk "b" "u2" "bob" "yo" "2025-01-01T00:00:03.000Z" None]
              (AlfaFrensAIInteraction.create 1000 (Scripted.fresh 1000))))
    = new
    /\ ~ In (AlfaFrensAIInteraction.Evaluate
               (AlfaFrensMessage.mk "a" "u1" "@bot" "hi" "2025-01-01T00:00:02.000Z" None))
            new.
Proof.
  destruct (processMessageBatch_self_suppression (rt := Scripted.runtime (N := Q) Scripted.quiet)
              (AlfaFrensConfig.mk "key" "bot-id" "room" "bot" 15 false 3600 7200)
              noOptions
              [AlfaFrensMessage.mk "a" "u1" "@bot" "hi" "2025-01-01T00:00:02.000Z" None;
               AlfaFrensMessage.mk "b" "u2" "bob" "yo" "2025-01-01T00:00:03.000Z" None]
              (AlfaFrensMessage.mk "a" "u1" "@bot" "hi" "2025-01-01T00:00:02.000Z" None)
              (AlfaFrensAIInteraction.create 1000 (Scripted.fresh 1000)))
    as (new & Hnew & Hno & _).
  - right. right. unfold PlainHandle, Occurs. cbn.
    repeat split; try discriminate.
    + intros (a & b & Heq). destruct a as [|? [|? [|? [|? ?]]]]; discriminate.
    + intros (a & b & Heq). destruct a as [|? [|? [|? [|? ?]]]]; discriminate.
  - exists new. split; [exact Hnew | exact Hno].
Defined.

(** ** What the calls of a piece of code do to the environment *)

Section Effects.

Import FactValidationManager Utils.

Context {World N : Type} {num : JsNumber N} {rt : Runtime World N}.

(** A relation between the environment before and after, and the services
    whose calls keep it: [Quiet f] is said of what a call does to the
    world. *)
Variable R : Sys World N -> Sys World N -> Prop.
Variable Quiet : (World -> World) -> Prop.

Hypothesis R_refl : forall s, R s s.
Hypothesis R_trans : forall s1 s2 s3, R s1 s2 -> R s2 s3 -> R s1 s3.
Hypothesis R_call :
  forall (c : Call N) (f : World -> World) (s : Sys World N),
    Quiet f -> R s (mkSys (f (world s)) (calls s ++ [c])).

Definition Acts {A} (m : M (Sys World N) A) : Prop := forall s, R s (snd (m s)).

Lemma Acts_ret {A} (a : A) : Acts (ret a).
Proof. intros s. apply R_refl. Qed.

Lemma Acts_throw {A} e : Acts (throw (A := A) e).
Proof. intros s. apply R_refl. Qed.

Lemma Acts_settle {A} (o : Outcome A) : Acts (settle o).
Proof. intros s. apply R_refl. Qed.

Lemma Acts_await {A} (p : Promise A) : Acts (await p).
Proof. intros s. unfold await. destruct p as [t [e|a]|]; apply R_refl. Qed.

Lemma Acts_perform {A} (c : Call N) (op : World -> A * World) :
  Quiet (fun w => snd (op w)) -> Acts (perform c op).
Proof.
  intros Hq s. rewrite perform_run. exact (R_call c (fun w => snd (op w)) s Hq).
Qed.

Lemma Acts_call {A} (c : Call N) (op : World -> Outcome A * World) :
  Quiet (fun w => snd (op w)) -> Acts (call c op).
Proof.
  intros Hq s. rewrite call_run. exact (R_call c (fun w => snd (op w)) s Hq).
Qed.

Lemma Acts_bind {A B} (m : M (Sys World N) A) (k : A -> M (Sys World N) B) :
  Acts m -> (forall a, Acts (k a)) -> Acts (Async.bind m k).
Proof.
  intros Hm Hk s. specialize (Hm s). unfold Async.bind.
  destruct (m s) as [[a|e|] s1]; cbn [snd] in *; try exact Hm.
  exact (R_trans _ _ _ Hm (Hk a s1)).
Qed.

Lemma Acts_tryCatch {A} (m : M (Sys World N) A) (h : JsError -> M (Sys World N) A) :
  Acts m -> (forall e, Acts (h e)) -> Acts (Async.tryCatch m h).
Proof.
  intros Hm Hh s. specialize (Hm s). unfold Async.tryCatch.
  destruct (m s) as [[a|e|] s1]; cbn [snd] in *; try exact Hm.
  exact (R_trans _ _ _ Hm (Hh e s1)).
Qed.

Lemma Acts_forEach {A} (l : list A) (body : A -> M (Sys World N) unit) :
  (forall x, Acts (body x)) -> Acts (forEach l body).
Proof.
  intros Hb. induction l as [|x l IH]; cbn [forEach].
  - apply Acts_ret.
  - apply Acts_bind; [apply Hb | intros _; exact IH].
Qed.

(** The services a response is generated and validated with. *)
Hypothesis quiet_clock : Quiet (fun w => snd (Date_now w)).
Hypothesis quiet_generation : forall args, Quiet (fun w => snd (generateText args w)).
Hypothesis quiet_store : forall memory, Quiet (fun w => snd (createMemory memory w)).
Hypothesis quiet_facts : forall fact, Quiet (fun w => snd (getRelevantFacts fact w)).
Hypothesis quiet_contradictions :
  forall fact existing, Quiet (fun w => snd (detectContradictions fact existing w)).
Hypothesis quiet_relationships :
  forall fact message, Quiet (fun w => snd (extractRelationships fact message w)).
Hypothesis quiet_search : forall query, Quiet (fun w => snd (webSearch query w)).
Hypothesis quiet_knowledge :
  forall query limit, Quiet (fun w => snd (getKnowledge query limit w)).

Ltac acts_step :=
  first
    [ apply Acts_ret | apply Acts_throw | apply Acts_settle | apply Acts_await
    | apply Acts_perform;
      first [ apply quiet_clock | apply quiet_generation ]
    | apply Acts_call;
      first [ apply quiet_store | apply quiet_facts | apply quiet_contradictions
            | apply quiet_relationships | apply quiet_search | apply quiet_knowledge ]
    | apply Acts_bind; [|intros ?] | apply Acts_tryCatch; [|intros ?]
    | match goal with
      | |- Acts (if ?b then _ else _) => destruct b
      | |- Acts (match ?x with _ => _ end) => destruct x
      end ].

Lemma createMemory_acts (memory : Memory.t N) :
  Acts (call (CreateMemory memory) (createMemory memory)).
Proof. acts_step. Qed.

Lemma generateLLMResponse_acts (context : string) (modelClass : option ModelClass)
    (traceId : string) :
  Acts (generateLLMResponse context modelClass traceId).
Proof. unfold generateLLMResponse. cbv zeta. repeat acts_step. Qed.

Lemma extractFacts_acts (content : string) : Acts (extractFacts content).
Proof. unfold extractFacts. cbv zeta. repeat acts_step. Qed.

Lemma validateFact_acts (fact : string) (m : AlfaFrensMessage.t) :
  Acts (validateFact fact m).
Proof. unfold validateFact. cbv zeta. repeat acts_step. Qed.

Lemma validateFacts_acts (facts : list string) (m : AlfaFrensMessage.t)
    (flag0 : bool) (results0 : list (FactResult.t N)) :
  Acts (validateFacts facts m flag0 results0).
Proof.
  revert flag0 results0. induction facts as [|fact facts IH]; intros flag0 results0;
    cbn [validateFacts].
  - apply Acts_ret.
  - apply Acts_bind; [apply validateFact_acts | intros v; apply IH].
Qed.

Lemma storeFact_acts (fact : string) (validation : FactValidation.t N) :
  Acts (storeFact fact validation).
Proof. unfold storeFact. cbv zeta. repeat acts_step. Qed.

Lemma validateResponse_acts (prompt rawResponse : string) (modelClass : option ModelClass) :
  Acts (validateResponse prompt rawResponse modelClass).
Proof.
  unfold validateResponse. apply Acts_bind.
  { unfold validateDraft. apply Acts_bind; [apply extractFacts_acts | intros facts].
    destruct (List.length facts =? 0)%nat; [apply Acts_ret|].
    repeat acts_step. apply validateFacts_acts. }
  intros [[[|] results]|]; [| |apply Acts_ret].
  - apply Acts_bind; [apply generateLLMResponse_acts | intros text; apply Acts_ret].
  - apply Acts_bind; [|intros _; apply Acts_ret].
    unfold storeValidated. apply Acts_forEach. intros result.
    destruct (_ && _); [|apply Acts_ret].
    apply Acts_bind; [acts_step | intros now; apply storeFact_acts].
Qed.

Lemma generateResponse_acts (message : string) (history : list AlfaFrensMessage.t)
    (template : string) (modelClass : option ModelClass) :
  Acts (generateResponse message history template modelClass).
Proof.
  unfold generateResponse. apply Acts_bind.
  { unfold draftResponse. apply Acts_bind.
    { unfold searchWeb. repeat acts_step. }
    intros web. apply Acts_bind.
    { unfold relevantKnowledge, AlfaFrensClient.searchKnowledge. repeat acts_step. }
    intros knowledge. apply Acts_bind; [apply Acts_settle | intros prompt].
    apply Acts_bind; [apply generateLLMResponse_acts | intros raw; apply Acts_ret]. }
  intros [prompt rawResponse]. apply Acts_bind.
  { apply Acts_tryCatch; [apply validateResponse_acts | intros e; apply Acts_ret]. }
  intros [text|]; apply Acts_ret.
Qed.

(** The two requests to the channel, when the channel is quiet too. *)
Lemma sendMessage_acts (config : AlfaFrensConfig.t) (content roomId : string)
    (inReplyTo : option string) :
  (forall path body, Quiet (fun w => snd (httpPost path body w))) ->
  Acts (AlfaFrensClient.sendMessage config content roomId inReplyTo).
Proof.
  intros Hpost.
  assert (H : forall text replyTo, Acts (AlfaFrensApi.sendMessageWithOptions text replyTo)).
  { intros text replyTo. unfold AlfaFrensApi.sendMessageWithOptions, AlfaFrensApi.fetchPost.
    cbv zeta. apply Acts_tryCatch; [|intros e; apply Acts_throw].
    apply Acts_bind; [apply Acts_call, Hpost | intros r; apply Acts_ret]. }
  unfold AlfaFrensClient.sendMessage.
  apply Acts_tryCatch; [|intros e; apply Acts_throw].
  apply Acts_bind; [|intros r; apply Acts_ret].
  destruct inReplyTo as [parent|]; [destruct (Js.nonEmpty parent)|]; apply H.
Qed.

Lemma getMessages_acts (since until : option millis) (includeReactions includeReplies : bool) :
  (forall url, Quiet (fun w => snd (httpGet url w))) ->
  Acts (AlfaFrensClient.getMessages since until includeReactions includeReplies).
Proof.
  intros Hget. unfold AlfaFrensClient.getMessages, AlfaFrensApi.getMessages,
    AlfaFrensApi.fetchGet. cbv zeta.
  repeat first [ apply Acts_call, Hget | acts_step ].
Qed.

End Effects.

(** The same for the code of the poll loop: a relation between its states
    that every assignment of a cycle keeps, and that the calls of the
    helpers keep when they keep [R] on the environment. *)
Section Follows.

Import AlfaFrensAIInteraction.

Context {World N : Type} {num : JsNumber N} {rt : Runtime World N}.
Variable config : AlfaFrensConfig.t.
Variable options : Options.t.

Variable R : Sys World N -> Sys World N -> Prop.
Variable RS : State World N -> State World N -> Prop.

Hypothesis R_refl : forall t, R t t.
Hypothesis RS_refl : forall s, RS s s.
Hypothesis RS_trans : forall s1 s2 s3, RS s1 s2 -> RS s2 s3 -> RS s1 s3.
Hypothesis RS_sys : forall s t, R (sys s) t -> RS s (setSys t s).
Hypothesis RS_step : forall s e, RS s (snd (step e s)).

Definition Follows {A} (m : M (State World N) A) : Prop := forall s, RS s (snd (m s)).

Lemma Follows_ret {A} (a : A) : Follows (ret a).
Proof. intros s. apply RS_refl. Qed.

Lemma Follows_get : Follows (get (S := State World N)).
Proof. intros s. apply RS_refl. Qed.

Lemma Follows_bind {A B} (m : M (State World N) A) (k : A -> M (State World N) B) :
  Follows m -> (forall a, Follows (k a)) -> Follows (Async.bind m k).
Proof.
  intros Hm Hk s. specialize (Hm s). unfold Async.bind.
  destruct (m s) as [[a|e|] s1]; cbn [snd] in *; try exact Hm.
  exact (RS_trans _ _ _ Hm (Hk a s1)).
Qed.

Lemma Follows_tryCatch {A} (m : M (State World N) A) (h : JsError -> M (State World N) A) :
  Follows m -> (forall e, Follows (h e)) -> Follows (Async.tryCatch m h).
Proof.
  intros Hm Hh s. specialize (Hm s). unfold Async.tryCatch.
  destruct (m s) as [[a|e|] s1]; cbn [snd] in *; try exact Hm.
  exact (RS_trans _ _ _ Hm (Hh e s1)).
Qed.

Lemma Follows_forEach {A} (l : list A) (body : A -> M (State World N) unit) :
  (forall x, Follows (body x)) -> Follows (forEach l body).
Proof.
  intros Hb. induction l as [|x l IH]; cbn [forEach].
  - apply Follows_ret.
  - apply Follows_bind; [apply Hb | intros _; exact IH].
Qed.

Lemma Follows_helper {A} (m : M (Sys World N) A) : Acts R m -> Follows (helper m).
Proof.
  intros Hm s. unfold helper, Async.lift. specialize (Hm (sys s)).
  destruct (m (sys s)) as [r t]. cbn [snd] in *. now apply RS_sys.
Qed.

Lemma Follows_step (e : Step) : Follows (step e).
Proof. intros s. apply RS_step. Qed.

(** The helpers a message is handled with, and the reply: the message is
    posted and its id is kept. *)
Hypothesis store_acts : forall memory, Acts R (call (CreateMemory memory) (createMemory memory)).
Hypothesis response_acts :
  forall message history template modelClass,
    Acts R (Utils.generateResponse message history template modelClass).
Hypothesis reply_follows :
  forall content roomId inReplyTo,
    Follows (Async.bind (helper (AlfaFrensClient.sendMessage config content roomId inReplyTo))
               trackSent).

Lemma processMessage_follows (message : AlfaFrensMessage.t) :
  Follows (processMessage config options message).
Proof.
  unfold processMessage. apply Follows_bind; [apply Follows_get | intros s0].
  destruct (bool_decide _); [apply Follows_ret|].
  destruct (String.eqb _ _); [apply Follows_ret|].
  destruct (_ && _); [apply Follows_ret|].
  apply Follows_bind.
  { apply Follows_tryCatch; [apply Follows_helper, store_acts | intros e; apply Follows_ret]. }
  intros _. apply Follows_tryCatch; [|intros e; apply Follows_ret].
  apply Follows_bind; [apply Follows_step | intros _].
  apply Follows_bind.
  { apply Follows_helper. intros t. apply R_refl. }
  intros shouldRespond.
  destruct (negb shouldRespond); [apply Follows_ret|].
  apply Follows_bind; [apply Follows_get | intros s1].
  apply Follows_bind; [apply Follows_step | intros _].
  apply Follows_bind; [apply Follows_helper, response_acts | intros text].
  apply Follows_tryCatch; [|intros e; apply Follows_ret].
  apply Follows_bind; [apply Follows_step | intros _].
  apply reply_follows.
Qed.

Lemma processMessageBatch_follows (batch : list AlfaFrensMessage.t) :
  Follows (processMessageBatch config options batch).
Proof. apply Follows_forEach. intros m. apply processMessage_follows. Qed.

End Follows.

(** ** The checkpoint *)

Section Checkpoint.

Import AlfaFrensAIInteraction.

Context {World N : Type} {num : JsNumber N} {rt : Runtime World N}.
Variable config : AlfaFrensConfig.t.
Variable options : Options.t.

(** The largest time of a batch, when every timestamp of it is a date. *)
Fixpoint maximumTime (messages : list AlfaFrensMessage.t) : option Z :=
  match messages with
  | [] => None
  | m :: rest =>
      match Date_getTime (AlfaFrensMessage.timestamp m), rest with
      | NaN, _ => None
      | Ms t, [] => Some t
      | Ms t, _ :: _ =>
          match maximumTime rest with
          | Some u => Some (Z.max t u)
          | None => None
          end
      end
  end.

(** The request of a cycle that starts in [s]. *)
Definition fetch (s : State World N) : M (Sys World N) (list AlfaFrensMessage.t) :=
  AlfaFrensClient.getMessages (Some (lastProcessedTime s)) None false false.

(** The state once the request has been answered, with [t] for the
    environment. *)
Definition fetched (s : State World N) (t : Sys World N) : State World N :=
  mkState (isRunning s) (messageHistory s) (lastProcessedTime s) (pollIntervalId s)
    (postIntervalId s) (sentMessageIds s) (steps s ++ [Fetch (lastProcessedTime s)]) t.

(** The state once a batch that is not empty has been received. *)
Definition received (messages : list AlfaFrensMessage.t) (s : State World N)
  : State World N :=
  setLastProcessedTime (millisSucc (Date_getTime (lastTimestamp messages)))
    (setMessageHistory (lastN 50 (messageHistory s ++ messages)) s).

(** The loop over the batches of ten. *)
Definition batchLoop (messages : list AlfaFrensMessage.t) : M (State World N) unit :=
  forEach (messageBatches 10 messages)
    (fun batch =>
       Async.tryCatch (processMessageBatch config options batch) (fun batchError => ret tt)).

Lemma tryCatch_swallow {S} (m : M S unit) (s : S) :
  snd (Async.tryCatch m (fun error => ret tt) s) = snd (m s).
Proof. unfold Async.tryCatch. destruct (m s) as [[a|e|] s']; reflexivity. Qed.

(** A cycle, by the answer to its request. *)
Lemma processMessages_run (s : State World N) r t :
  isRunning s = true ->
  fetch s (sys s) = (r, t) ->
  snd (processMessages config options s) =
    match r with
    | Returns messages =>
        if (List.length messages =? 0)%nat
        then fetched s t
        else snd (batchLoop messages (received messages (fetched s t)))
    | _ => fetched s t
    end.
Proof.
  intros Hrun Hfetch. unfold processMessages. rewrite tryCatch_swallow.
  unfold Async.bind at 1. unfold get at 1. cbn iota beta. rewrite Hrun. cbn [negb].
  unfold Async.bind at 1. unfold step at 1, modify at 1. cbn iota beta.
  unfold Async.bind at 1. unfold helper at 1, Async.lift at 1. cbn [sys].
  fold (fetch s). rewrite Hfetch.
  destruct r as [messages|e|]; try reflexivity.
  destruct (List.length messages =? 0)%nat; reflexivity.
Qed.

Lemma Keeps_weaken {A} (P Q : Step -> Prop) (m : M (State World N) A) :
  (forall e, P e -> Q e) -> Keeps P m -> Keeps Q m.
Proof. intros H Hm s. exact (Evolves_weaken _ _ _ _ H (Hm s)). Qed.

Lemma batchLoop_keeps (messages : list AlfaFrensMessage.t) :
  Keeps (fun _ => True) (batchLoop messages).
Proof.
  apply Keeps_forEach. intros batch.
  apply Keeps_tryCatch; [|intros e; apply Keeps_ret].
  apply Keeps_forEach. intros m.
  exact (Keeps_weaken _ _ _ (fun _ _ => I) (processMessage_keeps config options m)).
Qed.

Lemma lastTimestamp_snoc (earlier : list AlfaFrensMessage.t) (m : AlfaFrensMessage.t) :
  lastTimestamp (earlier ++ [m]) = AlfaFrensMessage.timestamp m.
Proof.
  unfold lastTimestamp. rewrite List.map_app.
  change (map Some [m]) with [Some m]. now rewrite List.last_last.
Qed.

(** The checkpoint, the flag and the calls after a cycle. *)
Lemma processMessages_after (s : State World N) messages t :
  isRunning s = true ->
  fetch s (sys s) = (Returns messages, t) ->
  let s' := snd (processMessages config options s) in
  isRunning s' = true
  /\ (exists new, steps s' = (steps s ++ Fetch (lastProcessedTime s) :: new)%list)
  /\ lastProcessedTime s' =
       match messages with
       | [] => lastProcessedTime s
       | _ :: _ => millisSucc (Date_getTime (lastTimestamp messages))
       end.
Proof.
  intros Hrun Hfetch s'. subst s'. rewrite (processMessages_run _ _ _ Hrun Hfetch).
  destruct messages as [|m rest]; cbn [List.length Nat.eqb].
  - repeat split; [exact Hrun|]. exists []. reflexivity.
  - destruct (batchLoop_keeps (m :: rest) (received (m :: rest) (fetched s t)))
      as (_ & Htime & Hflag & _ & new & Hsteps & _).
    rewrite Htime, Hflag, Hsteps. repeat split; [exact Hrun|].
    exists new. cbn [received fetched setLastProcessedTime setMessageHistory steps].
    now rewrite <- app_assoc.
Qed.

(** Every cycle of a running loop asks for the messages since the
    checkpoint. *)
Lemma processMessages_fetches (s : State World N) :
  isRunning s = true ->
  exists new,
    steps (snd (processMessages config options s))
    = (steps s ++ Fetch (lastProcessedTime s) :: new)%list.
Proof.
  intros Hrun. destruct (fetch s (sys s)) as [r t] eqn:Hfetch.
  destruct r as [messages|e|].
  - exact (proj1 (proj2 (processMessages_after s messages t Hrun Hfetch))).
  - rewrite (processMessages_run _ _ _ Hrun Hfetch). now exists [].
  - rewrite (processMessages_run _ _ _ Hrun Hfetch). now exists [].
Qed.

(** The times of a batch do not decrease: the order the channel sends its
    messages in. *)
Fixpoint ascending (messages : list AlfaFrensMessage.t) : bool :=
  match messages with
  | [] => true
  | m :: rest =>
      match rest with
      | [] => true
      | m' :: _ =>
          match Date_getTime (AlfaFrensMessage.timestamp m),
                Date_getTime (AlfaFrensMessage.timestamp m') with
          | Ms t, Ms u => (t <=? u)%Z && ascending rest
          | _, _ => false
          end
      end
  end.

Lemma maximumTime_head (m : AlfaFrensMessage.t) (rest : list AlfaFrensMessage.t) (t T : Z) :
  Date_getTime (AlfaFrensMessage.timestamp m) = Ms t ->
  maximumTime (m :: rest) = Some T ->
  (t <= T)%Z.
Proof.
  intros Ht. cbn [maximumTime]. rewrite Ht. destruct rest as [|m' rest].
  - intros [= <-]. lia.
  - destruct (maximumTime (m' :: rest)) as [u|]; [|discriminate].
    intros [= <-]. lia.
Qed.

Lemma maximumTime_cons (m m' : AlfaFrensMessage.t) (rest : list AlfaFrensMessage.t) :
  maximumTime (m :: m' :: rest) =
  match Date_getTime (AlfaFrensMessage.timestamp m) with
  | Ms t =>
      match maximumTime (m' :: rest) with
      | Some u => Some (Z.max t u)
      | None => None
      end
  | NaN => None
  end.
Proof. reflexivity. Qed.

Lemma ascending_cons (m m' : AlfaFrensMessage.t) (rest : list AlfaFrensMessage.t) :
  ascending (m :: m' :: rest) =
  match Date_getTime (AlfaFrensMessage.timestamp m),
        Date_getTime (AlfaFrensMessage.timestamp m') with
  | Ms t, Ms u => (t <=? u)%Z && ascending (m' :: rest)
  | _, _ => false
  end.
Proof. reflexivity. Qed.

(** In such a batch the last message carries the largest time. *)
Lemma ascending_last (messages : list AlfaFrensMessage.t) (T : Z) :
  ascending messages = true ->
  maximumTime messages = Some T ->
  Date_getTime (lastTimestamp messages) = Ms T.
Proof.
  revert T. induction messages as [|m rest IH]; intros T; [intros _ H; discriminate H|].
  destruct rest as [|m' rest].
  - intros _. cbn [maximumTime]. unfold lastTimestamp. cbn.
    destruct (Date_getTime (AlfaFrensMessage.timestamp m)) as [t|]; [|discriminate].
    now intros [= <-].
  - intros Hasc Hmax.
    change (lastTimestamp (m :: m' :: rest)) with (lastTimestamp (m' :: rest)).
    rewrite ascending_cons in Hasc. rewrite maximumTime_cons in Hmax.
    destruct (Date_getTime (AlfaFrensMessage.timestamp m)) as [t|]; [|discriminate].
    destruct (Date_getTime (AlfaFrensMessage.timestamp m')) as [u|] eqn:Hu; [|discriminate].
    apply andb_true_iff in Hasc as (Hle & Hasc). apply Z.leb_le in Hle.
    destruct (maximumTime (m' :: rest)) as [v|] eqn:Hv; [|discriminate].
    injection Hmax as <-.
    pose proof (maximumTime_head m' rest u v Hu Hv) as Huv.
    rewrite (IH v Hasc eq_refl). f_equal. lia.
Qed.

(** The calls made so far are kept, and calls are added. *)
Definition Grows (t t' : Sys World N) : Prop :=
  exists more, calls t' = (calls t ++ more)%list.

Lemma Grows_refl (t : Sys World N) : Grows t t.
Proof. exists []. now rewrite app_nil_r. Qed.

Lemma Grows_trans (t1 t2 t3 : Sys World N) : Grows t1 t2 -> Grows t2 t3 -> Grows t1 t3.
Proof.
  intros (m1 & E1) (m2 & E2). exists (m1 ++ m2)%list. now rewrite E2, E1, app_assoc.
Qed.

Lemma Grows_call (c : Call N) (f : World -> World) (t : Sys World N) :
  True -> Grows t (mkSys (f (world t)) (calls t ++ [c])).
Proof. intros _. now exists [c]. Qed.

Lemma processMessageBatch_grows (batch : list AlfaFrensMessage.t) (s : State World N) :
  Grows (sys s) (sys (snd (processMessageBatch config options batch s))).
Proof.
  revert s.
  apply (processMessageBatch_follows config options Grows (fun a b => Grows (sys a) (sys b))).
  - apply Grows_refl.
  - intros s. apply Grows_refl.
  - intros s1 s2 s3. apply Grows_trans.
  - intros s t H. exact H.
  - intros s e. apply Grows_refl.
  - apply (createMemory_acts Grows (fun _ => True) Grows_call). now intros.
  - apply (generateResponse_acts Grows (fun _ => True) Grows_refl Grows_trans Grows_call);
      now intros.
  - intros content roomId inReplyTo s.
    pose proof (sendMessage_acts Grows (fun _ => True) Grows_refl Grows_trans Grows_call
                  config content roomId inReplyTo (fun _ _ => I) (sys s)) as Hsend.
    unfold Async.bind, helper, Async.lift.
    destruct (AlfaFrensClient.sendMessage config content roomId inReplyTo (sys s))
      as [[result|e|] t]; cbn [snd] in *; try exact Hsend.
    unfold trackSent. destruct result as [|[memory sent] rest]; [exact Hsend|].
    destruct (Js.nonEmpty (AlfaFrensMessage.id sent)); exact Hsend.
Qed.

Lemma batchLoop_grows (messages : list AlfaFrensMessage.t) (s : State World N) :
  Grows (sys s) (sys (snd (batchLoop messages s))).
Proof.
  unfold batchLoop. revert s.
  induction (messageBatches 10 messages) as [|batch batches IH]; intros s; cbn [forEach].
  - apply Grows_refl.
  - unfold Async.bind.
    pose proof (processMessageBatch_grows batch s) as Hbatch.
    rewrite <- (tryCatch_swallow (processMessageBatch config options batch) s) in Hbatch.
    destruct (Async.tryCatch _ _ s) as [[[]|e|] s1]; cbn [snd] in *; try exact Hbatch.
    exact (Grows_trans _ _ _ Hbatch (IH s1)).
Qed.

(** The request for the messages since [T]. *)
Definition sinceUrl (T : Z) : string := "/api/ai/getChannelMessages?since=" ++ showZ T.

Lemma fetch_request (s : State World N) (T : Z) :
  lastProcessedTime s = Ms T -> T <> 0%Z ->
  calls (snd (fetch s (sys s))) = (calls (sys s) ++ [HttpGet (sinceUrl T)])%list.
Proof.
  intros Hs HT. unfold fetch, AlfaFrensClient.getMessages.
  rewrite tryCatch_rethrow, bind_ret_r, getMessages_run, Hs.
  cbn [AlfaFrensApi.Options.since AlfaFrensApi.truthy].
  apply Z.eqb_neq in HT. rewrite HT. cbn [negb snd calls].
  unfold untilParameter, AlfaFrensApi.includeParameter. cbn.
  unfold sinceUrl. now rewrite append_nil_r.
Qed.

(** The request is the first call of a cycle of the running loop. *)
Lemma processMessages_request (s : State World N) (T : Z) :
  isRunning s = true ->
  lastProcessedTime s = Ms T -> T <> 0%Z ->
  exists more,
    calls (sys (snd (processMessages config options s)))
    = (calls (sys s) ++ HttpGet (sinceUrl T) :: more)%list.
Proof.
  intros Hrun Hs HT. pose proof (fetch_request s T Hs HT) as Hcalls.
  destruct (fetch s (sys s)) as [r t] eqn:Hfetch. cbn [snd] in Hcalls.
  rewrite (processMessages_run _ _ _ Hrun Hfetch).
  assert (Hquiet : exists more,
             calls (sys (fetched s t)) = (calls (sys s) ++ HttpGet (sinceUrl T) :: more)%list).
  { exists []. exact Hcalls. }
  destruct r as [messages|e|]; try exact Hquiet.
  destruct (List.length messages =? 0)%nat; [exact Hquiet|].
  destruct (batchLoop_grows messages (received messages (fetched s t))) as (more & Hmore).
  exists more. rewrite Hmore. cbn [received fetched setLastProcessedTime setMessageHistory sys].
  now rewrite Hcalls, <- app_assoc.
Qed.

(** C1.  A cycle of the running loop whose request is answered with an
    empty batch leaves the checkpoint as it was.  One answered with a batch
    whose largest time is [T], the times of the batch being dates in the
    order the channel sends them (they do not decrease), sets the checkpoint
    to [T + 1], whatever the number of messages that carry [T]; the next
    cycle asks for the messages since [T + 1], and its request to the channel
    carries [since=T+1] (a [since] of 0 is the one the request replaces by
    the last hour). *)
Theorem processMessages_checkpoint :
  forall (s : State World N) (messages : list AlfaFrensMessage.t) (t : Sys World N),
    isRunning s = true ->
    fetch s (sys s) = (Returns messages, t) ->
    let s' := snd (processMessages config options s) in
    (messages = [] -> lastProcessedTime s' = lastProcessedTime s)
    /\ (forall T,
          ascending messages = true ->
          maximumTime messages = Some T ->
          lastProcessedTime s' = Ms (T + 1)
          /\ (exists new,
                steps (snd (processMessages config options s'))
                = (steps s' ++ Fetch (Ms (T + 1)) :: new)%list)
          /\ ((T + 1 <> 0)%Z ->
              exists more,
                calls (sys (snd (processMessages config options s')))
                = (calls (sys s') ++ HttpGet (sinceUrl (T + 1)) :: more)%list)).
Proof.
  intros s messages t Hrun Hfetch s'.
  destruct (processMessages_after s messages t Hrun Hfetch) as (Hflag & _ & Htime).
  fold s' in Hflag, Htime.
  split.
  - intros ->. exact Htime.
  - intros T Hasc Hmax.
    assert (Hcheck : lastProcessedTime s' = Ms (T + 1)).
    { rewrite Htime. destruct messages as [|m rest]; [discriminate Hmax|].
      now rewrite (ascending_last _ _ Hasc Hmax). }
    split; [exact Hcheck|]. split.
    + rewrite <- Hcheck. now apply processMessages_fetches.
    + intros HT. now apply processMessages_request.
Qed.

End Checkpoint.

Definition botConfig : AlfaFrensConfig.t :=
  AlfaFrensConfig.mk "key" "bot-id" "room" "bot" 15 false 3600 7200.

Definition aliceMessage : AlfaFrensMessage.t :=
  AlfaFrensMessage.mk "a" "u1" "alice" "hi" "2025-01-01T00:00:02.000Z" None.

Definition bobMessage : AlfaFrensMessage.t :=
  AlfaFrensMessage.mk "b" "u2" "bob" "yo" "2025-01-01T00:00:01.000Z" None.

(** An environment whose channel answers with the messages of [inbox]. *)
Definition channelScript (inbox : list AlfaFrensMessage.t) : Scripted.Script Q :=
  Scripted.mkScript "agent" None (Returns inbox)
    (Returns (AlfaFrensSendMessageResponse.mk "success" "sent-1" "2025-01-01T00:00:00.000Z"))
    (fun _ => Settles 0 (inr "ok")) (fun _ => None) (fun _ => []) (Returns tt).

(** The running loop, built at the time 1000. *)
Definition runningLoop : AlfaFrensAIInteraction.State Z Q :=
  AlfaFrensAIInteraction.setRunning true
    (AlfaFrensAIInteraction.create 1000 (Scripted.fresh 1000)).

Definition carolMessage : AlfaFrensMessage.t :=
  AlfaFrensMessage.mk "c" "u3" "carol" "hey" "2025-01-01T00:00:02.000Z" None.

(** The order of a batch matters: the checkpoint follows the last message,
    so that for a batch that has its newest message first it is the time of
    the older one and 1 ms. *)
Example processMessages_newest_first :
  AlfaFrensAIInteraction.lastProcessedTime
    (snd (AlfaFrensAIInteraction.processMessages
            (rt := Scripted.runtime (channelScript [aliceMessage; bobMessage]))
            botConfig noOptions runningLoop))
  = Ms 1735689601001.
Proof. vm_compute. reflexivity. Qed.

Lemma processMessages_checkpoint_witness :
  let rt := Scripted.runtime (channelScript [bobMessage; aliceMessage; carolMessage]) in
  let s' :=
    snd (AlfaFrensAIInteraction.processMessages (rt := rt) botConfig noOptions runningLoop) in
  AlfaFrensAIInteraction.lastProcessedTime s' = Ms 1735689602001
  /\ (exists more,
        calls (AlfaFrensAIInteraction.sys
                 (snd (AlfaFrensAIInteraction.processMessages (rt := rt)
                         botConfig noOptions s')))
        = (calls (AlfaFrensAIInteraction.sys s')
             ++ HttpGet "/api/ai/getChannelMessages?since=1735689602001" :: more)%list)
  /\ AlfaFrensAIInteraction.lastProcessedTime
       (snd (AlfaFrensAIInteraction.processMessages
               (rt := Scripted.runtime (channelScript []))
               botConfig noOptions runningLoop))
     = Ms 1000.
Proof.
  intros rt s'. split; [|split].
  - assert (Hfetch : fetch (rt := rt) runningLoop (AlfaFrensAIInteraction.sys runningLoop)
                     = (Returns [bobMessage; aliceMessage; carolMessage],
                        snd (fetch (rt := rt) runningLoop
                               (AlfaFrensAIInteraction.sys runningLoop))))
      by (vm_compute; reflexivity).
    destruct (processMessages_checkpoint (rt := rt) botConfig noOptions runningLoop
                _ _ eq_refl Hfetch) as (_ & Hlast).
    exact (proj1 (Hlast 1735689602000%Z eq_refl eq_refl)).
  - assert (Hfetch : fetch (rt := rt) runningLoop (AlfaFrensAIInteraction.sys runningLoop)
                     = (Returns [bobMessage; aliceMessage; carolMessage],
                        snd (fetch (rt := rt) runningLoop
                               (AlfaFrensAIInteraction.sys runningLoop))))
      by (vm_compute; reflexivity).
    destruct (processMessages_checkpoint (rt := rt) botConfig noOptions runningLoop
                _ _ eq_refl Hfetch) as (_ & Hlast).
    destruct (Hlast 1735689602000%Z eq_refl eq_refl) as (_ & _ & Hrequest).
    apply Hrequest. discriminate.
  - pose (rt0 := Scripted.runtime (channelScript [])).
    assert (Hfetch : fetch (rt := rt0) runningLoop (AlfaFrensAIInteraction.sys runningLoop)
                     = (Returns [],
                        snd (fetch (rt := rt0) runningLoop
                               (AlfaFrensAIInteraction.sys runningLoop))))
      by (vm_compute; reflexivity).
    destruct (processMessages_checkpoint (rt := rt0) botConfig noOptions runningLoop
                _ _ eq_refl Hfetch) as (Hempty & _).
    exact (Hempty eq_refl).
Defined.

(** ** The checkpoint across a restart ([AlfaFrensManager]) *)

Section Restart.

Context {World N : Type} {num : JsNumber N} {rt : Runtime World N}.
Variable config : AlfaFrensConfig.t.

Abbreviation Loop := (AlfaFrensAIInteraction.State World N).

Lemma helper_steps {A} (m : M (Sys World N) A) (a : Loop) :
  AlfaFrensAIInteraction.steps (snd (AlfaFrensAIInteraction.helper m a))
  = AlfaFrensAIInteraction.steps a.
Proof.
  unfold AlfaFrensAIInteraction.helper, Async.lift. now destruct (m (AlfaFrensAIInteraction.sys a)).
Qed.

(** [start] on a loop that is not running makes a first cycle, which asks
    for the messages since the checkpoint the loop was built with. *)
Lemma start_fetches (options : AlfaFrensAIInteraction.Options.t)
    (intervalSeconds : option Z) (a : Loop) :
  AlfaFrensAIInteraction.isRunning a = false ->
  exists new,
    AlfaFrensAIInteraction.steps
      (snd (AlfaFrensAIInteraction.start config options intervalSeconds a))
    = (AlfaFrensAIInteraction.steps a
       ++ AlfaFrensAIInteraction.Fetch (AlfaFrensAIInteraction.lastProcessedTime a) :: new)%list.
Proof.
  intros Hoff. unfold AlfaFrensAIInteraction.start.
  unfold Async.bind at 1. unfold get at 1. cbn iota beta. rewrite Hoff.
  unfold Async.bind at 1. unfold modify at 1. cbn iota beta.
  unfold Async.bind at 1. unfold modify at 1. cbn iota beta.
  match goal with
  | |- context [Async.bind _ _ ?x] => set (a2 := x)
  end.
  destruct (processMessages_fetches config options a2 eq_refl) as (new & Hnew).
  change (AlfaFrensAIInteraction.steps a2) with (AlfaFrensAIInteraction.steps a) in Hnew.
  change (AlfaFrensAIInteraction.lastProcessedTime a2)
    with (AlfaFrensAIInteraction.lastProcessedTime a) in Hnew.
  exists new. rewrite <- Hnew.
  unfold Async.bind at 1. unfold Async.tryCatch at 1.
  destruct (AlfaFrensAIInteraction.processMessages config options a2) as [[[]|e|] a3];
    cbn [snd ret]; try reflexivity.
  - destruct (AlfaFrensConfig.enablePost config); [|reflexivity].
    unfold Async.bind, modify.
    pose proof (helper_steps (perform MathRandom Math_random) a3) as Hsteps.
    destruct (AlfaFrensAIInteraction.helper (perform MathRandom Math_random) a3)
      as [[r|e|] a4]; exact Hsteps.
  - destruct (AlfaFrensConfig.enablePost config); [|reflexivity].
    unfold Async.bind, modify.
    pose proof (helper_steps (perform MathRandom Math_random) a3) as Hsteps.
    destruct (AlfaFrensAIInteraction.helper (perform MathRandom Math_random) a3)
      as [[r|e'|] a4]; exact Hsteps.
Qed.

Lemma interaction_run {A} (m : M Loop A) (st : AlfaFrensManager.State World N) :
  AlfaFrensManager.interaction m st
  = (fst (m (AlfaFrensManager.aiInteraction st)),
     AlfaFrensManager.setInteraction (snd (m (AlfaFrensManager.aiInteraction st))) st).
Proof.
  unfold AlfaFrensManager.interaction, Async.lift.
  now destruct (m (AlfaFrensManager.aiInteraction st)).
Qed.

Lemma manager_helper_run {A} (m : M (Sys World N) A) (st : AlfaFrensManager.State World N) :
  AlfaFrensManager.helper m st
  = (fst (m (AlfaFrensAIInteraction.sys (AlfaFrensManager.aiInteraction st))),
     AlfaFrensManager.setInteraction
       (AlfaFrensAIInteraction.setSys
          (snd (m (AlfaFrensAIInteraction.sys (AlfaFrensManager.aiInteraction st))))
          (AlfaFrensManager.aiInteraction st)) st).
Proof.
  unfold AlfaFrensManager.helper. rewrite interaction_run.
  unfold AlfaFrensAIInteraction.helper, Async.lift.
  now destruct (m (AlfaFrensAIInteraction.sys (AlfaFrensManager.aiInteraction st))).
Qed.

(** The end of [initialize], from the assignment of the restored value. *)
Definition restoreAndStart (restored : millis) : M (AlfaFrensManager.State World N) unit :=
  modify (AlfaFrensManager.setLastProcessedTime restored) ;;;
  AlfaFrensManager.interaction
    (AlfaFrensAIInteraction.start config (AlfaFrensManager.interactionOptions config)
       (Some (AlfaFrensConfig.pollInterval config))) ;;;
  AlfaFrensManager.helper
    (AlfaFrensClient.sendMessage config AlfaFrensManager.initialMessage
       (AlfaFrensConfig.channelId config) None) ;;;
  ret tt.

(** Whatever value is restored, the first cycle asks for the messages
    since the checkpoint of the loop. *)
Lemma restoreAndStart_fetches (restored : millis) (st : AlfaFrensManager.State World N) :
  AlfaFrensAIInteraction.isRunning (AlfaFrensManager.aiInteraction st) = false ->
  exists new,
    AlfaFrensAIInteraction.steps
      (AlfaFrensManager.aiInteraction (snd (restoreAndStart restored st)))
    = (AlfaFrensAIInteraction.steps (AlfaFrensManager.aiInteraction st)
       ++ AlfaFrensAIInteraction.Fetch
            (AlfaFrensAIInteraction.lastProcessedTime (AlfaFrensManager.aiInteraction st))
          :: new)%list.
Proof.
  intros Hoff. unfold restoreAndStart.
  unfold Async.bind at 1. unfold modify at 1. cbn iota beta.
  unfold Async.bind at 1. rewrite interaction_run.
  cbn [AlfaFrensManager.setLastProcessedTime AlfaFrensManager.aiInteraction].
  destruct (start_fetches (AlfaFrensManager.interactionOptions config)
              (Some (AlfaFrensConfig.pollInterval config)) _ Hoff) as (new & Hnew).
  exists new.
  destruct (AlfaFrensAIInteraction.start config _ _ (AlfaFrensManager.aiInteraction st))
    as [[[]|e|] a1]; cbn [fst snd] in *; try exact Hnew.
  unfold Async.bind. rewrite manager_helper_run.
  destruct (fst _); exact Hnew.
Qed.

Lemma initialize_handler {A} (body : M (AlfaFrensManager.State World N) A)
    (st : AlfaFrensManager.State World N) :
  AlfaFrensManager.aiInteraction
    (snd (Async.tryCatch body
            (fun error => modify (AlfaFrensManager.setRunning false) ;;; throw error) st))
  = AlfaFrensManager.aiInteraction (snd (body st)).
Proof. unfold Async.tryCatch. destruct (body st) as [[a|e|] st']; reflexivity. Qed.

(** C9 does not hold of the code.  A manager is built, at a time [now],
    and initialised, and the cache answers with [cached], whatever it is:
    the first request of the poll loop asks for the messages since [now],
    the time at which the manager was built. *)
Theorem initialize_ignores_cache :
  forall (s : Sys World N) (m : AlfaFrensManager.State World N)
         (cached : option millis) (w : World),
    AlfaFrensManager.create config s = inr m ->
    cacheGet AlfaFrensManager.cacheKey (snd (Date_now (world s))) = (Returns cached, w) ->
    exists new,
      AlfaFrensAIInteraction.steps
        (AlfaFrensManager.aiInteraction (snd (AlfaFrensManager.initialize config m)))
      = AlfaFrensAIInteraction.Fetch (Ms (fst (Date_now (world s)))) :: new.
Proof.
  intros s m cached w Hcreate Hcache. unfold AlfaFrensManager.create in Hcreate.
  destruct (negb _); [discriminate|].
  destruct (Date_now (world s)) as [now w0]. injection Hcreate as <-.
  cbn [fst snd] in *. unfold AlfaFrensManager.initialize.
  unfold Async.bind at 1. unfold get at 1. cbn iota beta.
  cbn [AlfaFrensManager.isRunning].
  unfold Async.bind at 1. unfold modify at 1. cbn iota beta.
  rewrite initialize_handler.
  unfold Async.bind at 1. rewrite manager_helper_run, call_run.
  cbn [AlfaFrensManager.setRunning AlfaFrensManager.aiInteraction
       AlfaFrensAIInteraction.create AlfaFrensAIInteraction.sys world calls fst snd].
  rewrite Hcache. cbn [fst snd].
  destruct (AlfaFrensApi.truthy cached).
  - rewrite bind_ret_l.
    apply (restoreAndStart_fetches (default NaN cached)). reflexivity.
  - unfold Async.bind at 1. unfold Async.bind at 1.
    rewrite manager_helper_run, perform_run. cbn [fst snd ret].
    match goal with
    | |- context [Ms (?t - 5 * 60 * 1000)] =>
        apply (restoreAndStart_fetches (Ms (t - 5 * 60 * 1000)))
    end.
    reflexivity.
Qed.

End Restart.

(** An environment whose cache holds the time 1000 and whose channel
    answers with two messages. *)
Definition restartScript : Scripted.Script Q :=
  Scripted.mkScript "agent" (Some (Ms 1000)) (Returns [bobMessage; aliceMessage])
    (Returns (AlfaFrensSendMessageResponse.mk "success" "sent-1" "2025-01-01T00:00:00.000Z"))
    (fun _ => Settles 0 (inr "ok")) (fun _ => None) (fun _ => []) (Returns tt).

(** The manager built at the time 5000000. *)
Definition restartedManager : AlfaFrensManager.State Z Q :=
  AlfaFrensManager.mkState false (Ms 0)
    (AlfaFrensAIInteraction.create 5000000 (mkSys 5000001%Z [DateNow])).

Lemma initialize_ignores_cache_witness :
  exists new,
    AlfaFrensAIInteraction.steps
      (AlfaFrensManager.aiInteraction
         (snd (AlfaFrensManager.initialize (rt := Scripted.runtime restartScript)
                 botConfig restartedManager)))
    = AlfaFrensAIInteraction.Fetch (Ms 5000000) :: new.
Proof.
  exact (initialize_ignores_cache (rt := Scripted.runtime restartScript) botConfig
           (Scripted.fresh 5000000) restartedManager (Some (Ms 1000)) 5000001%Z
           eq_refl eq_refl).
Defined.

(** The value [stop] writes to the cache is the one [initialize] read from
    it, not the checkpoint of the poll loop, which has moved on. *)
Example stop_persists_restored :
  let started :=
    snd (AlfaFrensManager.initialize (rt := Scripted.runtime restartScript)
           botConfig restartedManager) in
  let stopped :=
    snd (AlfaFrensManager.stop (rt := Scripted.runtime restartScript) started) in
  AlfaFrensAIInteraction.lastProcessedTime (AlfaFrensManager.aiInteraction started)
  = Ms 1735689602001
  /\ List.last (calls (AlfaFrensAIInteraction.sys (AlfaFrensManager.aiInteraction stopped)))
       DateNow
     = CacheSet AlfaFrensManager.cacheKey (Ms 1000).
Proof. vm_compute. split; reflexivity. Qed.

(* ===================================================================== *)
(** * Part III: further properties of the code *)
(* ===================================================================== *)

(** ** The batches of a cycle *)

Section Batches.

Import AlfaFrensAIInteraction.

Context {A : Type}.

Lemma batchesOf_concat (batchSize fuel : nat) (messages : list A) :
  (0 < batchSize)%nat -> (List.length messages <= fuel)%nat ->
  concat (batchesOf fuel batchSize messages) = messages.
Proof.
  intros Hpos. revert messages.
  induction fuel as [|fuel IH]; intros [|m rest] Hlen; cbn [batchesOf]; try reflexivity.
  - cbn in Hlen. lia.
  - cbn [concat]. rewrite IH; [apply firstn_skipn|].
    rewrite length_skipn. cbn [List.length] in *. lia.
Qed.

Lemma batchesOf_sizes (batchSize fuel : nat) (messages : list A) :
  (0 < batchSize)%nat ->
  Forall (fun batch => (1 <= List.length batch <= batchSize)%nat)
         (batchesOf fuel batchSize messages).
Proof.
  intros Hpos. revert messages.
  induction fuel as [|fuel IH]; intros [|m rest]; cbn [batchesOf]; try constructor.
  - rewrite length_firstn. cbn [List.length]. lia.
  - apply IH.
Qed.

Lemma batchesOf_count (fuel : nat) (messages : list A) :
  (List.length messages <= fuel)%nat ->
  List.length (batchesOf fuel 10 messages) = ((List.length messages + 9) / 10)%nat.
Proof.
  revert messages.
  induction fuel as [|fuel IH]; intros [|m rest] Hlen; cbn [batchesOf]; try reflexivity.
  - cbn in Hlen. lia.
  - assert (E : forall n, (1 <= n)%nat -> S ((n - 10 + 9) / 10) = ((n + 9) / 10)%nat).
    { intros n Hn. destruct (Nat.le_gt_cases n 10) as [Hsmall|Hbig].
      - replace (n - 10)%nat with 0%nat by lia.
        change ((0 + 9) / 10)%nat with 0%nat.
        apply Nat.div_unique with (r := (n - 1)%nat); lia.
      - replace (n + 9)%nat with ((n - 10 + 9) + 1 * 10)%nat by lia.
        rewrite Nat.div_add by lia. lia. }
    change (List.length (firstn 10 (m :: rest) :: batchesOf fuel 10 (skipn 10 (m :: rest))))
      with (S (List.length (batchesOf fuel 10 (skipn 10 (m :: rest))))).
    rewrite IH by (rewrite length_skipn; cbn [List.length] in *; lia).
    rewrite length_skipn. apply E. cbn [List.length]. lia.
Qed.

(** X1.  The batches a cycle cuts the fetched messages into hold every
    message once and in the order of the answer; no batch is empty, none has
    more than ten messages, and there are as many as tens, rounded up. *)
Theorem messageBatches_partition :
  forall messages : list A,
    concat (messageBatches 10 messages) = messages
    /\ Forall (fun batch => (1 <= List.length batch <= 10)%nat) (messageBatches 10 messages)
    /\ List.length (messageBatches 10 messages) = ((List.length messages + 9) / 10)%nat.
Proof.
  intros messages. unfold messageBatches. split; [|split].
  - apply batchesOf_concat; lia.
  - apply batchesOf_sizes. lia.
  - now apply batchesOf_count.
Qed.

End Batches.

(** ** Errors that stay inside the poll loop *)

Section NoThrow.

Context {S : Type}.

(** Code that never throws, wherever it starts. *)
Definition NoThrow {A} (m : M S A) : Prop := forall s e, fst (m s) <> Throws e.

Lemma NoThrow_ret {A} (a : A) : NoThrow (ret a).
Proof. intros s e. discriminate. Qed.

Lemma NoThrow_get : NoThrow (get (S := S)).
Proof. intros s e. discriminate. Qed.

Lemma NoThrow_modify (f : S -> S) : NoThrow (modify f).
Proof. intros s e. discriminate. Qed.

Lemma NoThrow_bind {A B} (m : M S A) (k : A -> M S B) :
  NoThrow m -> (forall a, NoThrow (k a)) -> NoThrow (Async.bind m k).
Proof.
  intros Hm Hk s e. specialize (Hm s). unfold Async.bind.
  destruct (m s) as [[a|e'|] s1]; cbn [fst] in *.
  - apply Hk.
  - now destruct (Hm e').
  - discriminate.
Qed.

Lemma NoThrow_tryCatch {A} (m : M S A) (h : JsError -> M S A) :
  (forall e, NoThrow (h e)) -> NoThrow (Async.tryCatch m h).
Proof.
  intros Hh s e. unfold Async.tryCatch.
  destruct (m s) as [[a|e'|] s1]; cbn [fst]; try discriminate. apply Hh.
Qed.

Lemma NoThrow_forEach {A} (l : list A) (body : A -> M S unit) :
  (forall x, NoThrow (body x)) -> NoThrow (forEach l body).
Proof.
  intros Hb. induction l as [|x l IH]; cbn [forEach].
  - apply NoThrow_ret.
  - apply NoThrow_bind; [apply Hb | intros _; exact IH].
Qed.

End NoThrow.

Section LoopErrors.

Import AlfaFrensAIInteraction.

Context {World N : Type} {num : JsNumber N} {rt : Runtime World N}.
Variable config : AlfaFrensConfig.t.
Variable options : Options.t.

Lemma processMessage_no_throw (message : AlfaFrensMessage.t) :
  NoThrow (processMessage config options message).
Proof.
  unfold processMessage. apply NoThrow_bind; [apply NoThrow_get | intros s0].
  destruct (bool_decide _); [apply NoThrow_ret|].
  destruct (String.eqb _ _); [apply NoThrow_ret|].
  destruct (_ && _); [apply NoThrow_ret|].
  apply NoThrow_bind; [|intros _];
    (apply NoThrow_tryCatch; intros e; apply NoThrow_ret).
Qed.

Lemma processMessages_no_throw : NoThrow (processMessages config options).
Proof. unfold processMessages. apply NoThrow_tryCatch. intros e. apply NoThrow_ret. Qed.

Lemma helper_perform_no_throw {A} (c : Call N) (op : World -> A * World) :
  NoThrow (helper (perform c op)).
Proof.
  intros s e. unfold helper, Async.lift. rewrite perform_run. discriminate.
Qed.

Lemma start_no_throw (intervalSeconds : option Z) :
  NoThrow (start config options intervalSeconds).
Proof.
  unfold start. apply NoThrow_bind; [apply NoThrow_get | intros s0].
  destruct (isRunning s0); [apply NoThrow_ret|].
  apply NoThrow_bind; [apply NoThrow_modify | intros _].
  apply NoThrow_bind; [apply NoThrow_modify | intros _].
  apply NoThrow_bind.
  { apply NoThrow_tryCatch. intros e. apply NoThrow_ret. }
  intros _. destruct (AlfaFrensConfig.enablePost config); [|apply NoThrow_ret].
  apply NoThrow_bind; [apply helper_perform_no_throw | intros r; apply NoThrow_modify].
Qed.

(** X2.  Nothing thrown while a message is stored, evaluated, answered or
    replied to, and nothing thrown by the request for the messages, leaves
    the poll loop: [processMessageBatch], [processMessages] and [start]
    never throw. *)
Theorem poll_loop_never_throws :
  forall (s : State World N) (e : JsError),
    (forall batch, fst (processMessageBatch config options batch s) <> Throws e)
    /\ fst (processMessages config options s) <> Throws e
    /\ (forall intervalSeconds, fst (start config options intervalSeconds s) <> Throws e).
Proof.
  intros s e. split; [|split].
  - intros batch. apply NoThrow_forEach. apply processMessage_no_throw.
  - apply processMessages_no_throw.
  - intros intervalSeconds. apply start_no_throw.
Qed.

End LoopErrors.

(** ** Messages that are answered *)

Section Answers.

Import AlfaFrensAIInteraction.

Context {World N : Type} {num : JsNumber N} {rt : Runtime World N}.
Variable config : AlfaFrensConfig.t.
Variable options : Options.t.

(** The memory of a fetched message, lines 317-323. *)
Definition incoming (message : AlfaFrensMessage.t) : Memory.t N :=
  createAlfaFrensMemory
    (stringToUuid (AlfaFrensConfig.channelId config))
    (stringToUuid (Js.orElse (Some (AlfaFrensMessage.senderId message)) "user"))
    message false.

(** The inner [try] block, lines 365-381: the response is sent. *)
Definition reply (message : AlfaFrensMessage.t) (response : string)
  : M (State World N) unit :=
  step (Reply message response) ;;;
  result <-
    helper (AlfaFrensClient.sendMessage config response
              (AlfaFrensConfig.channelId config)
              (Some (AlfaFrensMessage.id message))) ;;
  trackSent result.

(** What follows the evaluation that says to respond, lines 349-381. *)
Definition respond (message : AlfaFrensMessage.t) : M (State World N) unit :=
  let responseConfig := getConfig options response in
  s <- get ;;
  step (Respond message) ;;;
  response <-
    helper (Utils.generateResponse
              (Js.orElse (Some (AlfaFrensMessage.content message)) "")
              (lastN 10 (messageHistory s))
              (fst responseConfig) (snd responseConfig)) ;;
  Async.tryCatch (reply message response) (fun error => ret tt).

(** The outer [try] block, lines 338-383. *)
Definition answer (message : AlfaFrensMessage.t) : M (State World N) unit :=
  let evaluationConfig := getConfig options evaluation in
  step (Evaluate message) ;;;
  shouldRespond <-
    helper (Utils.evaluateMessage message (fst evaluationConfig) (snd evaluationConfig)) ;;
  if negb shouldRespond then ret tt else respond message.

(** The body of the loop for a message that is not skipped. *)
Lemma processMessage_unskipped (message : AlfaFrensMessage.t) (s : State World N) :
  skips config s message = false ->
  processMessage config options message s =
    (Async.tryCatch
       (helper (call (CreateMemory (incoming message)) (createMemory (incoming message))))
       (fun error => ret tt) ;;;
     Async.tryCatch (answer message) (fun error => ret tt)) s.
Proof.
  unfold skips, processMessage. intros H.
  unfold Async.bind at 1. unfold get at 1. cbn iota beta.
  rewrite (orElse_empty (Js.removeFirst "@" (AlfaFrensMessage.senderUsername message))),
          (orElse_empty (Js.removeFirst "@" (AlfaFrensConfig.username config))).
  destruct (bool_decide _); [discriminate|].
  destruct (String.eqb _ _); [discriminate|].
  cbn [orb] in H. rewrite H. reflexivity.
Qed.

Lemma helper_run {A} (m : M (Sys World N) A) (a : State World N) :
  helper m a = (fst (m (sys a)), setSys (snd (m (sys a))) a).
Proof. unfold helper, Async.lift. now destruct (m (sys a)). Qed.

Lemma reply_keeps (P : Step -> Prop) (message : AlfaFrensMessage.t) (response : string) :
  P (Reply message response) -> Keeps P (reply message response).
Proof.
  intros HP. unfold reply.
  apply Keeps_bind; [now apply Keeps_step | intros _].
  apply Keeps_bind; [apply Keeps_helper | intros result; apply Keeps_trackSent].
Qed.

(** A message that is not skipped is evaluated, and a response to it is
    asked for, unless the memory store never answers. *)
Lemma processMessage_answers (message : AlfaFrensMessage.t) (s : State World N) :
  skips config s message = false ->
  fst (processMessage config options message s) <> Pending ->
  exists rest,
    steps (snd (processMessage config options message s))
    = (steps s ++ Evaluate message :: Respond message :: rest)%list.
Proof.
  intros Hskip. rewrite (processMessage_unskipped _ _ Hskip).
  unfold Async.bind at 1 2. unfold Async.tryCatch at 1 3.
  rewrite helper_run. cbn [fst snd].
  set (a1 := setSys _ s).
  assert (Hanswer : exists rest,
            steps (snd (Async.tryCatch (answer message) (fun _ => ret tt) a1))
            = (steps s ++ Evaluate message :: Respond message :: rest)%list).
  { rewrite tryCatch_swallow. unfold answer.
    unfold Async.bind at 1. unfold step at 1, modify at 1. cbn iota beta.
    unfold Async.bind at 1. rewrite helper_run.
    unfold Utils.evaluateMessage at 1 2. cbn [fst snd ret negb].
    unfold respond. unfold Async.bind at 1. unfold get at 1. cbn iota beta.
    unfold Async.bind at 1. unfold step at 1, modify at 1. cbn iota beta.
    match goal with
    | |- context [Async.bind ?m ?k ?a] =>
        assert (Hk : Keeps (fun _ => True) (Async.bind m k));
        [| destruct (Hk a) as (_ & _ & _ & _ & rest & Hrest & _); exists rest;
           rewrite Hrest; cbn [steps setSys sys]; now rewrite <- !app_assoc ]
    end.
    apply Keeps_bind; [apply Keeps_helper | intros text].
    apply Keeps_tryCatch; [now apply reply_keeps | intros e; apply Keeps_ret]. }
  destruct (fst (call _ _ (sys s))) as [[]|e|]; cbn [fst snd ret]; intros Hnot;
    try exact Hanswer.
  now destruct Hnot.
Qed.

(** X3.  When a batch has run to its end, every message of it that is not
    one of the agent's own (by the three tests, the sent ids taken at the
    end) has been evaluated, and a response to it has been asked for right
    after: the evaluator of the code says yes to every message. *)
Theorem processMessageBatch_answers :
  forall (batch : list AlfaFrensMessage.t) (s : State World N) (message : AlfaFrensMessage.t),
    fst (processMessageBatch config options batch s) = Returns tt ->
    In message batch ->
    skips config (snd (processMessageBatch config options batch s)) message = false ->
    exists before after,
      steps (snd (processMessageBatch config options batch s))
      = (steps s ++ before ++ Evaluate message :: Respond message :: after)%list.
Proof.
  unfold processMessageBatch. intros batch.
  induction batch as [|m batch IH]; intros s message Hret Hin Hskip; [destruct Hin|].
  cbn [forEach] in *.
  pose proof (processMessage_keeps config options m s) as Hm.
  pose proof (processMessage_no_throw config options m s) as Hno.
  pose proof (processMessage_answers m s) as Hans.
  pose proof (Keeps_forEach (fun _ => True) batch (processMessage config options)
                (fun x => Keeps_weaken _ _ _ (fun _ _ => I)
                            (processMessage_keeps config options x))) as Hrest.
  unfold Async.bind in *.
  destruct (processMessage config options m s) as [[[]|e|] s1]; cbn [fst snd] in *;
    try discriminate.
  specialize (Hrest s1). destruct Hrest as (Hsent & _ & _ & _ & new & Hnew & _).
  destruct Hin as [<-|Hin].
  - assert (Hfirst : skips config s m = false).
    { destruct (skips config s m) eqn:E; [|reflexivity].
      destruct Hm as (Hsub & _).
      rewrite (skips_mono config s _ m (transitivity Hsub Hsent) E) in Hskip.
      discriminate. }
    destruct (Hans Hfirst ltac:(discriminate)) as (rest & Hsteps).
    exists [], (rest ++ new)%list. rewrite Hnew, Hsteps. cbn [app].
    now rewrite <- app_assoc.
  - destruct (IH s1 message Hret Hin Hskip) as (before & after & Hsteps).
    destruct Hm as (_ & _ & _ & _ & first & Hfirst & _).
    exists (first ++ before)%list, after. rewrite Hsteps, Hfirst.
    now rewrite <- !app_assoc.
Qed.

End Answers.

Lemma processMessageBatch_answers_witness :
  exists before after,
    AlfaFrensAIInteraction.steps
      (snd (AlfaFrensAIInteraction.processMessageBatch
              (rt := Scripted.runtime (channelScript [])) botConfig noOptions
              [aliceMessage; bobMessage] runningLoop))
    = (AlfaFrensAIInteraction.steps runningLoop ++ before
       ++ AlfaFrensAIInteraction.Evaluate bobMessage
          :: AlfaFrensAIInteraction.Respond bobMessage :: after)%list.
Proof.
  apply (processMessageBatch_answers (rt := Scripted.runtime (channelScript []))
           botConfig noOptions [aliceMessage; bobMessage] runningLoop bobMessage).
  - vm_compute. reflexivity.
  - right. left. reflexivity.
  - vm_compute. reflexivity.
Defined.

(** ** Replies that are remembered *)

Section Echo.

Import AlfaFrensAIInteraction.

Context {World N : Type} {num : JsNumber N} {rt : Runtime World N}.
Variable config : AlfaFrensConfig.t.
Variable options : Options.t.

(** The ids the channel has given so far to the messages posted to it, read
    off the world: an answered post adds the id of its answer, which is not
    empty, and nothing else adds or removes an id. *)
Variable issued : World -> gset string.

Hypothesis post_issues :
  forall path body w,
    match fst (httpPost path body w) with
    | Returns r =>
        Js.nonEmpty (AlfaFrensSendMessageResponse.messageId r) = true
        /\ issued (snd (httpPost path body w))
           = {[ AlfaFrensSendMessageResponse.messageId r ]} ∪ issued w
    | _ => issued (snd (httpPost path body w)) = issued w
    end.

Hypothesis clock_issues : forall w, issued (snd (Date_now w)) = issued w.
Hypothesis generation_issues :
  forall args w, issued (snd (generateText args w)) = issued w.
Hypothesis store_issues : forall memory w, issued (snd (createMemory memory w)) = issued w.
Hypothesis facts_issues : forall fact w, issued (snd (getRelevantFacts fact w)) = issued w.
Hypothesis contradictions_issues :
  forall fact existing w, issued (snd (detectContradictions fact existing w)) = issued w.
Hypothesis relationships_issues :
  forall fact message w, issued (snd (extractRelationships fact message w)) = issued w.
Hypothesis search_issues : forall query w, issued (snd (webSearch query w)) = issued w.
Hypothesis knowledge_issues :
  forall query limit w, issued (snd (getKnowledge query limit w)) = issued w.

(** The ids are the same before and after. *)
Definition SameIds (t t' : Sys World N) : Prop := issued (world t') = issued (world t).

Definition Silent (f : World -> World) : Prop := forall w, issued (f w) = issued w.

(** Every id the channel has given, but for those of [known], is among the
    sent ids: this is kept from [s] to [s']. *)
Definition Remembers (s s' : State World N) : Prop :=
  forall known : gset string,
    issued (world (sys s)) ⊆ known ∪ sentMessageIds s ->
    issued (world (sys s')) ⊆ known ∪ sentMessageIds s'.

Lemma SameIds_call (c : Call N) (f : World -> World) (t : Sys World N) :
  Silent f -> SameIds t (mkSys (f (world t)) (calls t ++ [c])).
Proof. intros Hf. apply Hf. Qed.

(** What [sendMessage] comes to: one post, and its answer as a message. *)
Lemma sendMessage_post (content roomId : string) (inReplyTo : option string)
    (t : Sys World N) :
  exists path body,
    AlfaFrensClient.sendMessage config content roomId inReplyTo t
    = (match fst (httpPost path body (world t)) with
       | Returns r =>
           Returns [AlfaFrensClient.prepareMessageAndMemory config r content roomId]
       | Throws e => Throws e
       | Pending => Pending
       end,
       mkSys (snd (httpPost path body (world t))) (calls t ++ [HttpPost path body])).
Proof.
  assert (H : forall text replyTo, exists path body,
             AlfaFrensApi.sendMessageWithOptions text replyTo t
             = (fst (httpPost path body (world t)),
                mkSys (snd (httpPost path body (world t))) (calls t ++ [HttpPost path body]))).
  { intros text replyTo. unfold AlfaFrensApi.sendMessageWithOptions. cbv zeta.
    rewrite tryCatch_rethrow, bind_ret_r. unfold AlfaFrensApi.fetchPost.
    rewrite call_run. eauto. }
  unfold AlfaFrensClient.sendMessage. rewrite tryCatch_rethrow. unfold Async.bind.
  assert (Hpost : exists path body,
             match inReplyTo with
             | Some parent =>
                 if Js.nonEmpty parent
                 then AlfaFrensApi.replyMessage content parent
                 else AlfaFrensApi.sendMessage content
             | None => AlfaFrensApi.sendMessage content
             end t
             = (fst (httpPost path body (world t)),
                mkSys (snd (httpPost path body (world t))) (calls t ++ [HttpPost path body]))).
  { destruct inReplyTo as [parent|]; [destruct (Js.nonEmpty parent)|]; apply H. }
  destruct Hpost as (path & body & ->). exists path, body.
  now destruct (fst (httpPost path body (world t))).
Qed.

Lemma reply_remembers (content roomId : string) (inReplyTo : option string)
    (s : State World N) :
  Remembers s
    (snd (Async.bind (helper (AlfaFrensClient.sendMessage config content roomId inReplyTo))
            trackSent s)).
Proof.
  intros known Hknown. unfold Async.bind, helper, Async.lift.
  destruct (sendMessage_post content roomId inReplyTo (sys s)) as (path & body & ->).
  pose proof (post_issues path body (world (sys s))) as Hpost.
  destruct (fst (httpPost path body (world (sys s)))) as [r|e|]; cbn [snd].
  - destruct Hpost as (Hid & Hissued).
    unfold trackSent, AlfaFrensClient.prepareMessageAndMemory. cbn [AlfaFrensMessage.id].
    rewrite Hid. cbn. rewrite Hissued. intros x Hx.
    apply elem_of_union in Hx as [Hx|Hx]; apply elem_of_union.
    + right. apply elem_of_union. now left.
    + apply Hknown, elem_of_union in Hx as [Hx|Hx]; [now left|].
      right. apply elem_of_union. now right.
  - cbn. now rewrite Hpost.
  - cbn. now rewrite Hpost.
Qed.

Lemma processMessageBatch_remembers (batch : list AlfaFrensMessage.t) (s : State World N) :
  Remembers s (snd (processMessageBatch config options batch s)).
Proof.
  revert s.
  apply (processMessageBatch_follows config options SameIds Remembers).
  - intros t. reflexivity.
  - intros s known H. exact H.
  - intros s1 s2 s3 H12 H23 known H. apply H23, H12, H.
  - intros s t Ht known H. cbn. unfold SameIds in Ht. now rewrite Ht.
  - intros s e known H. exact H.
  - apply (createMemory_acts SameIds Silent SameIds_call). intros memory w.
    apply store_issues.
  - apply (generateResponse_acts SameIds Silent); unfold Silent, SameIds; auto.
    + intros t1 t2 t3 H12 H23. now rewrite H23.
    + intros c f t Hf. apply Hf.
  - intros content roomId inReplyTo s. apply reply_remembers.
Qed.

(** X4.  Let the world keep the ids the channel gives to the posts it
    answers, none of them empty, each reply its own if the channel is so.
    Then every id the channel has given during a batch is among the sent
    ids when the batch ends, and no later batch evaluates a fetched message
    that carries such an id: the agent does not answer its own reply. *)
Theorem reply_is_remembered :
  forall (batch : list AlfaFrensMessage.t) (s : State World N),
    let s' := snd (processMessageBatch config options batch s) in
    (forall id,
       id ∈ issued (world (sys s')) ->
       id ∈ issued (world (sys s)) \/ id ∈ sentMessageIds s')
    /\ forall (later : list AlfaFrensMessage.t) (echo : AlfaFrensMessage.t),
         AlfaFrensMessage.id echo ∈ issued (world (sys s')) ->
         AlfaFrensMessage.id echo ∉ issued (world (sys s)) ->
         exists new',
           steps (snd (processMessageBatch config options later s'))
           = (steps s' ++ new')%list
           /\ ~ In (Evaluate echo) new'.
Proof.
  intros batch s s'.
  assert (Hids : forall id,
             id ∈ issued (world (sys s')) ->
             id ∈ issued (world (sys s)) \/ id ∈ sentMessageIds s').
  { intros id Hid.
    pose proof (processMessageBatch_remembers batch s (issued (world (sys s)))
                  (union_subseteq_l _ _)) as Hsub.
    apply Hsub in Hid. now apply elem_of_union in Hid. }
  split; [exact Hids|]. intros later echo Hecho Hnew.
  assert (Hsent : AlfaFrensMessage.id echo ∈ sentMessageIds s').
  { destruct (Hids _ Hecho) as [H|H]; [now destruct Hnew | exact H]. }
  assert (Hskip : skips config s' echo = true).
  { unfold skips. rewrite (bool_decide_eq_true_2 _ Hsent). reflexivity. }
  destruct (processMessageBatch_skips config options echo later s' Hskip)
    as (_ & _ & _ & _ & new' & Hnew' & Hall).
  exists new'. split; [exact Hnew'|]. intros Hev.
  rewrite List.Forall_forall in Hall. now apply (Hall _ Hev).
Qed.

End Echo.

(** A channel that numbers the messages posted to it; its world is the
    list of the ids given so far, the newest first.  The other services are
    those of a quiet script, and the clock stands still. *)
Definition numberedChannel : Runtime (list string) Q := {|
  agentId := "agent";
  characterName := None;
  stringToUuid s := s;
  JSON_parse _ := None;
  Date_getTime := Scripted.isoGetTime;
  toISOString t := showZ t;
  getSetting _ := None;
  parseInt _ := None;
  processTemplate template data :=
    Returns (template ++ match data with
                         | Some d => TemplateData.message_content d
                         | None => ""
                         end);
  Date_now w := (0%Z, w);
  Math_random w := (0%Q, w);
  generateText args w := (Settles 0 (inr "ok"), w);
  createMemory _ w := (Returns tt, w);
  getRelevantFacts _ w := (Returns [], w);
  detectContradictions fact _ w := (Returns [], w);
  extractRelationships _ _ w := (Returns None, w);
  webSearchService := false;
  webSearch _ w := (Returns None, w);
  getKnowledge _ _ w := (Returns [], w);
  httpGet _ w := (Returns [], w);
  httpPost _ _ w :=
    let id := "sent-" ++ showZ (Z.of_nat (List.length w)) in
    (Returns (AlfaFrensSendMessageResponse.mk "success" id "2025-01-01T00:00:00.000Z"),
     id :: w);
  cacheGet _ w := (Returns None, w);
  cacheSet _ _ w := (Returns tt, w)
|}.

Lemma reply_is_remembered_witness :
  let s' :=
    snd (AlfaFrensAIInteraction.processMessageBatch (rt := numberedChannel)
           botConfig noOptions [bobMessage; aliceMessage]
           (AlfaFrensAIInteraction.create 1000 (mkSys [] []))) in
  "sent-0" ∈ AlfaFrensAIInteraction.sentMessageIds s'
  /\ "sent-1" ∈ AlfaFrensAIInteraction.sentMessageIds s'.
Proof.
  intros s'.
  destruct (reply_is_remembered (rt := numberedChannel) botConfig noOptions
              (fun w => list_to_set w)
              (fun _ _ _ => conj eq_refl eq_refl)
              (fun _ => eq_refl) (fun _ _ => eq_refl) (fun _ _ => eq_refl)
              (fun _ _ => eq_refl) (fun _ _ _ => eq_refl) (fun _ _ _ => eq_refl)
              (fun _ _ => eq_refl) (fun _ _ _ => eq_refl)
              [bobMessage; aliceMessage]
              (AlfaFrensAIInteraction.create 1000 (mkSys [] []))) as (Hids & _).
  fold s' in Hids.
  assert (Hworld : world (AlfaFrensAIInteraction.sys s') = ["sent-1"; "sent-0"])
    by (vm_compute; reflexivity).
  rewrite Hworld in Hids. split.
  - destruct (Hids "sent-0") as [H|H]; [| | exact H].
    + apply elem_of_list_to_set, list_elem_of_In. right. now left.
    + cbn in H. now apply not_elem_of_empty in H.
  - destruct (Hids "sent-1") as [H|H]; [| | exact H].
    + apply elem_of_list_to_set, list_elem_of_In. now left.
    + cbn in H. now apply not_elem_of_empty in H.
Defined.

(** ** A generation that does not settle in time *)

Section Late.

Import AlfaFrensAIInteraction.

Context {World N : Type} {num : JsNumber N} {rt : Runtime World N}.
Variable config : AlfaFrensConfig.t.
Variable options : Options.t.

(** Code that does not return, wherever it starts: it throws, or it does
    not settle. *)
Definition NeverReturns {S A} (m : M S A) : Prop :=
  forall s a, fst (m s) <> Returns a.

Lemma NeverReturns_bind_l {S A B} (m : M S A) (k : A -> M S B) :
  NeverReturns m -> NeverReturns (Async.bind m k).
Proof.
  intros Hm s b. specialize (Hm s). unfold Async.bind.
  destruct (m s) as [[a|e|] s1]; cbn [fst] in *; try discriminate.
  now destruct (Hm a).
Qed.

Lemma NeverReturns_bind_r {S A B} (m : M S A) (k : A -> M S B) :
  (forall a, NeverReturns (k a)) -> NeverReturns (Async.bind m k).
Proof.
  intros Hk s b. unfold Async.bind.
  destruct (m s) as [[a|e|] s1]; cbn [fst]; try discriminate. apply Hk.
Qed.

(** No generation settles within 30000 ms. *)
Hypothesis generation_is_late :
  forall args w, NotSettledWithin 30000 (fst (generateText args w)).

Lemma generateLLMResponse_late (context : string) (modelClass : option ModelClass)
    (traceId : string) :
  NeverReturns (generateLLMResponse context modelClass traceId).
Proof.
  intros s a. rewrite generateLLMResponse_run. cbn [fst].
  rewrite (raced_timeout _ (generation_is_late _ _)). discriminate.
Qed.

Lemma generateResponse_late (message : string) (history : list AlfaFrensMessage.t)
    (template : string) (modelClass : option ModelClass) :
  NeverReturns (generateResponse message history template modelClass).
Proof.
  unfold generateResponse. apply NeverReturns_bind_l. unfold draftResponse.
  do 3 (apply NeverReturns_bind_r; intros ?).
  apply NeverReturns_bind_l, generateLLMResponse_late.
Qed.

Definition NoReply (e : Step) : Prop := forall message response, e <> Reply message response.

Lemma Keeps_bind_never {A B} (P : Step -> Prop) (m : M (State World N) A)
    (k : A -> M (State World N) B) :
  NeverReturns m -> Keeps P m -> Keeps P (Async.bind m k).
Proof.
  intros Hnever Hm s. specialize (Hm s). specialize (Hnever s). unfold Async.bind.
  destruct (m s) as [[a|e|] s1]; cbn [fst snd] in *; try exact Hm.
  now destruct (Hnever a).
Qed.

Lemma helper_never {A} (m : M (Sys World N) A) :
  NeverReturns m -> NeverReturns (helper m).
Proof. intros Hm a x. rewrite helper_run. apply Hm. Qed.

Lemma processMessage_late (message : AlfaFrensMessage.t) :
  Keeps NoReply (processMessage config options message).
Proof.
  unfold processMessage. apply Keeps_bind; [apply Keeps_get | intros s0].
  destruct (bool_decide _); [apply Keeps_ret|].
  destruct (String.eqb _ _); [apply Keeps_ret|].
  destruct (_ && _); [apply Keeps_ret|].
  apply Keeps_bind.
  { apply Keeps_tryCatch; [apply Keeps_helper | intros e; apply Keeps_ret]. }
  intros _. apply Keeps_tryCatch; [|intros e; apply Keeps_ret].
  apply Keeps_bind; [apply Keeps_step; intros m r; discriminate | intros _].
  apply Keeps_bind; [apply Keeps_helper | intros shouldRespond].
  destruct (negb shouldRespond); [apply Keeps_ret|].
  apply Keeps_bind; [apply Keeps_get | intros s1].
  apply Keeps_bind; [apply Keeps_step; intros m r; discriminate | intros _].
  apply Keeps_bind_never; [|apply Keeps_helper].
  apply helper_never, generateResponse_late.
Qed.

(** X5.  While the generation service settles no request within 30
    seconds, no reply is sent: a cycle of the poll loop, whatever the
    messages it fetches, sends no response to the channel, and neither moves
    the running flag nor forgets a sent id. *)
Theorem late_generation_sends_no_reply :
  forall (s : State World N),
    let s' := snd (processMessages config options s) in
    isRunning s' = isRunning s
    /\ sentMessageIds s ⊆ sentMessageIds s'
    /\ exists new,
         steps s' = (steps s ++ new)%list
         /\ forall message response, ~ In (Reply message response) new.
Proof.
  intros s s'. subst s'.
  assert (Hloop : forall messages a,
            Evolves NoReply a (snd (batchLoop config options messages a))).
  { intros messages. apply Keeps_forEach. intros batch.
    apply Keeps_tryCatch; [|intros e; apply Keeps_ret].
    apply Keeps_forEach. intros m. apply processMessage_late. }
  assert (Hcycle : exists new,
            isRunning (snd (processMessages config options s)) = isRunning s
            /\ sentMessageIds s ⊆ sentMessageIds (snd (processMessages config options s))
            /\ steps (snd (processMessages config options s)) = (steps s ++ new)%list
            /\ Forall NoReply new).
  { destruct (isRunning s) eqn:Hrun.
    - destruct (fetch s (sys s)) as [r t] eqn:Hfetch.
      rewrite (processMessages_run _ _ _ _ _ Hrun Hfetch).
      assert (Hfetched : exists new,
                isRunning (fetched s t) = true
                /\ sentMessageIds s ⊆ sentMessageIds (fetched s t)
                /\ steps (fetched s t) = (steps s ++ new)%list /\ Forall NoReply new).
      { exists [Fetch (lastProcessedTime s)]. cbn [fetched isRunning sentMessageIds steps].
        split; [exact Hrun|]. split; [reflexivity|]. split; [reflexivity|].
        repeat constructor. intros m x. discriminate. }
      destruct r as [messages|e|]; try exact Hfetched.
      destruct (List.length messages =? 0)%nat; [exact Hfetched|].
      destruct (Hloop messages (received messages (fetched s t)))
        as (Hsub & _ & Hflag & _ & new & Hnew & Hall).
      exists (Fetch (lastProcessedTime s) :: new). rewrite Hflag, Hnew.
      split; [exact Hrun|]. split; [exact Hsub|]. split.
      + cbn. now rewrite <- app_assoc.
      + constructor; [intros m x; discriminate | exact Hall].
    - exists []. unfold processMessages. rewrite tryCatch_swallow.
      unfold Async.bind, get. rewrite Hrun. cbn [negb snd ret]. rewrite app_nil_r.
      split; [exact Hrun|]. split; [reflexivity|]. split; [reflexivity | constructor]. }
  destruct Hcycle as (new & Hflag & Hsub & Hnew & Hall).
  split; [exact Hflag|]. split; [exact Hsub|]. exists new. split; [exact Hnew|].
  intros message response Hin. rewrite List.Forall_forall in Hall.
  now destruct (Hall _ Hin message response).
Qed.

End Late.

(** An environment whose channel holds one message and whose generation
    service never answers. *)
Definition lateScript : Scripted.Script Q :=
  Scripted.mkScript "agent" None (Returns [aliceMessage])
    (Returns (AlfaFrensSendMessageResponse.mk "success" "sent-1" "2025-01-01T00:00:00.000Z"))
    (fun _ => Unsettled) (fun _ => None) (fun _ => []) (Returns tt).

Lemma late_generation_sends_no_reply_witness :
  exists new,
    AlfaFrensAIInteraction.steps
      (snd (AlfaFrensAIInteraction.processMessages (rt := Scripted.runtime lateScript)
              botConfig noOptions runningLoop))
    = new
    /\ forall message response, ~ In (AlfaFrensAIInteraction.Reply message response) new.
Proof.
  destruct (late_generation_sends_no_reply (rt := Scripted.runtime lateScript)
              botConfig noOptions (fun _ _ => I) runningLoop)
    as (_ & _ & new & Hnew & Hno).
  exists new. split; [exact Hnew | exact Hno].
Defined.

(** ** What a cycle leaves as it is *)

Section Respects.

Import AlfaFrensAIInteraction.

Context {World N : Type} {num : JsNumber N} {rt : Runtime World N}.
Variable config : AlfaFrensConfig.t.
Variable options : Options.t.

(** A relation between the state before and the state after, kept by every
    assignment a cycle makes. *)
Variable R : State World N -> State World N -> Prop.
Hypothesis R_refl : forall s, R s s.
Hypothesis R_trans : forall s1 s2 s3, R s1 s2 -> R s2 s3 -> R s1 s3.
Hypothesis R_sys : forall s t, R s (setSys t s).
Hypothesis R_step : forall s e, R s (snd (step e s)).
Hypothesis R_sent : forall s id, R s (addSentMessageId id s).
Hypothesis R_history : forall s h, R s (setMessageHistory h s).
Hypothesis R_checkpoint : forall s t, R s (setLastProcessedTime t s).

Definition Respects {A} (m : M (State World N) A) : Prop := forall s, R s (snd (m s)).

Lemma Respects_ret {A} (a : A) : Respects (ret a).
Proof. intros s. apply R_refl. Qed.

Lemma Respects_get : Respects (get (S := State World N)).
Proof. intros s. apply R_refl. Qed.

Lemma Respects_bind {A B} (m : M (State World N) A) (k : A -> M (State World N) B) :
  Respects m -> (forall a, Respects (k a)) -> Respects (Async.bind m k).
Proof.
  intros Hm Hk s. specialize (Hm s). unfold Async.bind.
  destruct (m s) as [[a|e|] s1]; cbn [snd] in *; try exact Hm.
  exact (R_trans _ _ _ Hm (Hk a s1)).
Qed.

Lemma Respects_tryCatch {A} (m : M (State World N) A) (h : JsError -> M (State World N) A) :
  Respects m -> (forall e, Respects (h e)) -> Respects (Async.tryCatch m h).
Proof.
  intros Hm Hh s. specialize (Hm s). unfold Async.tryCatch.
  destruct (m s) as [[a|e|] s1]; cbn [snd] in *; try exact Hm.
  exact (R_trans _ _ _ Hm (Hh e s1)).
Qed.

Lemma Respects_forEach {A} (l : list A) (body : A -> M (State World N) unit) :
  (forall x, Respects (body x)) -> Respects (forEach l body).
Proof.
  intros Hb. induction l as [|x l IH]; cbn [forEach].
  - apply Respects_ret.
  - apply Respects_bind; [apply Hb | intros _; exact IH].
Qed.

Lemma Respects_helper {A} (m : M (Sys World N) A) : Respects (helper m).
Proof. intros s. rewrite helper_run. apply R_sys. Qed.

Lemma Respects_step (e : Step) : Respects (step e).
Proof. intros s. apply R_step. Qed.

Lemma Respects_trackSent (result : list (Memory.t N * AlfaFrensMessage.t)) :
  Respects (trackSent result).
Proof.
  intros s. unfold trackSent. destruct result as [|[memory sent] rest]; [apply R_refl|].
  destruct (Js.nonEmpty (AlfaFrensMessage.id sent)); [apply R_sent | apply R_refl].
Qed.

Lemma processMessage_respects (message : AlfaFrensMessage.t) :
  Respects (processMessage config options message).
Proof.
  unfold processMessage. apply Respects_bind; [apply Respects_get | intros s0].
  destruct (bool_decide _); [apply Respects_ret|].
  destruct (String.eqb _ _); [apply Respects_ret|].
  destruct (_ && _); [apply Respects_ret|].
  apply Respects_bind.
  { apply Respects_tryCatch; [apply Respects_helper | intros e; apply Respects_ret]. }
  intros _. apply Respects_tryCatch; [|intros e; apply Respects_ret].
  apply Respects_bind; [apply Respects_step | intros _].
  apply Respects_bind; [apply Respects_helper | intros shouldRespond].
  destruct (negb shouldRespond); [apply Respects_ret|].
  apply Respects_bind; [apply Respects_get | intros s1].
  apply Respects_bind; [apply Respects_step | intros _].
  apply Respects_bind; [apply Respects_helper | intros text].
  apply Respects_tryCatch; [|intros e; apply Respects_ret].
  apply Respects_bind; [apply Respects_step | intros _].
  apply Respects_bind; [apply Respects_helper | intros result].
  apply Respects_trackSent.
Qed.

Lemma processMessages_respects : Respects (processMessages config options).
Proof.
  unfold processMessages. apply Respects_tryCatch; [|intros e; apply Respects_ret].
  apply Respects_bind; [apply Respects_get | intros s0].
  destruct (negb (isRunning s0)); [apply Respects_ret|].
  apply Respects_bind; [apply Respects_step | intros _].
  apply Respects_bind; [apply Respects_helper | intros messages].
  destruct (List.length messages =? 0)%nat; [apply Respects_ret|].
  apply Respects_bind; [intros s; apply R_history | intros _].
  apply Respects_bind; [intros s; apply R_checkpoint | intros _].
  apply Respects_forEach. intros batch.
  apply Respects_tryCatch; [|intros e; apply Respects_ret].
  apply Respects_forEach. intros m. apply processMessage_respects.
Qed.

End Respects.

(** The timers and the running flag are the same. *)
Definition SameTimers {World N : Type} (s s' : AlfaFrensAIInteraction.State World N) : Prop :=
  AlfaFrensAIInteraction.pollIntervalId s' = AlfaFrensAIInteraction.pollIntervalId s
  /\ AlfaFrensAIInteraction.postIntervalId s' = AlfaFrensAIInteraction.postIntervalId s
  /\ AlfaFrensAIInteraction.isRunning s' = AlfaFrensAIInteraction.isRunning s.

Lemma processMessages_timers {World N : Type} {num : JsNumber N} {rt : Runtime World N}
    (config : AlfaFrensConfig.t) (options : AlfaFrensAIInteraction.Options.t)
    (s : AlfaFrensAIInteraction.State World N) :
  SameTimers s (snd (AlfaFrensAIInteraction.processMessages config options s)).
Proof.
  apply (processMessages_respects config options SameTimers); unfold SameTimers.
  - intros a. repeat split.
  - intros a b c (A1 & B1 & C1) (A2 & B2 & C2). repeat split; congruence.
  - intros a t. repeat split.
  - intros a e. repeat split.
  - intros a id. repeat split.
  - intros a h. repeat split.
  - intros a t. repeat split.
Qed.

(** ** Cycles of the poll loop *)

Section Cycles.

Import AlfaFrensAIInteraction.

Context {World N : Type} {num : JsNumber N} {rt : Runtime World N}.
Variable config : AlfaFrensConfig.t.
Variable options : Options.t.

(** A cycle, with what it comes to, by the answer to its request. *)
Lemma processMessages_full (s : State World N) r t :
  isRunning s = true ->
  fetch s (sys s) = (r, t) ->
  processMessages config options s =
    match r with
    | Returns messages =>
        if (List.length messages =? 0)%nat
        then (Returns tt, fetched s t)
        else
          let after := batchLoop config options messages (received messages (fetched s t)) in
          (match fst after with Pending => Pending | _ => Returns tt end, snd after)
    | Throws _ => (Returns tt, fetched s t)
    | Pending => (Pending, fetched s t)
    end.
Proof.
  intros Hrun Hfetch. unfold processMessages.
  unfold Async.tryCatch at 1.
  unfold Async.bind at 1. unfold get at 1. cbn iota beta. rewrite Hrun. cbn [negb].
  unfold Async.bind at 1. unfold step at 1, modify at 1. cbn iota beta.
  unfold Async.bind at 1. unfold helper at 1, Async.lift at 1. cbn [sys].
  fold (fetch s). rewrite Hfetch.
  destruct r as [messages|e|]; try reflexivity.
  destruct (List.length messages =? 0)%nat; [reflexivity|].
  unfold Async.bind at 1. unfold modify at 1. cbn iota beta.
  unfold Async.bind at 1. unfold modify at 1. cbn iota beta.
  fold (batchLoop config options messages).
  change (setLastProcessedTime _ (setMessageHistory _ ?a)) with (received messages a).
  cbv zeta.
  destruct (batchLoop config options messages _) as [[[]|e|] s1]; reflexivity.
Qed.

(** The request of a cycle is the request of the channel's endpoint. *)
Lemma fetch_outcome (s : State World N) :
  exists url w, fst (fetch s (sys s)) = fst (httpGet url w).
Proof.
  unfold fetch, AlfaFrensClient.getMessages.
  rewrite tryCatch_rethrow, bind_ret_r, getMessages_run.
  destruct (AlfaFrensApi.truthy _).
  - cbn [fst]. eauto.
  - destruct (Date_now _) as [now w]. cbn [fst]. eauto.
Qed.

(** X6.  While the endpoint of the channel fails, a cycle of the running
    loop returns normally; it has asked for the messages since the
    checkpoint and leaves the checkpoint, the history and the sent ids as
    they were, so that the next cycle asks for the same messages again. *)
Theorem failed_fetch_keeps_checkpoint :
  forall (e : JsError) (s : State World N),
    (forall url w, fst (httpGet url w) = Throws e) ->
    isRunning s = true ->
    let s' := snd (processMessages config options s) in
    fst (processMessages config options s) = Returns tt
    /\ steps s' = (steps s ++ [Fetch (lastProcessedTime s)])%list
    /\ lastProcessedTime s' = lastProcessedTime s
    /\ messageHistory s' = messageHistory s
    /\ sentMessageIds s' = sentMessageIds s
    /\ isRunning s' = true.
Proof.
  intros e s Hdown Hrun s'. subst s'.
  destruct (fetch s (sys s)) as [r t] eqn:Hfetch.
  destruct (fetch_outcome s) as (url & w & Hout).
  rewrite Hfetch, Hdown in Hout. cbn [fst] in Hout. subst r.
  rewrite (processMessages_full _ _ _ Hrun Hfetch). cbn [fst snd].
  repeat split. exact Hrun.
Qed.

Lemma lastN_length {A} (n : nat) (l : list A) : (List.length (lastN n l) <= n)%nat.
Proof. unfold lastN. rewrite length_skipn. lia. Qed.

Lemma lastN_app {A} (n : nat) (older newer : list A) :
  exists kept, lastN n (older ++ newer) = (kept ++ lastN n newer)%list.
Proof.
  unfold lastN. rewrite length_app.
  destruct (Nat.le_gt_cases (List.length newer) n) as [Hfew|Hmany].
  - exists (skipn (List.length older + List.length newer - n) older).
    replace (List.length newer - n)%nat with 0%nat by lia. cbn [skipn].
    rewrite skipn_app.
    replace (List.length older + List.length newer - n - List.length older)%nat
      with 0%nat by lia.
    reflexivity.
  - exists []. rewrite skipn_app.
    rewrite (skipn_all2 older) by lia. cbn [app]. f_equal. lia.
Qed.

(** X7.  The history never grows beyond fifty messages: a history of at
    most fifty messages has at most fifty after a cycle, and after a cycle
    that received messages the history is the last fifty of the old history
    followed by these messages, the newest last. *)
Theorem history_is_bounded :
  forall (s : State World N),
    let s' := snd (processMessages config options s) in
    ((List.length (messageHistory s) <= 50)%nat ->
     (List.length (messageHistory s') <= 50)%nat)
    /\ forall messages t,
         isRunning s = true ->
         fetch s (sys s) = (Returns messages, t) ->
         messages <> [] ->
         messageHistory s' = lastN 50 (messageHistory s ++ messages)
         /\ (List.length (messageHistory s') <= 50)%nat
         /\ exists kept, messageHistory s' = (kept ++ lastN 50 messages)%list.
Proof.
  intros s s'. subst s'.
  assert (Hreceived : forall messages t,
            isRunning s = true ->
            fetch s (sys s) = (Returns messages, t) ->
            messages <> [] ->
            messageHistory (snd (processMessages config options s))
            = lastN 50 (messageHistory s ++ messages)).
  { intros messages t Hrun Hfetch Hsome.
    rewrite (processMessages_run _ _ _ _ _ Hrun Hfetch).
    destruct messages as [|m rest]; [now destruct Hsome|]. cbn [List.length Nat.eqb].
    destruct (batchLoop_keeps config options (m :: rest)
                (received (m :: rest) (fetched s t))) as (_ & _ & _ & Hhistory & _).
    rewrite Hhistory. reflexivity. }
  split.
  - intros Hbound. destruct (isRunning s) eqn:Hrun.
    + destruct (fetch s (sys s)) as [r t] eqn:Hfetch.
      destruct r as [[|m rest]|e|].
      * rewrite (processMessages_run _ _ _ _ _ Hrun Hfetch). exact Hbound.
      * rewrite (Hreceived _ _ eq_refl eq_refl) by discriminate. apply lastN_length.
      * rewrite (processMessages_run _ _ _ _ _ Hrun Hfetch). exact Hbound.
      * rewrite (processMessages_run _ _ _ _ _ Hrun Hfetch). exact Hbound.
    + unfold processMessages. rewrite tryCatch_swallow.
      unfold Async.bind, get. rewrite Hrun. exact Hbound.
  - intros messages t Hrun Hfetch Hsome. rewrite (Hreceived _ _ Hrun Hfetch Hsome).
    split; [reflexivity|]. split; [apply lastN_length | apply lastN_app].
Qed.

(** X8.  Once the loop is stopped, a cycle that a timer still triggers does
    nothing: no request is made and the state is left as it is.  [stop]
    itself clears both timers of a running loop and keeps the checkpoint,
    the history and the sent ids. *)
Theorem stopped_loop_is_quiet :
  forall (s : State World N),
    let s' := snd (stop s) in
    processMessages config options s' = (Returns tt, s')
    /\ isRunning s' = false
    /\ (isRunning s = true -> pollIntervalId s' = None /\ postIntervalId s' = None)
    /\ lastProcessedTime s' = lastProcessedTime s
    /\ messageHistory s' = messageHistory s
    /\ sentMessageIds s' = sentMessageIds s
    /\ steps s' = steps s.
Proof.
  intros s s'. subst s'.
  assert (Hquiet : forall a : State World N,
            isRunning a = false -> processMessages config options a = (Returns tt, a)).
  { intros a Ha. unfold processMessages, Async.tryCatch, Async.bind, get.
    rewrite Ha. reflexivity. }
  unfold stop, Async.bind, get, modify. destruct (isRunning s) eqn:Hrun; cbn [negb snd ret].
  - split; [now apply Hquiet|]. repeat split.
  - split; [now apply Hquiet|]. repeat split; [exact Hrun | discriminate | discriminate].
Qed.

End Cycles.

(** An environment whose channel fails. *)
Definition downScript : Scripted.Script Q :=
  Scripted.mkScript "agent" None (Throws "API request failed: Bad Gateway")
    (Throws "API request failed: Bad Gateway")
    (fun _ => Settles 0 (inr "ok")) (fun _ => None) (fun _ => []) (Returns tt).

Lemma failed_fetch_keeps_checkpoint_witness :
  AlfaFrensAIInteraction.processMessages (rt := Scripted.runtime downScript)
    botConfig noOptions runningLoop
  = (Returns tt,
     AlfaFrensAIInteraction.mkState true [] (Ms 1000) None None ∅
       [AlfaFrensAIInteraction.Fetch (Ms 1000)]
       (mkSys 1000%Z [HttpGet "/api/ai/getChannelMessages?since=1000"])).
Proof.
  pose proof (failed_fetch_keeps_checkpoint (rt := Scripted.runtime downScript)
                botConfig noOptions "API request failed: Bad Gateway" runningLoop
                (fun _ _ => eq_refl) eq_refl) as (Hreturns & _).
  vm_compute in Hreturns. vm_compute. reflexivity.
Defined.

(** ** The timers [start] sets *)

Section Timers.

Import AlfaFrensAIInteraction.

Context {World N : Type} {num : JsNumber N} {rt : Runtime World N}.
Variable config : AlfaFrensConfig.t.
Variable options : Options.t.

Local Open Scope Z_scope.

Lemma Qfloor_between (r : Q) (low high : Z) :
  (0 <= r)%Q -> (r < 1)%Q -> low <= high ->
  let interval := Qfloor (r * inject_Z (high - low) + inject_Z low)%Q in
  low <= interval <= high.
Proof.
  intros Hr0 Hr1 Hle interval.
  assert (Hd : (0 <= inject_Z (high - low))%Q).
  { change 0%Q with (inject_Z 0). rewrite <- Zle_Qle. lia. }
  assert (Hlow : (inject_Z low <= r * inject_Z (high - low) + inject_Z low)%Q).
  { rewrite <- (Qplus_0_l (inject_Z low)) at 1. apply Qplus_le_l.
    now apply Qmult_le_0_compat. }
  assert (Hhigh : (r * inject_Z (high - low) + inject_Z low <= inject_Z high)%Q).
  { assert (E : (inject_Z high == 1 * inject_Z (high - low) + inject_Z low)%Q).
    { unfold Zminus. rewrite inject_Z_plus, inject_Z_opp. ring. }
    rewrite E. apply Qplus_le_l. apply Qmult_le_compat_r; [|exact Hd].
    now apply Qlt_le_weak. }
  split.
  - subst interval. apply Z.le_trans with (Qfloor (inject_Z low)).
    + rewrite Qfloor_Z. lia.
    + now apply Qfloor_resp_le.
  - subst interval. apply Z.le_trans with (Qfloor (inject_Z high)).
    + now apply Qfloor_resp_le.
    + rewrite Qfloor_Z. lia.
Qed.

(** The loop once [start] has set the flag and the poll timer, lines
    142-157. *)
Definition armed (intervalSeconds : option Z) (s : State World N) : State World N :=
  setPollIntervalId
    (Some (orNumber intervalSeconds
             (orNumber (Options.intervalSeconds options)
                (getNumericSetting "ALFAFRENS_POLL_INTERVAL_SECONDS" 30)) * 1000))
    (setRunning true s).

(** The end of [start], lines 165-178. *)
Definition postTimer : M (State World N) unit :=
  if AlfaFrensConfig.enablePost config
  then
    r <- helper (perform MathRandom Math_random) ;;
    let postInterval :=
      Qfloor (r * inject_Z (AlfaFrensConfig.postIntervalMax config
                            - AlfaFrensConfig.postIntervalMin config)
              + inject_Z (AlfaFrensConfig.postIntervalMin config))%Q in
    modify (setPostIntervalId (Some (postInterval * 1000)))
  else ret tt.

Lemma start_run (intervalSeconds : option Z) (s : State World N) :
  isRunning s = false ->
  start config options intervalSeconds s =
    (Async.tryCatch (processMessages config options) (fun err => ret tt) ;;; postTimer)
      (armed intervalSeconds s).
Proof.
  intros Hoff. unfold start.
  unfold Async.bind at 1. unfold get at 1. cbn iota beta. rewrite Hoff.
  reflexivity.
Qed.

(** [Math.random] answers in [0, 1). *)
Hypothesis random_range :
  forall w, (0 <= fst (Math_random w))%Q /\ (fst (Math_random w) < 1)%Q.

(** X9.  When [start] on a stopped loop returns, the loop is running and
    its poll timer has the period of the first of the argument, the option
    and the setting (30 by default) that is not zero, in milliseconds.  The
    post timer is set only when posting is enabled, and then, the minimum
    being at most the maximum, its period is a whole number of seconds from
    the minimum to the maximum, both included: the draw is taken as an exact
    number of [0, 1) here, and in binary64 the sum can round up to the
    maximum itself. *)
Theorem start_sets_timers :
  forall (intervalSeconds : option Z) (s : State World N),
    isRunning s = false ->
    fst (start config options intervalSeconds s) = Returns tt ->
    let s' := snd (start config options intervalSeconds s) in
    isRunning s' = true
    /\ pollIntervalId s'
       = Some (orNumber intervalSeconds
                 (orNumber (Options.intervalSeconds options)
                    (getNumericSetting "ALFAFRENS_POLL_INTERVAL_SECONDS" 30)) * 1000)
    /\ (AlfaFrensConfig.enablePost config = false -> postIntervalId s' = postIntervalId s)
    /\ (AlfaFrensConfig.enablePost config = true ->
        AlfaFrensConfig.postIntervalMin config <= AlfaFrensConfig.postIntervalMax config ->
        exists seconds,
          postIntervalId s' = Some (seconds * 1000)
          /\ AlfaFrensConfig.postIntervalMin config <= seconds
             <= AlfaFrensConfig.postIntervalMax config).
Proof.
  intros intervalSeconds s Hoff. cbv zeta. rewrite (start_run _ _ Hoff).
  pose proof (processMessages_timers config options (armed intervalSeconds s))
    as (Hpoll & Hpost & Hflag).
  unfold Async.bind, Async.tryCatch.
  destruct (processMessages config options (armed intervalSeconds s)) as [[[]|e|] a3];
    cbn [fst snd ret] in *; try discriminate.
  all: unfold postTimer; destruct (AlfaFrensConfig.enablePost config) eqn:Hpostable.
  all: try (unfold Async.bind, modify; rewrite helper_run, perform_run; cbn [fst snd];
            intros _; split; [exact Hflag|]; split; [exact Hpoll|];
            split; [discriminate|]; intros _ Hle; eexists; split; [reflexivity|];
            apply (Qfloor_between _ _ _ (proj1 (random_range _)) (proj2 (random_range _))
                     Hle)).
  all: intros _; cbn [snd ret]; split; [exact Hflag|]; split; [exact Hpoll|];
       split; [intros _; exact Hpost | discriminate].
Qed.

End Timers.

(** A configuration with posting enabled, every hour to every two hours. *)
Definition postingConfig : AlfaFrensConfig.t :=
  AlfaFrensConfig.mk "key" "bot-id" "room" "bot" 15 true 3600 7200.

Lemma start_sets_timers_witness :
  exists seconds,
    AlfaFrensAIInteraction.postIntervalId
      (snd (AlfaFrensAIInteraction.start (rt := Scripted.runtime (channelScript []))
              postingConfig noOptions (Some 15%Z)
              (AlfaFrensAIInteraction.create 1000 (Scripted.fresh 1000))))
    = Some (seconds * 1000)%Z
    /\ (3600 <= seconds <= 7200)%Z.
Proof.
  destruct (start_sets_timers (rt := Scripted.runtime (channelScript []))
              postingConfig noOptions
              (fun w => conj (Qle_refl 0) (eq_refl : (0 ?= 1)%Q = Lt))
              (Some 15%Z) (AlfaFrensAIInteraction.create 1000 (Scripted.fresh 1000))
              eq_refl eq_refl) as (_ & _ & _ & Hpost).
  destruct (Hpost eq_refl ltac:(discriminate)) as (seconds & Hid & Hrange).
  exists seconds. split; [exact Hid | exact Hrange].
Defined.

(** ** The errors of [generateResponse] *)

Section ResponseErrors.

Context {World N : Type} {num : JsNumber N} {rt : Runtime World N}.

(** X10.  A failure of the draft (the gathering of the context, the
    template, the generation) is thrown by [generateResponse] as it is, and
    nothing is validated after it.  Once the draft is there nothing is
    thrown: a failure of the validation, of the regeneration or of the
    storing gives back the draft, and so does a draft in which no fact is
    found, without any call after the extraction. *)
Theorem generateResponse_errors :
  forall (message : string) (history : list AlfaFrensMessage.t) (template : string)
         (modelClass : option ModelClass) (s : Sys World N),
    (forall e s1,
       draftResponse message history template modelClass s = (Throws e, s1) ->
       generateResponse message history template modelClass s = (Throws e, s1))
    /\ (forall prompt rawResponse s1,
          draftResponse message history template modelClass s
            = (Returns (prompt, rawResponse), s1) ->
          (forall e, fst (generateResponse message history template modelClass s) <> Throws e)
          /\ (forall e s2,
                validateResponse prompt rawResponse modelClass s1 = (Throws e, s2) ->
                generateResponse message history template modelClass s
                  = (Returns rawResponse, s2))
          /\ (forall s2,
                extractFacts rawResponse s1 = (Returns [], s2) ->
                generateResponse message history template modelClass s
                  = (Returns rawResponse, s2))).
Proof.
  intros message history template modelClass s. split.
  - intros e s1 Hdraft. unfold generateResponse. now rewrite (bind_throws _ _ _ _ _ Hdraft).
  - intros prompt rawResponse s1 Hdraft. unfold generateResponse.
    rewrite (bind_returns _ _ _ _ _ Hdraft). cbn iota beta. split; [|split].
    + intros e. unfold Async.bind, Async.tryCatch.
      destruct (validateResponse prompt rawResponse modelClass s1) as [[[text|]|e'|] s2];
        cbn; discriminate.
    + intros e s2 Hfail. unfold Async.bind, Async.tryCatch. now rewrite Hfail.
    + intros s2 Hnone. unfold Async.bind, Async.tryCatch, validateResponse, validateDraft.
      unfold Async.bind. now rewrite Hnone.
Qed.

End ResponseErrors.

Lemma generateResponse_errors_witness :
  fst (generateResponse (rt := Scripted.runtime (N := Q) Scripted.quiet)
         "hello" [] DEFAULT_RESPONSE_TEMPLATE None (Scripted.fresh 0))
  = Returns "ok".
Proof.
  pose proof (generateResponse_errors (rt := Scripted.runtime (N := Q) Scripted.quiet)
                "hello" [] DEFAULT_RESPONSE_TEMPLATE None (Scripted.fresh 0))
    as (_ & Hdraft).
  edestruct (Hdraft (DEFAULT_RESPONSE_TEMPLATE ++ "hello") "ok") as (_ & _ & Hnone).
  - vm_compute. reflexivity.
  - erewrite Hnone; [reflexivity|]. vm_compute. reflexivity.
Defined.

(** ** The content of a post ([AlfaFrensApi.sendMessageWithOptions]) *)

(** A string of white space. *)
Fixpoint allWhite (s : string) : bool :=
  match s with
  | EmptyString => true
  | String c r => Js.isWhiteSpace c && allWhite r
  end.

Section Trim.

Lemma allWhite_app (a b : string) : allWhite (a ++ b) = allWhite a && allWhite b.
Proof.
  induction a as [|c a IH]; [reflexivity|].
  change (String c a ++ b) with (String c (a ++ b)). cbn [allWhite].
  now rewrite IH, andb_assoc.
Qed.

Lemma allWhite_reverse (w : string) : allWhite (Js.reverse w) = allWhite w.
Proof.
  induction w as [|c w IH]; [reflexivity|].
  rewrite reverse_cons, allWhite_app, IH. cbn [allWhite].
  rewrite andb_true_r. apply andb_comm.
Qed.

Lemma trimStart_split (s : string) :
  exists w, allWhite w = true /\ s = w ++ Js.trimStart s.
Proof.
  induction s as [|c s (w & Hw & IH)]; [now exists ""|]. cbn [Js.trimStart].
  destruct (Js.isWhiteSpace c) eqn:Hc.
  - exists (String c w). cbn [allWhite]. rewrite Hc, Hw. split; [reflexivity|].
    change (String c w ++ Js.trimStart s) with (String c (w ++ Js.trimStart s)).
    now rewrite <- IH.
  - now exists "".
Qed.

Lemma trimStart_head (s : string) (c : ascii) (r : string) :
  Js.trimStart s = String c r -> Js.isWhiteSpace c = false.
Proof.
  induction s as [|b s IH]; [discriminate|]. cbn [Js.trimStart].
  destruct (Js.isWhiteSpace b) eqn:Hb; [exact IH|]. now intros [= <- _].
Qed.

Lemma trimStart_fixed (s : string) :
  (forall c r, s = String c r -> Js.isWhiteSpace c = false) -> Js.trimStart s = s.
Proof. destruct s as [|c r]; [reflexivity|]. intros H. cbn. now rewrite (H c r). Qed.

Lemma trimEnd_split (s : string) :
  exists w, allWhite w = true /\ s = Js.trimEnd s ++ w.
Proof.
  destruct (trimStart_split (Js.reverse s)) as (w & Hw & Hs).
  exists (Js.reverse w). rewrite allWhite_reverse. split; [exact Hw|].
  unfold Js.trimEnd. rewrite <- reverse_app, <- Hs. now rewrite reverse_involutive.
Qed.

Lemma reverse_snoc (a : string) (c : ascii) :
  Js.reverse (a ++ String c "") = String c (Js.reverse a).
Proof. now rewrite reverse_app. Qed.

Lemma trimEnd_last (s a : string) (c : ascii) :
  Js.trimEnd s = a ++ String c "" -> Js.isWhiteSpace c = false.
Proof.
  unfold Js.trimEnd. intros H. apply (f_equal Js.reverse) in H.
  rewrite reverse_involutive, reverse_snoc in H. exact (trimStart_head _ _ _ H).
Qed.

Lemma trimEnd_fixed (s : string) :
  (forall a c, s = a ++ String c "" -> Js.isWhiteSpace c = false) -> Js.trimEnd s = s.
Proof.
  intros H. unfold Js.trimEnd. rewrite trimStart_fixed; [apply reverse_involutive|].
  intros c r Hr. apply (H (Js.reverse r) c).
  rewrite <- (reverse_involutive s), Hr. apply reverse_cons.
Qed.

(** [trim] takes the white space off both ends, and nothing else. *)
Lemma trim_spec (s : string) :
  (exists before after,
     allWhite before = true /\ allWhite after = true /\ s = before ++ Js.trim s ++ after)
  /\ (forall c r, Js.trim s = String c r -> Js.isWhiteSpace c = false)
  /\ (forall a c, Js.trim s = a ++ String c "" -> Js.isWhiteSpace c = false).
Proof.
  unfold Js.trim.
  destruct (trimStart_split s) as (before & Hbefore & Hs).
  destruct (trimEnd_split (Js.trimStart s)) as (after & Hafter & Ht).
  split; [|split].
  - exists before, after. rewrite <- Ht. auto.
  - intros c r Hc. rewrite Hc in Ht.
    change (String c r ++ after) with (String c (r ++ after)) in Ht.
    exact (trimStart_head _ _ _ Ht).
  - intros a c. apply trimEnd_last.
Qed.

Lemma trim_idempotent (s : string) : Js.trim (Js.trim s) = Js.trim s.
Proof.
  destruct (trim_spec s) as (_ & Hhead & Hlast).
  unfold Js.trim at 1. rewrite (trimStart_fixed _ Hhead). now apply trimEnd_fixed.
Qed.

End Trim.

Section Post.

Context {World N : Type} {rt : Runtime World N}.

(** The [replyToPostId] of a payload, lines 140-142. *)
Definition replyToPostId (replyTo : option string) : option string :=
  match replyTo with
  | Some r => if Js.nonEmpty r then Some r else None
  | None => None
  end.

(** X11.  A message is sent by one [POST] to [/api/ai/postMessage], and what
    the endpoint answers, or throws, is what the caller gets.  The content
    posted is the content given without the white space at its two ends,
    and only that is taken off: it neither starts nor ends with white space,
    and trimming it again changes nothing.  The id of the message replied
    to is part of the payload when it is not empty. *)
Theorem posted_content_is_trimmed :
  forall (content : string) (replyTo : option string) (s : Sys World N),
    let payload := Payload.mk (Js.trim content) (replyToPostId replyTo) in
    AlfaFrensApi.sendMessageWithOptions content replyTo s
    = (fst (httpPost "/api/ai/postMessage" payload (world s)),
       mkSys (snd (httpPost "/api/ai/postMessage" payload (world s)))
             (calls s ++ [HttpPost "/api/ai/postMessage" payload]))
    /\ (exists before after,
          allWhite before = true /\ allWhite after = true
          /\ content = before ++ Js.trim content ++ after)
    /\ (forall c r, Js.trim content = String c r -> Js.isWhiteSpace c = false)
    /\ (forall a c, Js.trim content = a ++ String c "" -> Js.isWhiteSpace c = false)
    /\ Js.trim (Js.trim content) = Js.trim content.
Proof.
  intros content replyTo s payload. split.
  - unfold AlfaFrensApi.sendMessageWithOptions, AlfaFrensApi.fetchPost.
    rewrite tryCatch_rethrow, bind_ret_r. apply call_run.
  - destruct (trim_spec content) as (Hsplit & Hhead & Hlast).
    split; [exact Hsplit|]. split; [exact Hhead|]. split; [exact Hlast|].
    apply trim_idempotent.
Qed.

End Post.

(** ** The generation settings of the manager's poll loop *)

Section ManagerConfig.

Import AlfaFrensAIInteraction.

Context {World N : Type} {rt : Runtime World N}.
Variable config : AlfaFrensConfig.t.

(** The setting that holds the template of a kind of generation, the one
    that holds its model class, and its default template. *)
Definition templateSetting (type : Kind) : string :=
  match type with
  | evaluation => "ALFAFRENS_EVALUATION_TEMPLATE"
  | response => "ALFAFRENS_RESPONSE_TEMPLATE"
  | post => "ALFAFRENS_POST_TEMPLATE"
  end.

Definition classSetting (type : Kind) : string :=
  match type with
  | evaluation => "ALFAFRENS_EVALUATION_MODEL_CLASS"
  | response => "ALFAFRENS_RESPONSE_MODEL_CLASS"
  | post => "ALFAFRENS_POST_MODEL_CLASS"
  end.

Definition defaultTemplate (type : Kind) : string :=
  match type with
  | evaluation => DEFAULT_EVALUATION_TEMPLATE
  | response => DEFAULT_RESPONSE_TEMPLATE
  | post => DEFAULT_POST_TEMPLATE
  end.

(** The first model class there is. *)
Definition firstClass (a b : option ModelClass) : option ModelClass :=
  match a with Some c => Some c | None => b end.

Lemma orElse_orElse (x : option string) (d : string) :
  Js.orElse (Some (Js.orElse x "")) d = Js.orElse x d.
Proof. destruct x as [[|c r]|]; reflexivity. Qed.

(** X12.  In the poll loop the manager builds, the template of each kind of
    generation is the setting of that kind when it is set and not empty,
    and the default template otherwise.  The model class of every kind is
    the one of the responses ([ALFAFRENS_RESPONSE_MODEL_CLASS]) when that
    setting names a class, else the general one ([ALFAFRENS_MODEL_CLASS]);
    the setting of the kind itself counts only when neither names a
    class. *)
Theorem manager_generation_config :
  forall type : Kind,
    getConfig (AlfaFrensManager.interactionOptions config) type
    = (Js.orElse (getSetting (templateSetting type)) (defaultTemplate type),
       firstClass (parseModelClass (getSetting "ALFAFRENS_RESPONSE_MODEL_CLASS"))
         (firstClass (parseModelClass (getSetting "ALFAFRENS_MODEL_CLASS"))
            (parseModelClass (getSetting (classSetting type))))).
Proof.
  intros type. unfold getConfig, AlfaFrensManager.interactionOptions, loadAlfaFrensConfig,
    getModelClass, firstClass.
  cbn [Options.evaluationTemplate Options.responseTemplate Options.postTemplate
       Options.modelClass AlfaFrensGenerationConfig.evaluation
       AlfaFrensGenerationConfig.response AlfaFrensGenerationConfig.post fst snd].
  destruct type; cbn [templateSetting classSetting defaultTemplate];
    rewrite orElse_orElse; f_equal;
    destruct (parseModelClass (getSetting "ALFAFRENS_RESPONSE_MODEL_CLASS"));
    destruct (parseModelClass (getSetting "ALFAFRENS_MODEL_CLASS"));
    try reflexivity;
    destruct (parseModelClass (getSetting _)); reflexivity.
Qed.

End ManagerConfig.

(** ** An initial post that fails *)

Section InitialPost.

Context {World N : Type} {num : JsNumber N} {rt : Runtime World N}.
Variable config : AlfaFrensConfig.t.

(** When [start] returns, the loop runs and its poll timer is set. *)
Lemma start_returns (options : AlfaFrensAIInteraction.Options.t)
    (intervalSeconds : option Z) (a : AlfaFrensAIInteraction.State World N) :
  AlfaFrensAIInteraction.isRunning a = false ->
  fst (AlfaFrensAIInteraction.start config options intervalSeconds a) = Returns tt ->
  AlfaFrensAIInteraction.isRunning
    (snd (AlfaFrensAIInteraction.start config options intervalSeconds a)) = true
  /\ AlfaFrensAIInteraction.pollIntervalId
       (snd (AlfaFrensAIInteraction.start config options intervalSeconds a))
     = AlfaFrensAIInteraction.pollIntervalId (armed options intervalSeconds a).
Proof.
  intros Hoff. rewrite (start_run _ _ _ _ Hoff).
  pose proof (processMessages_timers config options (armed options intervalSeconds a))
    as (Hpoll & _ & Hflag).
  unfold Async.bind, Async.tryCatch.
  destruct (AlfaFrensAIInteraction.processMessages config options _) as [[[]|e|] a3];
    cbn [fst snd ret] in *; try discriminate.
  all: unfold postTimer; destruct (AlfaFrensConfig.enablePost config).
  all: try (unfold Async.bind, modify; rewrite helper_run, perform_run; cbn [fst snd];
            intros _; split; [exact Hflag | exact Hpoll]).
  all: intros _; cbn [snd ret]; split; [exact Hflag | exact Hpoll].
Qed.

Lemma restoreAndStart_throws (restored : millis) (e : JsError)
    (st : AlfaFrensManager.State World N) :
  AlfaFrensAIInteraction.isRunning (AlfaFrensManager.aiInteraction st) = false ->
  fst (restoreAndStart config restored st) = Throws e ->
  let loop := AlfaFrensManager.aiInteraction (snd (restoreAndStart config restored st)) in
  AlfaFrensAIInteraction.isRunning loop = true
  /\ exists period, AlfaFrensAIInteraction.pollIntervalId loop = Some period.
Proof.
  intros Hoff. cbv zeta.
  remember (restoreAndStart config restored st) as result eqn:E.
  unfold restoreAndStart in E.
  unfold Async.bind at 1 in E. unfold modify at 1 in E. cbn iota beta in E.
  unfold Async.bind at 1 in E. rewrite interaction_run in E.
  cbn [AlfaFrensManager.setLastProcessedTime AlfaFrensManager.aiInteraction] in E.
  pose proof (start_no_throw config (AlfaFrensManager.interactionOptions config)
                (Some (AlfaFrensConfig.pollInterval config))
                (AlfaFrensManager.aiInteraction st)) as Hno.
  pose proof (start_returns (AlfaFrensManager.interactionOptions config)
                (Some (AlfaFrensConfig.pollInterval config))
                (AlfaFrensManager.aiInteraction st) Hoff) as Hstart.
  destruct (AlfaFrensAIInteraction.start config _ _ (AlfaFrensManager.aiInteraction st))
    as [[[]|e'|] a1]; cbn [fst snd] in *.
  - destruct (Hstart eq_refl) as (Hflag & Hpoll).
    unfold Async.bind in E. rewrite manager_helper_run in E.
    cbn [AlfaFrensManager.setInteraction AlfaFrensManager.aiInteraction
         AlfaFrensManager.lastProcessedTime AlfaFrensManager.isRunning] in E.
    destruct (fst _) as [sent|e''|] in E; subst result; cbn [fst snd ret];
      intros Hthrow; try discriminate.
    cbn [AlfaFrensManager.aiInteraction AlfaFrensManager.setInteraction
         AlfaFrensAIInteraction.setSys
         AlfaFrensAIInteraction.isRunning AlfaFrensAIInteraction.pollIntervalId].
    split; [exact Hflag|]. rewrite Hpoll. cbn. eauto.
  - now destruct (Hno e').
  - subst result. discriminate.
Qed.

Lemma tryCatch_bind_returns {S A B} (m : M S A) (k : A -> M S B) (h : JsError -> M S B)
    (s s' : S) (a : A) :
  m s = (Returns a, s') ->
  Async.tryCatch (Async.bind m k) h s = Async.tryCatch (k a) h s'.
Proof. intros H. unfold Async.tryCatch, Async.bind. now rewrite H. Qed.

(** [initialize] on a manager just built, once the cache has answered. *)
Lemma initialize_run (s : Sys World N) (m : AlfaFrensManager.State World N)
    (cached : option millis) (w : World) :
  AlfaFrensManager.create config s = inr m ->
  cacheGet AlfaFrensManager.cacheKey (snd (Date_now (world s))) = (Returns cached, w) ->
  exists restored st,
    AlfaFrensAIInteraction.isRunning (AlfaFrensManager.aiInteraction st) = false
    /\ AlfaFrensManager.initialize config m
       = Async.tryCatch (restoreAndStart config restored)
           (fun error => modify (AlfaFrensManager.setRunning false) ;;; throw error) st.
Proof.
  intros Hcreate Hcache. unfold AlfaFrensManager.create in Hcreate.
  destruct (negb _); [discriminate|].
  destruct (Date_now (world s)) as [now w0]. injection Hcreate as <-.
  cbn [fst snd] in *. unfold AlfaFrensManager.initialize.
  unfold Async.bind at 1. unfold get at 1. cbn iota beta.
  cbn [AlfaFrensManager.isRunning].
  unfold Async.bind at 1. unfold modify at 1. cbn iota beta.
  erewrite tryCatch_bind_returns; cycle 1.
  { rewrite manager_helper_run, call_run.
    cbn [AlfaFrensManager.setRunning AlfaFrensManager.aiInteraction
         AlfaFrensAIInteraction.create AlfaFrensAIInteraction.sys world calls fst snd].
    rewrite Hcache. reflexivity. }
  destruct (AlfaFrensApi.truthy cached).
  - erewrite tryCatch_bind_returns by reflexivity.
    eexists _, _. split; [|reflexivity]. reflexivity.
  - erewrite tryCatch_bind_returns; cycle 1.
    { unfold Async.bind. rewrite manager_helper_run, perform_run. reflexivity. }
    eexists _, _. split; [|reflexivity]. reflexivity.
Qed.

(** X13.  Let [initialize] on a manager just built throw after the cache
    has answered: the initial post has failed.  Then the manager is marked
    as not running, while the poll loop it has started keeps running with
    its timer set; and [stop] on the manager returns at once and stops
    nothing. *)
Theorem failed_initial_post_leaves_loop_running :
  forall (s : Sys World N) (m : AlfaFrensManager.State World N)
         (cached : option millis) (w : World) (e : JsError),
    AlfaFrensManager.create config s = inr m ->
    cacheGet AlfaFrensManager.cacheKey (snd (Date_now (world s))) = (Returns cached, w) ->
    fst (AlfaFrensManager.initialize config m) = Throws e ->
    let m' := snd (AlfaFrensManager.initialize config m) in
    AlfaFrensManager.isRunning m' = false
    /\ AlfaFrensAIInteraction.isRunning (AlfaFrensManager.aiInteraction m') = true
    /\ (exists period,
          AlfaFrensAIInteraction.pollIntervalId (AlfaFrensManager.aiInteraction m')
          = Some period)
    /\ AlfaFrensManager.stop m' = (Returns tt, m').
Proof.
  intros s m cached w e Hcreate Hcache.
  destruct (initialize_run s m cached w Hcreate Hcache) as (restored & st & Hoff & E).
  rewrite E. cbv zeta. unfold Async.tryCatch.
  pose proof (restoreAndStart_throws restored) as Hloop.
  specialize (fun e' => Hloop e' st Hoff). cbv zeta in Hloop.
  destruct (restoreAndStart config restored st) as [[[]|e'|] st3]; cbn [fst snd] in *;
    try discriminate.
  unfold Async.bind, modify, throw. cbn [fst snd]. intros _.
  destruct (Hloop e' eq_refl) as (Hflag & Hpoll).
  split; [reflexivity|]. split; [exact Hflag|]. split; [exact Hpoll|].
  reflexivity.
Qed.

End InitialPost.

(** An environment whose channel holds no message and refuses every post. *)
Definition refusingScript : Scripted.Script Q :=
  Scripted.mkScript "agent" None (Returns [])
    (Throws "API request failed: Bad Gateway")
    (fun _ => Settles 0 (inr "ok")) (fun _ => None) (fun _ => []) (Returns tt).

Lemma failed_initial_post_leaves_loop_running_witness :
  let m' := snd (AlfaFrensManager.initialize (rt := Scripted.runtime refusingScript)
                   botConfig restartedManager) in
  AlfaFrensManager.isRunning m' = false
  /\ AlfaFrensAIInteraction.isRunning (AlfaFrensManager.aiInteraction m') = true.
Proof.
  destruct (failed_initial_post_leaves_loop_running
              (rt := Scripted.runtime refusingScript) botConfig
              (Scripted.fresh 5000000) restartedManager None 5000001%Z
              "API request failed: Bad Gateway" eq_refl eq_refl)
    as (Hmanager & Hloop & _).
  - vm_compute. reflexivity.
  - split; [exact Hmanager | exact Hloop].
Defined.

(** ** [fact-validation.ts]: [calculateSemanticSimilarity] *)

Module SemanticSimilarity.

(** [s.split(/\s+/)]: the pieces between maximal runs of white space, the
    empty pieces at the two ends included.  [cur] is the piece being read,
    reversed; [inRun] tells that the previous character was white space. *)
Fixpoint splitGo (s : string) (cur : string) (inRun : bool) : list string :=
  match s with
  | EmptyString => [Js.reverse cur]
  | String c r =>
      if Js.isWhiteSpace c
      then if inRun then splitGo r cur true
           else Js.reverse cur :: splitGo r EmptyString true
      else splitGo r (String c cur) false
  end.

Definition splitWhiteSpace (s : string) : list string := splitGo s EmptyString false.

(** [new Set(text.toLowerCase().split(/\s+/))]. *)
Definition words (text : string) : gset string :=
  list_to_set (splitWhiteSpace (Js.toLowerCase text)).

(** [calculateSemanticSimilarity], lines 315-323. *)
Definition calculateSemanticSimilarity {N : Type} {num : JsNumber N}
    (text1 text2 : string) : N :=
  let words1 := words text1 in
  let words2 := words text2 in
  let intersection := words1 ∩ words2 in
  let union := words1 ∪ words2 in
  div (ofLength (size intersection)) (ofLength (size union)).

End SemanticSimilarity.

Section Similarity.

Import SemanticSimilarity.

Lemma splitGo_nonempty (s cur : string) (inRun : bool) : splitGo s cur inRun <> [].
Proof.
  revert cur inRun. induction s as [|c s IH]; intros cur inRun; cbn [splitGo].
  - discriminate.
  - destruct (Js.isWhiteSpace c); [destruct inRun; [apply IH | discriminate] | apply IH].
Qed.

Lemma words_nonempty (text : string) : (0 < size (words text))%nat.
Proof.
  unfold words, splitWhiteSpace.
  destruct (splitGo (Js.toLowerCase text) "" false) as [|w l] eqn:E.
  - now destruct (splitGo_nonempty _ _ _ E).
  - apply Nat.neq_0_lt_0. intros Hz. apply size_empty_inv in Hz.
    assert (Hw : w ∈ (list_to_set (w :: l) : gset string)) by set_solver.
    rewrite Hz in Hw. set_solver.
Qed.

Lemma lowerChar_idempotent (c : ascii) : Js.lowerChar (Js.lowerChar c) = Js.lowerChar c.
Proof. destruct c as [[] [] [] [] [] [] [] []]; reflexivity. Qed.

Lemma lowerChar_upperChar (c : ascii) : Js.lowerChar (Js.upperChar c) = Js.lowerChar c.
Proof. destruct c as [[] [] [] [] [] [] [] []]; reflexivity. Qed.

Lemma words_toLowerCase (text : string) : words (Js.toLowerCase text) = words text.
Proof.
  unfold words. f_equal. f_equal.
  induction text as [|c text IH]; [reflexivity|]. cbn [Js.toLowerCase].
  now rewrite lowerChar_idempotent, IH.
Qed.

Lemma words_toUpperCase (text : string) : words (Js.toUpperCase text) = words text.
Proof.
  unfold words. f_equal. f_equal.
  induction text as [|c text IH]; [reflexivity|]. cbn [Js.toLowerCase Js.toUpperCase].
  now rewrite lowerChar_upperChar, IH.
Qed.

Local Open Scope Q_scope.

Lemma ratio_range (a b : nat) :
  (a <= b)%nat -> (0 < b)%nat ->
  0 <= inject_Z (Z.of_nat a) / inject_Z (Z.of_nat b) <= 1.
Proof.
  intros Hab Hb.
  assert (Hpos : 0 < inject_Z (Z.of_nat b)).
  { change 0 with (inject_Z 0). rewrite <- Zlt_Qlt. lia. }
  split.
  - apply Qle_shift_div_l; [exact Hpos|]. rewrite Qmult_0_l.
    change 0 with (inject_Z 0). rewrite <- Zle_Qle. lia.
  - apply Qle_shift_div_r; [exact Hpos|]. rewrite Qmult_1_l.
    rewrite <- Zle_Qle. lia.
Qed.

Lemma ratio_one (a b : nat) :
  (0 < b)%nat ->
  (inject_Z (Z.of_nat a) / inject_Z (Z.of_nat b) == 1 <-> a = b).
Proof.
  intros Hb.
  assert (Hnz : ~ inject_Z (Z.of_nat b) == 0).
  { intros E. change 0 with (inject_Z 0) in E.
    apply (proj1 (inject_Z_injective _ _)) in E. lia. }
  split.
  - intros H. apply Nat2Z.inj. apply (proj1 (inject_Z_injective _ _)).
    rewrite <- (Qmult_div_r (inject_Z (Z.of_nat a)) (inject_Z (Z.of_nat b)) Hnz), H.
    apply Qmult_1_r.
  - intros ->. apply Qmult_inv_r. exact Hnz.
Qed.

Lemma ratio_zero (a b : nat) :
  (0 < b)%nat ->
  (inject_Z (Z.of_nat a) / inject_Z (Z.of_nat b) == 0 <-> a = 0%nat).
Proof.
  intros Hb.
  assert (Hnz : ~ inject_Z (Z.of_nat b) == 0).
  { intros E. change 0 with (inject_Z 0) in E.
    apply (proj1 (inject_Z_injective _ _)) in E. lia. }
  split.
  - intros H. apply Nat2Z.inj. apply (proj1 (inject_Z_injective _ _)).
    rewrite <- (Qmult_div_r (inject_Z (Z.of_nat a)) (inject_Z (Z.of_nat b)) Hnz), H.
    apply Qmult_0_r.
  - intros ->. unfold Qdiv. apply Qmult_0_l.
Qed.

(** X14.  The similarity of two texts is a number from 0 to 1 (the division
    is never by zero: a text has at least one word, be it the empty one); it
    is the same in both orders of the texts and does not look at the case
    of the letters; it is 1 exactly when the two texts have the same set of
    words, and 0 exactly when they share no word. *)
Theorem calculateSemanticSimilarity_spec :
  forall text1 text2 : string,
    0 <= calculateSemanticSimilarity text1 text2 <= 1
    /\ calculateSemanticSimilarity text1 text2 == calculateSemanticSimilarity text2 text1
    /\ calculateSemanticSimilarity (Js.toUpperCase text1) text2
       == calculateSemanticSimilarity text1 text2
    /\ (calculateSemanticSimilarity text1 text2 == 1 <-> words text1 = words text2)
    /\ (calculateSemanticSimilarity text1 text2 == 0 <-> words text1 ∩ words text2 = ∅).
Proof.
  intros text1 text2. unfold calculateSemanticSimilarity. cbn [div ofLength Q_number].
  cbv zeta.
  set (A := words text1). set (B := words text2).
  assert (Hin : A ∩ B ⊆ A ∪ B).
  { etrans; [apply intersection_subseteq_l | apply union_subseteq_l]. }
  assert (Hsub : (size (A ∩ B) <= size (A ∪ B))%nat) by now apply subseteq_size.
  assert (Hpos : (0 < size (A ∪ B))%nat).
  { pose proof (words_nonempty text1) as H1. fold A in H1.
    assert (size A <= size (A ∪ B))%nat by apply subseteq_size, union_subseteq_l. lia. }
  split; [now apply ratio_range|]. split; [|split; [|split]].
  - rewrite (comm_L (∩) B A), (comm_L (∪) B A). reflexivity.
  - rewrite words_toUpperCase. reflexivity.
  - rewrite (ratio_one _ _ Hpos). split.
    + intros H.
      assert (HAB : A ∩ B ≡ A ∪ B).
      { apply set_subseteq_size_equiv; [exact Hin | lia]. }
      apply leibniz_equiv. intros x. split; intros Hx.
      * assert (Hu : x ∈ A ∪ B) by (apply elem_of_union; now left).
        apply HAB, elem_of_intersection in Hu. tauto.
      * assert (Hu : x ∈ A ∪ B) by (apply elem_of_union; now right).
        apply HAB, elem_of_intersection in Hu. tauto.
    + intros ->. now rewrite (idemp_L (∩) B), (idemp_L (∪) B).
  - rewrite (ratio_zero _ _ Hpos). split.
    + intros H. apply leibniz_equiv, size_empty_iff. exact H.
    + intros ->. apply size_empty.
Qed.

End Similarity.

(** ** [extensions/actions.ts]: [getMessageHistory] *)

Module ExtensionActions.

(** [messages.find(m => m.id === id)]. *)
Definition findById (messages : list AlfaFrensMessage.t) (id : string)
  : option AlfaFrensMessage.t :=
  List.find (fun m => String.eqb (AlfaFrensMessage.id m) id) messages.

(** The loop of lines 33-40.  [remaining] is what [thread.length] is short
    of [maxHistory]: the loop goes on while it is not zero. *)
Fixpoint walk (messages : list AlfaFrensMessage.t) (remaining : nat)
    (currentMessage : option AlfaFrensMessage.t) (thread : list AlfaFrensMessage.t)
  : list AlfaFrensMessage.t :=
  match remaining, currentMessage with
  | S remaining', Some current =>
      let thread := current :: thread in
      match AlfaFrensMessage.replyTo current with
      | Some parent =>
          if Js.nonEmpty parent
          then walk messages remaining' (findById messages parent) thread
          else thread
      | None => thread
      end
  | _, _ => thread
  end.

Section Actions.
Context {World N : Type} {rt : Runtime World N}.
Variable config : AlfaFrensConfig.t.

(** [getMessageHistory], lines 10-47, of a message whose content has the
    field [inReplyTo]; [maxHistory] is a natural number, 5 by default. *)
Definition getMessageHistory (inReplyTo : option string) (maxHistory : nat)
  : M (Sys World N) (list AlfaFrensMessage.t) :=
  Async.tryCatch
    (let replyTo := inReplyTo in
     if negb (Js.nonEmpty (Js.orElse replyTo ""))
     then ret []
     else
       now <- perform DateNow Date_now ;;
       messages <- AlfaFrensClient.getMessages None (Some (Ms now)) false true ;;
       let thread := [] in
       let currentMessage := findById messages (Js.orElse replyTo "") in
       ret (walk messages maxHistory currentMessage thread))
    (fun error => ret []).

End Actions.

End ExtensionActions.

Section Thread.

Import ExtensionActions.

(** Each message of the list but the first replies to the one before it. *)
Fixpoint Linked (thread : list AlfaFrensMessage.t) : Prop :=
  match thread with
  | older :: ((newer :: _) as rest) =>
      AlfaFrensMessage.replyTo newer = Some (AlfaFrensMessage.id older) /\ Linked rest
  | _ => True
  end.

Lemma findById_some (messages : list AlfaFrensMessage.t) (id : string)
    (m : AlfaFrensMessage.t) :
  findById messages id = Some m -> In m messages /\ AlfaFrensMessage.id m = id.
Proof.
  unfold findById. intros H. apply find_some in H as (Hin & Heq).
  split; [exact Hin | now apply String.eqb_eq].
Qed.

(** What the loop keeps: the thread is linked, and the message it is about
    to put in front is the one the head of the thread replies to. *)
Definition Ready (currentMessage : option AlfaFrensMessage.t)
    (thread : list AlfaFrensMessage.t) : Prop :=
  Linked thread
  /\ forall current newer rest,
       currentMessage = Some current -> thread = newer :: rest ->
       AlfaFrensMessage.replyTo newer = Some (AlfaFrensMessage.id current).

Lemma walk_spec (messages : list AlfaFrensMessage.t) (remaining : nat) :
  forall currentMessage thread,
    Ready currentMessage thread ->
    (forall m, currentMessage = Some m -> In m messages) ->
    (forall m, In m thread -> In m messages) ->
    let result := walk messages remaining currentMessage thread in
    Linked result
    /\ (List.length result <= remaining + List.length thread)%nat
    /\ (forall m, In m result -> In m messages)
    /\ (exists older, result = (older ++ thread)%list)
    /\ (thread = [] -> forall m,
          List.last (map Some result) None = Some m -> currentMessage = Some m).
Proof.
  induction remaining as [|remaining IH]; intros currentMessage thread Hready Hcur Hin;
    cbn [walk].
  - repeat split; [apply Hready | lia | exact Hin | now exists [] |].
    intros ->. cbn. discriminate.
  - destruct currentMessage as [current|].
    2:{ repeat split; [apply Hready | lia | exact Hin | now exists [] |].
        intros ->. cbn. discriminate. }
    assert (Hlinked : Linked (current :: thread)).
    { destruct Hready as (Hl & Hhead). destruct thread as [|newer rest]; [exact I|].
      split; [now apply (Hhead current newer rest) | exact Hl]. }
    assert (Hin' : forall m, In m (current :: thread) -> In m messages).
    { intros m [<-|Hm]; [now apply Hcur | now apply Hin]. }
    assert (Hstop :
      Linked (current :: thread)
      /\ (List.length (current :: thread) <= S remaining + List.length thread)%nat
      /\ (forall m, In m (current :: thread) -> In m messages)
      /\ (exists older, current :: thread = (older ++ thread)%list)
      /\ (thread = [] -> forall m,
            List.last (map Some (current :: thread)) None = Some m ->
            Some current = Some m)).
    { repeat split; [exact Hlinked | cbn; lia | exact Hin' | now exists [current] |].
      intros -> m. cbn. now intros [= <-]. }
    destruct (AlfaFrensMessage.replyTo current) as [parent|] eqn:Hparent; [|exact Hstop].
    destruct (Js.nonEmpty parent); [|exact Hstop].
    destruct (IH (findById messages parent) (current :: thread))
      as (Hl & Hlen & Hall & (older & Holder) & _).
    + split; [exact Hlinked|]. intros m newer rest Hfind [= <- <-].
      apply findById_some in Hfind as (_ & <-). exact Hparent.
    + intros m Hfind. now apply findById_some in Hfind.
    + exact Hin'.
    + cbv zeta. repeat split.
      * exact Hl.
      * cbn [List.length] in Hlen. lia.
      * exact Hall.
      * exists (older ++ [current])%list. now rewrite <- app_assoc.
      * intros -> m. rewrite Holder, List.map_app.
        change (map Some [current]) with [Some current].
        rewrite List.last_last. now intros [= <-].
Qed.

Context {World N : Type} {rt : Runtime World N}.
Variable config : AlfaFrensConfig.t.

(** X15.  [getMessageHistory] never throws.  Without a message replied to
    it makes no request and the thread is empty, and so is the thread when
    the request fails.  Else the thread has at most [maxHistory] messages,
    each but the first a reply to the one before it, and it ends with the
    message replied to, the first of the answer that has its id. *)
Theorem getMessageHistory_thread :
  forall (inReplyTo : option string) (maxHistory : nat) (s : Sys World N),
    (forall e, fst (getMessageHistory inReplyTo maxHistory s) <> Throws e)
    /\ (Js.orElse inReplyTo "" = "" ->
        getMessageHistory inReplyTo maxHistory s = (Returns [], s))
    /\ (forall e,
          Js.orElse inReplyTo "" <> "" ->
          (forall url w, fst (httpGet url w) = Throws e) ->
          fst (getMessageHistory inReplyTo maxHistory s) = Returns [])
    /\ (forall thread,
          fst (getMessageHistory inReplyTo maxHistory s) = Returns thread ->
          (List.length thread <= maxHistory)%nat
          /\ Linked thread
          /\ forall m, List.last (map Some thread) None = Some m ->
                       inReplyTo = Some (AlfaFrensMessage.id m)).
Proof.
  intros inReplyTo maxHistory s. unfold getMessageHistory. cbv zeta.
  destruct (Js.nonEmpty (Js.orElse inReplyTo "")) eqn:Htarget; cbn [negb].
  2:{ split; [discriminate|]. split; [reflexivity|]. split.
      - intros e Hne. destruct (Js.orElse inReplyTo ""); [now destruct Hne | discriminate].
      - intros thread [= <-]. repeat split; [cbn; lia|]. cbn. discriminate. }
  assert (Hsome : Js.orElse inReplyTo "" <> "").
  { intros E. rewrite E in Htarget. discriminate. }
  unfold Async.tryCatch, Async.bind. rewrite perform_run.
  destruct (Date_now (world s)) as [now w]. cbn [fst snd].
  set (s1 := mkSys w (calls s ++ [DateNow])%list).
  pose proof (@getMessages_run World N rt
                (AlfaFrensApi.Options.mk None (Some (Ms now)) false true) s1) as Hrun.
  unfold AlfaFrensClient.getMessages. rewrite tryCatch_rethrow, bind_ret_r.
  split; [|split; [|split]].
  - intros e. destruct (AlfaFrensApi.getMessages _ s1) as [[messages|e'|] s2];
      cbn; discriminate.
  - intros E. now destruct Hsome.
  - intros e _ Hdown. cbn [AlfaFrensApi.Options.since AlfaFrensApi.truthy] in Hrun.
    destruct (Date_now (world s1)) as [now' w']. rewrite Hrun. cbn [fst snd].
    rewrite Hdown. reflexivity.
  - intros thread. destruct (AlfaFrensApi.getMessages _ s1) as [[messages|e'|] s2];
      cbn [fst snd ret]; try discriminate.
    2:{ intros [= <-]. repeat split; [cbn; lia|]. cbn. discriminate. }
    intros [= <-].
    destruct (walk_spec messages maxHistory (findById messages (Js.orElse inReplyTo "")) [])
      as (Hl & Hlen & _ & _ & Hlast).
    + split; [exact I|]. intros current newer rest _ H. discriminate.
    + intros m Hfind. now apply findById_some in Hfind.
    + intros m [].
    + cbv zeta in *. split; [cbn in Hlen; lia|]. split; [exact Hl|].
      intros m Hm. specialize (Hlast eq_refl m Hm).
      apply findById_some in Hlast as (_ & Hid). rewrite Hid.
      destruct inReplyTo as [[|c r]|]; try reflexivity; now destruct Hsome.
Qed.

End Thread.

(** A channel with a thread of three messages. *)
Definition rootMessage : AlfaFrensMessage.t :=
  AlfaFrensMessage.mk "r" "u1" "alice" "hi" "2025-01-01T00:00:01.000Z" None.

Definition middleMessage : AlfaFrensMessage.t :=
  AlfaFrensMessage.mk "m" "u2" "bob" "hello" "2025-01-01T00:00:02.000Z" (Some "r").

Definition leafMessage : AlfaFrensMessage.t :=
  AlfaFrensMessage.mk "l" "u1" "alice" "how are you" "2025-01-01T00:00:03.000Z" (Some "m").

Lemma getMessageHistory_thread_witness :
  fst (ExtensionActions.getMessageHistory
         (rt := Scripted.runtime (channelScript [leafMessage; rootMessage; middleMessage]))
         (Some "l") 2 (Scripted.fresh 0))
  = Returns [middleMessage; leafMessage]
  /\ Linked [middleMessage; leafMessage].
Proof.
  pose proof (getMessageHistory_thread
                (rt := Scripted.runtime (channelScript [leafMessage; rootMessage; middleMessage]))
                (Some "l") 2 (Scripted.fresh 0)) as (_ & _ & _ & Hthread).
  split; [vm_compute; reflexivity|].
  apply (Hthread [middleMessage; leafMessage]). vm_compute. reflexivity.
Defined.

(** ** [environment.ts]: the settings that are required *)

Module Environment.

(** [interface AlfaFrensConfig] of [environment.ts]; the numbers are what
    [Number] makes of the settings. *)
Record Config (Num : Type) : Type := mkConfig {
  apiKey : string;
  channelId : string;
  userId : string;
  username : string;
  baseUrl : string;
  pollInterval : Num;
  enablePost : bool;
  postIntervalMin : Num;
  postIntervalMax : Num
}.
Arguments mkConfig {Num}.
Arguments apiKey {Num}.
Arguments channelId {Num}.
Arguments userId {Num}.
Arguments username {Num}.
Arguments baseUrl {Num}.
Arguments pollInterval {Num}.
Arguments enablePost {Num}.
Arguments postIntervalMin {Num}.
Arguments postIntervalMax {Num}.

Section Environment.
Context {World N : Type} {rt : Runtime World N}.

(** [Number(text)], and [process.env.ALFAFRENS_API_URL]. *)
Variable Num : Type.
Variable Number : string -> Num.
Variable ALFAFRENS_API_URL : option string.

(** [validateAlfaFrensConfig], lines 522-568. *)
Definition validateAlfaFrensConfig : JsError + Config Num :=
  let apiKey := getSetting "ALFAFRENS_API_KEY" in
  let channelId := getSetting "ALFAFRENS_CHANNEL_ID" in
  let userId := getSetting "ALFAFRENS_USER_ID" in
  let baseUrl :=
    Js.orElse (getSetting "ALFAFRENS_API_URL")
      (Js.orElse ALFAFRENS_API_URL
         "https://friendx-git-ai-api.preview.superfluid.finance") in
  let username := Js.orElse (getSetting "ALFAFRENS_USERNAME") "AI Assistant" in
  let pollInterval := Number (Js.orElse (getSetting "ALFAFRENS_POLL_INTERVAL") "15") in
  let enablePost :=
    match getSetting "ALFAFRENS_ENABLE_POST" with
    | Some value => String.eqb value "true"
    | None => false
    end in
  let postIntervalMin :=
    Number (Js.orElse (getSetting "ALFAFRENS_POST_INTERVAL_MIN") "60") in
  let postIntervalMax :=
    Number (Js.orElse (getSetting "ALFAFRENS_POST_INTERVAL_MAX") "120") in
  if negb (Js.nonEmpty (Js.orElse apiKey ""))
  then inl "ALFAFRENS_API_KEY is required"
  else if negb (Js.nonEmpty (Js.orElse channelId ""))
  then inl "ALFAFRENS_CHANNEL_ID is required"
  else if negb (Js.nonEmpty (Js.orElse userId ""))
  then inl "ALFAFRENS_USER_ID is required"
  else
    inr (mkConfig (Js.orElse apiKey "") (Js.orElse channelId "") (Js.orElse userId "")
           username baseUrl pollInterval enablePost postIntervalMin postIntervalMax).

(** [validateAlfaFrensEnv], lines 605-619. *)
Definition validateAlfaFrensEnv : bool :=
  let requiredVars := ["ALFAFRENS_API_KEY"; "ALFAFRENS_USER_ID"; "ALFAFRENS_CHANNEL_ID"] in
  let missingVars :=
    List.filter (fun varName => negb (Js.nonEmpty (Js.orElse (getSetting varName) "")))
                requiredVars in
  if (0 <? List.length missingVars)%nat then false else true.

End Environment.

End Environment.

Section Required.

Import Environment.

Context {World N : Type} {rt : Runtime World N}.
Variable Num : Type.
Variable Number : string -> Num.
Variable ALFAFRENS_API_URL : option string.

(** A setting that is set, and not to the empty string. *)
Definition IsSet (key : string) : Prop :=
  exists value, getSetting key = Some value /\ value <> "".

Lemma IsSet_spec (key : string) :
  Js.nonEmpty (Js.orElse (getSetting key) "") = true <-> IsSet key.
Proof.
  unfold IsSet. destruct (getSetting key) as [[|c r]|]; cbn; split;
    try discriminate; try (intros (value & [= <-] & H); now destruct H);
    try (intros (value & [=] & _)); try reflexivity.
  intros _. eexists. split; [reflexivity | discriminate].
Qed.

(** X16.  The two checks of the settings agree: [validateAlfaFrensEnv] says
    yes exactly when [validateAlfaFrensConfig] returns a configuration, that
    is when the API key, the channel id and the user id are set and not
    empty.  Else the configuration check throws, naming the first that is
    missing of the key, the channel and the user.  The configuration it
    returns holds the three as they are set, and neither its user name nor
    its base URL is empty. *)
Theorem settings_checks_agree :
  (validateAlfaFrensEnv = true <->
   IsSet "ALFAFRENS_API_KEY" /\ IsSet "ALFAFRENS_CHANNEL_ID" /\ IsSet "ALFAFRENS_USER_ID")
  /\ (validateAlfaFrensEnv = true <->
      exists c, validateAlfaFrensConfig Num Number ALFAFRENS_API_URL = inr c)
  /\ (forall e, validateAlfaFrensConfig Num Number ALFAFRENS_API_URL = inl e ->
        (~ IsSet "ALFAFRENS_API_KEY" /\ e = "ALFAFRENS_API_KEY is required")
        \/ (IsSet "ALFAFRENS_API_KEY" /\ ~ IsSet "ALFAFRENS_CHANNEL_ID"
            /\ e = "ALFAFRENS_CHANNEL_ID is required")
        \/ (IsSet "ALFAFRENS_API_KEY" /\ IsSet "ALFAFRENS_CHANNEL_ID"
            /\ ~ IsSet "ALFAFRENS_USER_ID" /\ e = "ALFAFRENS_USER_ID is required"))
  /\ (forall c, validateAlfaFrensConfig Num Number ALFAFRENS_API_URL = inr c ->
        getSetting "ALFAFRENS_API_KEY" = Some (apiKey c)
        /\ getSetting "ALFAFRENS_CHANNEL_ID" = Some (channelId c)
        /\ getSetting "ALFAFRENS_USER_ID" = Some (userId c)
        /\ username c <> "" /\ baseUrl c <> "").
Proof.
  pose proof (IsSet_spec "ALFAFRENS_API_KEY") as Hkey.
  pose proof (IsSet_spec "ALFAFRENS_CHANNEL_ID") as Hchannel.
  pose proof (IsSet_spec "ALFAFRENS_USER_ID") as Huser.
  assert (Hvalue : forall key, IsSet key ->
            getSetting key = Some (Js.orElse (getSetting key) "")).
  { intros key (value & -> & Hne). destruct value; [now destruct Hne | reflexivity]. }
  unfold validateAlfaFrensEnv, validateAlfaFrensConfig. cbv zeta. cbn [List.filter].
  assert (Hname : Js.orElse (getSetting "ALFAFRENS_USERNAME") "AI Assistant" <> "").
  { destruct (getSetting "ALFAFRENS_USERNAME") as [[|c r]|]; discriminate. }
  assert (Hurl : Js.orElse (getSetting "ALFAFRENS_API_URL")
                   (Js.orElse ALFAFRENS_API_URL
                      "https://friendx-git-ai-api.preview.superfluid.finance") <> "").
  { destruct (getSetting "ALFAFRENS_API_URL") as [[|c r]|];
      destruct ALFAFRENS_API_URL as [[|c' r']|]; discriminate. }
  destruct (Js.nonEmpty (Js.orElse (getSetting "ALFAFRENS_API_KEY") "")) eqn:Ek;
    [assert (K : IsSet "ALFAFRENS_API_KEY") by now apply Hkey
    |assert (K : ~ IsSet "ALFAFRENS_API_KEY") by (intros H; apply Hkey in H; congruence)];
    (destruct (Js.nonEmpty (Js.orElse (getSetting "ALFAFRENS_CHANNEL_ID") "")) eqn:Ec;
     [assert (C : IsSet "ALFAFRENS_CHANNEL_ID") by now apply Hchannel
     |assert (C : ~ IsSet "ALFAFRENS_CHANNEL_ID")
        by (intros H; apply Hchannel in H; congruence)]);
    (destruct (Js.nonEmpty (Js.orElse (getSetting "ALFAFRENS_USER_ID") "")) eqn:Eu;
     [assert (U : IsSet "ALFAFRENS_USER_ID") by now apply Huser
     |assert (U : ~ IsSet "ALFAFRENS_USER_ID")
        by (intros H; apply Huser in H; congruence)]);
    clear Hkey Hchannel Huser Ek Ec Eu;
    cbn [negb List.length Nat.ltb Nat.leb].
  - (* all three are set *)
    split; [split; [intros _; auto | reflexivity]|].
    split; [split; [intros _; eexists; reflexivity | reflexivity]|].
    split; [intros e [=]|].
    intros c [= <-]. cbn [apiKey channelId userId username baseUrl].
    rewrite <- !Hvalue by assumption. auto.
  - split; [split; [discriminate | intros (_ & _ & H); contradiction]|].
    split; [split; [discriminate | intros (c & [=])]|].
    split; [intros e [= <-]; right; right; auto | intros c [=]].
  - split; [split; [discriminate | intros (_ & H & _); contradiction]|].
    split; [split; [discriminate | intros (c & [=])]|].
    split; [intros e [= <-]; right; left; auto | intros c [=]].
  - split; [split; [discriminate | intros (_ & H & _); contradiction]|].
    split; [split; [discriminate | intros (c & [=])]|].
    split; [intros e [= <-]; right; left; auto | intros c [=]].
  - split; [split; [discriminate | intros (H & _); contradiction]|].
    split; [split; [discriminate | intros (c & [=])]|].
    split; [intros e [= <-]; left; auto | intros c [=]].
  - split; [split; [discriminate | intros (H & _); contradiction]|].
    split; [split; [discriminate | intros (c & [=])]|].
    split; [intros e [= <-]; left; auto | intros c [=]].
  - split; [split; [discriminate | intros (H & _); contradiction]|].
    split; [split; [discriminate | intros (c & [=])]|].
    split; [intros e [= <-]; left; auto | intros c [=]].
  - split; [split; [discriminate | intros (H & _); contradiction]|].
    split; [split; [discriminate | intros (c & [=])]|].
    split; [intros e [= <-]; left; auto | intros c [=]].
Qed.

End Required.

(** ** [alfafrens-client.ts]: the actions *)

Module Actions.

(** The content of the memory an action is given: [text] and, for a reply,
    [messageId]; a field that is absent is [None]. *)
Record Content : Type := mkContent {
  text : option string;
  messageId : option string
}.

Section Actions.
Context {World N : Type} {rt : Runtime World N}.

(** [runtime.clients.find(c => c.constructor.name === "AlfaFrensManager")]:
    the manager, by its configuration, when there is one. *)
Variable client : option AlfaFrensConfig.t.

(** [validate] of [replyAlfaFrensMessageAction], lines 33-44. *)
Definition replyValidate (content : Content) : bool :=
  if negb (Js.nonEmpty (Js.orElse (text content) "")) then false
  else if negb (Js.nonEmpty (Js.orElse (messageId content) "")) then false
  else true.

(** [validate] of [sendAlfaFrensMessageAction] and of
    [createAlfaFrensPostAction], lines 84-91 and 130-137. *)
Definition textValidate (content : Content) : bool :=
  if negb (Js.nonEmpty (Js.orElse (text content) "")) then false else true.

(** [client.sendMessage(params)] with the content an action has: the method
    reads [params.content.length] inside its [try], which throws for a
    content that is absent. *)
Definition sendMessage (config : AlfaFrensConfig.t) (content : option string)
    (inReplyTo : option string)
  : M (Sys World N) (list (Memory.t N * AlfaFrensMessage.t)) :=
  match content with
  | None => throw "TypeError"
  | Some text =>
      AlfaFrensClient.sendMessage config text (AlfaFrensConfig.channelId config) inReplyTo
  end.

Definition createPost (config : AlfaFrensConfig.t) (content : option string)
  : M (Sys World N) (list (Memory.t N * AlfaFrensMessage.t)) :=
  match content with
  | None => throw "TypeError"
  | Some text => AlfaFrensClient.createPost config text (AlfaFrensConfig.channelId config)
  end.

(** [handler] of [replyAlfaFrensMessageAction], lines 45-65. *)
Definition replyHandler (content : Content) : M (Sys World N) bool :=
  match client with
  | None => ret false
  | Some config =>
      Async.tryCatch
        (sendMessage config (text content) (messageId content) ;;; ret true)
        (fun error => ret false)
  end.

(** [handler] of [sendAlfaFrensMessageAction], lines 92-111. *)
Definition sendHandler (content : Content) : M (Sys World N) bool :=
  match client with
  | None => ret false
  | Some config =>
      Async.tryCatch
        (sendMessage config (text content) None ;;; ret true)
        (fun error => ret false)
  end.

(** [handler] of [createAlfaFrensPostAction], lines 138-157. *)
Definition createPostHandler (content : Content) : M (Sys World N) bool :=
  match client with
  | None => ret false
  | Some config =>
      Async.tryCatch
        (createPost config (text content) ;;; ret true)
        (fun error => ret false)
  end.

End Actions.

End Actions.

Section ActionHandlers.

Import Actions.

Context {World N : Type} {rt : Runtime World N}.

(** What a handler comes to when it posts [payload]: [true] when the
    endpoint answers, [false] when it throws. *)
Definition posting (payload : Payload.t) (s : Sys World N) : Outcome bool * Sys World N :=
  (match fst (httpPost "/api/ai/postMessage" payload (world s)) with
   | Returns _ => Returns true
   | Throws _ => Returns false
   | Pending => Pending
   end,
   mkSys (snd (httpPost "/api/ai/postMessage" payload (world s)))
         (calls s ++ [HttpPost "/api/ai/postMessage" payload])).

Lemma sendMessageWithOptions_run (content : string) (replyTo : option string)
    (s : Sys World N) :
  AlfaFrensApi.sendMessageWithOptions content replyTo s
  = call (HttpPost "/api/ai/postMessage" (Payload.mk (Js.trim content) (replyToPostId replyTo)))
         (httpPost "/api/ai/postMessage" (Payload.mk (Js.trim content) (replyToPostId replyTo)))
         s.
Proof.
  unfold AlfaFrensApi.sendMessageWithOptions, AlfaFrensApi.fetchPost.
  now rewrite tryCatch_rethrow, bind_ret_r.
Qed.

Lemma posted_or_not {A} (m : M (Sys World N) A) (payload : Payload.t) (s : Sys World N) :
  (exists k : AlfaFrensSendMessageResponse.t -> A,
     m s = Async.bind (call (HttpPost "/api/ai/postMessage" payload)
                         (httpPost "/api/ai/postMessage" payload))
             (fun response => ret (k response)) s) ->
  Async.tryCatch (m ;;; ret true) (fun error => ret false) s = posting payload s.
Proof.
  intros (k & Hm). unfold Async.tryCatch, Async.bind at 1. rewrite Hm.
  unfold Async.bind, posting. rewrite call_run. cbn [fst snd].
  destruct (fst (httpPost _ payload (world s))); reflexivity.
Qed.

Lemma client_sendMessage_run (config : AlfaFrensConfig.t) (content roomId : string)
    (inReplyTo : option string) (s : Sys World N) :
  AlfaFrensClient.sendMessage config content roomId inReplyTo s
  = Async.bind
      (call (HttpPost "/api/ai/postMessage"
               (Payload.mk (Js.trim content) (replyToPostId inReplyTo)))
            (httpPost "/api/ai/postMessage"
               (Payload.mk (Js.trim content) (replyToPostId inReplyTo))))
      (fun response =>
         ret [AlfaFrensClient.prepareMessageAndMemory config response content roomId]) s.
Proof.
  unfold AlfaFrensClient.sendMessage. rewrite tryCatch_rethrow.
  unfold Async.bind at 1.
  assert (E : (match inReplyTo with
               | Some parent =>
                   if Js.nonEmpty parent
                   then AlfaFrensApi.replyMessage content parent
                   else AlfaFrensApi.sendMessage content
               | None => AlfaFrensApi.sendMessage content
               end) s
              = call (HttpPost "/api/ai/postMessage"
                        (Payload.mk (Js.trim content) (replyToPostId inReplyTo)))
                     (httpPost "/api/ai/postMessage"
                        (Payload.mk (Js.trim content) (replyToPostId inReplyTo))) s).
  { unfold AlfaFrensApi.replyMessage, AlfaFrensApi.sendMessage.
    destruct inReplyTo as [parent|]; [destruct (Js.nonEmpty parent) eqn:Hp|];
      rewrite sendMessageWithOptions_run; cbn [replyToPostId]; rewrite ?Hp; reflexivity. }
  rewrite E. reflexivity.
Qed.

Lemma client_createPost_run (config : AlfaFrensConfig.t) (content roomId : string)
    (s : Sys World N) :
  AlfaFrensClient.createPost config content roomId s
  = Async.bind
      (call (HttpPost "/api/ai/postMessage" (Payload.mk (Js.trim content) None))
            (httpPost "/api/ai/postMessage" (Payload.mk (Js.trim content) None)))
      (fun response =>
         ret [AlfaFrensClient.prepareMessageAndMemory config response content roomId]) s.
Proof.
  unfold AlfaFrensClient.createPost, AlfaFrensApi.createPost. rewrite tryCatch_rethrow.
  unfold Async.bind at 1. rewrite sendMessageWithOptions_run. reflexivity.
Qed.

(** X17.  The handlers of the three actions never throw.  Without a running
    manager they answer [false] and call nothing, and so they do for a
    content without text.  With a manager and a content that [validate]
    accepts they make one [POST] of the trimmed text (for a reply, with the
    id of the message replied to) and answer [true] when the endpoint
    answers and [false] when it throws. *)
Theorem action_handlers :
  forall (client : option AlfaFrensConfig.t) (content : Content) (s : Sys World N),
    (forall e,
       fst (replyHandler client content s) <> Throws e
       /\ fst (sendHandler client content s) <> Throws e
       /\ fst (createPostHandler client content s) <> Throws e)
    /\ (client = None \/ text content = None ->
        replyHandler client content s = (Returns false, s)
        /\ sendHandler client content s = (Returns false, s)
        /\ createPostHandler client content s = (Returns false, s))
    /\ (forall config words,
          client = Some config -> text content = Some words ->
          (replyValidate content = true ->
           exists parent,
             messageId content = Some parent /\ parent <> ""
             /\ replyHandler client content s
                = posting (Payload.mk (Js.trim words) (Some parent)) s)
          /\ (textValidate content = true ->
              words <> ""
              /\ sendHandler client content s = posting (Payload.mk (Js.trim words) None) s
              /\ createPostHandler client content s
                 = posting (Payload.mk (Js.trim words) None) s)).
Proof.
  intros client content s.
  assert (Hno : forall (A : Type) (m : M (Sys World N) A) e,
            fst (Async.tryCatch (m ;;; ret true) (fun error => ret false) s) <> Throws e).
  { intros A m e. unfold Async.tryCatch, Async.bind.
    destruct (m s) as [[a|e'|] s1]; cbn; discriminate. }
  split; [|split].
  - intros e. unfold replyHandler, sendHandler, createPostHandler.
    destruct client as [config|]; [|repeat split; discriminate].
    repeat split; apply Hno.
  - unfold replyHandler, sendHandler, createPostHandler.
    intros [-> | Htext]; [repeat split|].
    destruct client as [config|]; [|repeat split]. rewrite Htext.
    repeat split.
  - intros config words -> Htext.
    unfold replyHandler, sendHandler, createPostHandler, replyValidate, textValidate.
    rewrite Htext. cbn [Js.orElse sendMessage createPost]. split.
    + destruct (Js.nonEmpty words) eqn:Hwords; cbn [negb]; [|destruct words; discriminate].
      assert (E : Js.orElse (Some words) "" = words) by apply orElse_empty.
      rewrite Hwords. cbn [negb].
      destruct (messageId content) as [parent|] eqn:Hparent; cbn [Js.orElse];
        [|discriminate].
      destruct (Js.nonEmpty parent) eqn:Hp; cbn [negb]; [|discriminate].
      intros _. exists parent. split; [reflexivity|].
      split; [intros ->; discriminate|].
      apply posted_or_not. eexists. rewrite client_sendMessage_run.
      cbn [replyToPostId]. rewrite Hp. reflexivity.
    + destruct (Js.nonEmpty words) eqn:Hwords; rewrite ?Hwords; cbn [negb];
        [|discriminate].
      intros _. split; [intros ->; discriminate|]. split.
      * apply posted_or_not. eexists. rewrite client_sendMessage_run. reflexivity.
      * apply posted_or_not. eexists. rewrite client_createPost_run. reflexivity.
Qed.

End ActionHandlers.

(** ** [extensions/tasks.ts]: [class AlfaFrensTaskManager] *)

Module AlfaFrensTaskManager.

(** A JavaScript [Map] with string keys: the entries in the order of their
    insertion; [set] on a key that is there keeps its place. *)
Fixpoint mapSet {V} (key : string) (value : V) (entries : list (string * V))
  : list (string * V) :=
  match entries with
  | [] => [(key, value)]
  | (k, v) :: rest =>
      if String.eqb k key then (k, value) :: rest else (k, v) :: mapSet key value rest
  end.

Definition mapGet {V} (key : string) (entries : list (string * V)) : option V :=
  option_map snd (List.find (fun entry => String.eqb (fst entry) key) entries).

Definition mapDelete {V} (key : string) (entries : list (string * V))
  : list (string * V) :=
  List.filter (fun entry => negb (String.eqb (fst entry) key)) entries.

Inductive TaskType : Type := POLL | POST | RESPONSE.

Definition typeName (type : TaskType) : string :=
  match type with POLL => "POLL" | POST => "POST" | RESPONSE => "RESPONSE" end.

Section Tasks.
Context {World N : Type} {rt : Runtime World N}.

(** [interface SimpleTask]; a handler is code that acts on the
    environment. *)
Record SimpleTask : Type := mkTask {
  id : string;
  name : string;
  type : TaskType;
  interval : Z;
  lastRun : Z;
  handler : M (Sys World N) unit
}.

(** The fields of the class, and the timers of the event loop: a timer is
    known by its number, the next one to be created is [created], and
    [active] are those that have not been cleared. *)
Record State : Type := mkState {
  tasks : list (string * SimpleTask);
  intervals : list (string * nat);
  isRunning : bool;
  active : gset nat;
  created : nat;
  sys : Sys World N
}.

(** [new AlfaFrensTaskManager(runtime)]. *)
Definition create (s : Sys World N) : State := mkState [] [] false ∅ 0 s.

Definition setSys (t : Sys World N) (st : State) : State :=
  mkState (tasks st) (intervals st) (isRunning st) (active st) (created st) t.

Definition setTasks (l : list (string * SimpleTask)) (st : State) : State :=
  mkState l (intervals st) (isRunning st) (active st) (created st) (sys st).

Definition setIntervals (l : list (string * nat)) (st : State) : State :=
  mkState (tasks st) l (isRunning st) (active st) (created st) (sys st).

Definition setRunning (b : bool) (st : State) : State :=
  mkState (tasks st) (intervals st) b (active st) (created st) (sys st).

(** A call of the environment, made from the class. *)
Definition helper {A} (m : M (Sys World N) A) : M State A := Async.lift sys setSys m.

(** [clearInterval(timer)]. *)
Definition clearInterval (timer : nat) (st : State) : State :=
  mkState (tasks st) (intervals st) (isRunning st) (active st ∖ {[ timer ]})
    (created st) (sys st).

(** [setInterval(callback, period)]: the new timer. *)
Definition setInterval (st : State) : nat * State :=
  (created st,
   mkState (tasks st) (intervals st) (isRunning st) ({[ created st ]} ∪ active st)
     (S (created st)) (sys st)).

(** [startTaskInterval], lines 266-284. *)
Definition startTaskInterval (task : SimpleTask) (st : State) : State :=
  let st :=
    match mapGet (id task) (intervals st) with
    | Some timer => clearInterval timer st
    | None => st
    end in
  let (timer, st) := setInterval st in
  setIntervals (mapSet (id task) timer (intervals st)) st.

(** [createAIInteractionTask], lines 186-210; [uuid] is what [uuidv4()]
    gives, and a handler that is absent is one that does nothing. *)
Definition createAIInteractionTask (uuid : string) (type : TaskType) (interval : Z)
    (handler : option (M (Sys World N) unit)) : M State SimpleTask :=
  let id := uuid in
  now <- helper (perform DateNow Date_now) ;;
  let task :=
    mkTask id ("AI_INTERACTION_" ++ typeName type) type interval now
      (default (ret tt) handler) in
  modify (fun st => setTasks (mapSet id task (tasks st)) st) ;;;
  st <- get ;;
  (if isRunning st then modify (startTaskInterval task) else ret tt) ;;;
  ret task.

(** [start], lines 215-227. *)
Definition start : M State unit :=
  st <- get ;;
  if isRunning st
  then ret tt
  else
    modify (setRunning true) ;;;
    st <- get ;;
    forEach (map snd (tasks st)) (fun task => modify (startTaskInterval task)).

(** [stop], lines 232-245.  Deleting the entry the iteration is at does not
    disturb the iteration of a [Map]: every entry is visited. *)
Definition stop : M State unit :=
  st <- get ;;
  if negb (isRunning st)
  then ret tt
  else
    modify (setRunning false) ;;;
    st <- get ;;
    forEach (intervals st)
      (fun entry =>
         let '(id, interval) := entry in
         modify (clearInterval interval) ;;;
         modify (fun st => setIntervals (mapDelete id (intervals st)) st)).

(** [task.lastRun = Date.now()] on the task that is in the map. *)
Definition touch (now : Z) (task : SimpleTask) : SimpleTask :=
  mkTask (id task) (name task) (type task) (interval task) now (handler task).

(** [processTasks], lines 250-261. *)
Definition processTasks : M State unit :=
  st <- get ;;
  forEach (map snd (tasks st))
    (fun task =>
       Async.tryCatch
         (helper (handler task) ;;;
          now <- helper (perform DateNow Date_now) ;;
          modify (fun st => setTasks (mapSet (id task) (touch now task) (tasks st)) st))
         (fun error => ret tt)).

End Tasks.

Arguments SimpleTask World N : clear implicits.
Arguments State World N : clear implicits.

End AlfaFrensTaskManager.

(** ** The timers of the task manager *)

Section MapFacts.

Import AlfaFrensTaskManager.

Context {V : Type}.

Definition keys (entries : list (string * V)) : list string := map fst entries.

Lemma mapSet_In (key : string) (value : V) (entries : list (string * V)) k v :
  List.NoDup (keys entries) ->
  In (k, v) (mapSet key value entries) <->
  (k = key /\ v = value) \/ (k <> key /\ In (k, v) entries).
Proof.
  induction entries as [|[k0 v0] rest IH]; intros Hnd; cbn [mapSet].
  - cbn. split; [intros [[= <- <-]|[]]; now left | intros [[-> ->]|[_ []]]; now left].
  - change (List.NoDup (k0 :: keys rest)) in Hnd.
    apply List.NoDup_cons_iff in Hnd as (Hfresh & Hnd). specialize (IH Hnd).
    destruct (String.eqb_spec k0 key) as [->|Hne]; cbn [In].
    + split.
      * intros [[= <- <-]|Hin]; [now left|]. right. split; [|now right].
        intros ->. apply Hfresh.
        change key with (fst (key, v)). now apply in_map.
      * intros [[-> ->]|(Hk & [[= ? ?]|Hin])]; [now left | congruence | now right].
    + rewrite IH. split.
      * intros [[= <- <-]|[H|(Hk & Hin)]]; [right; split; [congruence | now left]
                                            | now left | right; split; [exact Hk | now right]].
      * intros [H|(Hk & [[= <- <-]|Hin])]; [right; now left | now left | right; right; auto].
Qed.

Lemma mapSet_keys (key : string) (value : V) (entries : list (string * V)) k :
  In k (keys (mapSet key value entries)) <-> k = key \/ In k (keys entries).
Proof.
  induction entries as [|[k0 v0] rest IH]; cbn [mapSet keys map In fst].
  - split; [intros [<-|[]]; now left | intros [->|[]]; now left].
  - destruct (String.eqb_spec k0 key) as [->|Hne]; cbn [keys map In fst].
    + fold (keys rest). split; [intros [<-|H]; [now left | right; now right]|].
      intros [->|[<-|H]]; [now left | now left | now right].
    + fold (keys (mapSet key value rest)). fold (keys rest). rewrite IH.
      split; [intros [<-|[->|H]]; [right; now left | now left | right; now right]|].
      intros [->|[<-|H]]; [right; now left | now left | right; now right].
Qed.

Lemma mapSet_NoDup (key : string) (value : V) (entries : list (string * V)) :
  List.NoDup (keys entries) -> List.NoDup (keys (mapSet key value entries)).
Proof.
  induction entries as [|[k0 v0] rest IH]; intros Hnd; cbn [mapSet].
  - cbn. apply List.NoDup_cons_iff. split; [intros [] | constructor].
  - change (List.NoDup (k0 :: keys rest)) in Hnd.
    apply List.NoDup_cons_iff in Hnd as (Hfresh & Hnd).
    destruct (String.eqb_spec k0 key) as [->|Hne]; cbn [keys map fst].
    + apply List.NoDup_cons_iff. now split.
    + apply List.NoDup_cons_iff. split; [|now apply IH].
      fold (keys (mapSet key value rest)). rewrite mapSet_keys.
      intros [->|Hin]; [now destruct Hne|]. now apply Hfresh.
Qed.

Lemma mapGet_In (key : string) (entries : list (string * V)) v :
  List.NoDup (keys entries) -> (mapGet key entries = Some v <-> In (key, v) entries).
Proof.
  unfold mapGet. induction entries as [|[k0 v0] rest IH]; intros Hnd; cbn [List.find fst].
  - cbn. split; [discriminate | intros []].
  - change (List.NoDup (k0 :: keys rest)) in Hnd.
    apply List.NoDup_cons_iff in Hnd as (Hfresh & Hnd). specialize (IH Hnd).
    destruct (String.eqb_spec k0 key) as [->|Hne]; cbn [option_map snd In].
    + split; [intros [= <-]; now left|]. intros [[= <-]|Hin]; [reflexivity|].
      destruct Hfresh.
      change key with (fst (key, v)). now apply in_map.
    + rewrite IH. split; [now right | intros [[= ? ?]|Hin]; [congruence | exact Hin]].
Qed.

Lemma mapGet_None (key : string) (entries : list (string * V)) :
  mapGet key entries = None -> ~ In key (keys entries).
Proof.
  unfold mapGet. induction entries as [|[k0 v0] rest IH]; cbn [List.find fst keys map In].
  - intros _ [].
  - destruct (String.eqb_spec k0 key) as [->|Hne]; [discriminate|].
    intros H [E|Hin]; [now destruct Hne | now apply IH].
Qed.

Lemma mapDelete_fresh (key : string) (entries : list (string * V)) :
  ~ In key (keys entries) -> mapDelete key entries = entries.
Proof.
  unfold mapDelete. induction entries as [|[k0 v0] rest IH]; [reflexivity|].
  cbn [keys map In fst List.filter]. intros Hfresh.
  destruct (String.eqb_spec k0 key) as [->|Hne]; [tauto|]. cbn [negb].
  f_equal. apply IH. tauto.
Qed.

End MapFacts.

Section TaskTimers.

Import AlfaFrensTaskManager.

Context {World N : Type} {rt : Runtime World N}.

(** The timers that are active are those the map of the intervals holds,
    one for each of its keys. *)
Definition Timed (st : State World N) : Prop :=
  List.NoDup (keys (intervals st))
  /\ (forall k1 k2 timer,
        In (k1, timer) (intervals st) -> In (k2, timer) (intervals st) -> k1 = k2)
  /\ (forall timer, timer ∈ active st <-> exists k, In (k, timer) (intervals st))
  /\ (forall timer, timer ∈ active st -> (timer < created st)%nat).

Lemma In_keys {V} (k : string) (v : V) (entries : list (string * V)) :
  In (k, v) entries -> In k (keys entries).
Proof. intros H. change k with (fst (k, v)). now apply in_map. Qed.

Lemma keys_In {V} (k : string) (entries : list (string * V)) :
  In k (keys entries) -> exists v, In (k, v) entries.
Proof.
  unfold keys. intros H. apply in_map_iff in H as ([k' v] & E & Hin).
  cbn in E. subst k'. eauto.
Qed.

Lemma startTaskInterval_run (task : SimpleTask World N) (st : State World N) :
  startTaskInterval task st =
  mkState (tasks st) (mapSet (id task) (created st) (intervals st)) (isRunning st)
    ({[ created st ]} ∪
       match mapGet (id task) (intervals st) with
       | Some old => active st ∖ {[ old ]}
       | None => active st
       end)
    (S (created st)) (sys st).
Proof. unfold startTaskInterval. now destruct (mapGet (id task) (intervals st)). Qed.

Lemma startTaskInterval_timed (task : SimpleTask World N) (st : State World N) :
  Timed st ->
  let st' := startTaskInterval task st in
  Timed st'
  /\ (forall k, In k (keys (intervals st')) <-> k = id task \/ In k (keys (intervals st)))
  /\ tasks st' = tasks st /\ isRunning st' = isRunning st /\ sys st' = sys st.
Proof.
  intros (Hnd & Hinj & Hact & Hbound). rewrite startTaskInterval_run.
  unfold Timed. cbn [intervals active created tasks isRunning sys].
  assert (Hfresh : forall k, ~ In (k, created st) (intervals st)).
  { intros k Hin. assert (Hc : created st ∈ active st) by (apply Hact; eauto).
    apply Hbound in Hc. lia. }
  destruct (mapGet (id task) (intervals st)) as [old|] eqn:Hget.
  - apply (mapGet_In _ _ _ Hnd) in Hget.
    split; [|split; [intros k; apply mapSet_keys | auto]].
    split; [now apply mapSet_NoDup|]. split; [|split].
    + intros k1 k2 timer H1 H2.
      apply (mapSet_In _ _ _ _ _ Hnd) in H1 as [(-> & ->)|(Hk1 & H1)];
        apply (mapSet_In _ _ _ _ _ Hnd) in H2 as [(-> & E)|(Hk2 & H2)];
        try reflexivity.
      * now destruct (Hfresh k2).
      * subst timer. now destruct (Hfresh k1).
      * exact (Hinj _ _ _ H1 H2).
    + intros timer. rewrite elem_of_union, elem_of_singleton, elem_of_difference,
        elem_of_singleton, Hact. split.
      * intros [->|((k & Hin) & Hne)].
        -- exists (id task). apply (mapSet_In _ _ _ _ _ Hnd). now left.
        -- exists k. apply (mapSet_In _ _ _ _ _ Hnd). right. split; [|exact Hin].
           intros ->. apply Hne.
           apply (mapGet_In _ _ _ Hnd) in Hin, Hget. congruence.
      * intros (k & Hin). apply (mapSet_In _ _ _ _ _ Hnd) in Hin as [(-> & ->)|(Hk & Hin)];
          [now left|]. right. split; [eauto|].
        intros ->. apply Hk. exact (Hinj _ _ _ Hin Hget).
    + intros timer. rewrite elem_of_union, elem_of_singleton, elem_of_difference.
      intros [->|(Hin & _)]; [lia|]. apply Hbound in Hin. lia.
  - apply mapGet_None in Hget.
    split; [|split; [intros k; apply mapSet_keys | auto]].
    split; [now apply mapSet_NoDup|]. split; [|split].
    + intros k1 k2 timer H1 H2.
      apply (mapSet_In _ _ _ _ _ Hnd) in H1 as [(-> & ->)|(Hk1 & H1)];
        apply (mapSet_In _ _ _ _ _ Hnd) in H2 as [(-> & E)|(Hk2 & H2)];
        try reflexivity.
      * now destruct (Hfresh k2).
      * subst timer. now destruct (Hfresh k1).
      * exact (Hinj _ _ _ H1 H2).
    + intros timer. rewrite elem_of_union, elem_of_singleton, Hact. split.
      * intros [->|(k & Hin)].
        -- exists (id task). apply (mapSet_In _ _ _ _ _ Hnd). now left.
        -- exists k. apply (mapSet_In _ _ _ _ _ Hnd). right. split; [|exact Hin].
           intros ->. apply Hget. exact (In_keys _ _ _ Hin).
      * intros (k & Hin). apply (mapSet_In _ _ _ _ _ Hnd) in Hin as [(-> & ->)|(Hk & Hin)];
          [now left | right; eauto].
    + intros timer. rewrite elem_of_union, elem_of_singleton.
      intros [->|Hin]; [lia|]. apply Hbound in Hin. lia.
Qed.

(** The loop of [start]. *)
Lemma start_loop (l : list (SimpleTask World N)) (st : State World N) :
  Timed st ->
  let st' := snd (forEach l (fun task => modify (startTaskInterval task)) st) in
  Timed st'
  /\ (forall k, In k (keys (intervals st')) <->
                In k (map id l) \/ In k (keys (intervals st)))
  /\ tasks st' = tasks st /\ isRunning st' = isRunning st /\ sys st' = sys st.
Proof.
  revert st. induction l as [|task l IH]; intros st Ht; cbv zeta; cbn [forEach].
  - cbn. repeat split; try assumption; try apply Ht; [now right | intros [[]|H]; exact H].
  - unfold Async.bind at 1 2 3 4 5. unfold modify at 1 3 5 7 9. cbn iota beta.
    specialize (IH (startTaskInterval task st)). cbv zeta in IH.
    destruct (startTaskInterval_timed task st Ht) as (Ht1 & Hk1 & Htasks1 & Hrun1 & Hsys1).
    destruct (IH Ht1) as (Ht2 & Hk2 & Htasks2 & Hrun2 & Hsys2).
    split; [exact Ht2|]. split; [|split; [congruence | split; congruence]].
    intros k. rewrite Hk2, Hk1. cbn [map In].
    split; [intros [H|[H|H]]; auto | intros [[H|H]|H]; auto].
Qed.

(** The loop of [stop]. *)
Lemma stop_loop (l : list (string * nat)) (st : State World N) :
  intervals st = l -> List.NoDup (keys l) ->
  let st' :=
    snd (forEach l
           (fun entry =>
              let '(id, interval) := entry in
              modify (clearInterval interval) ;;;
              modify (fun st => setIntervals (mapDelete id (intervals st)) st)) st) in
  intervals st' = []
  /\ (forall timer, timer ∈ active st' <->
                    timer ∈ active st /\ ~ exists k, In (k, timer) l)
  /\ tasks st' = tasks st /\ isRunning st' = isRunning st /\ sys st' = sys st
  /\ created st' = created st.
Proof.
  revert st. induction l as [|[k timer0] l IH]; intros st Hl Hnd; cbv zeta; cbn [forEach].
  - cbn. split; [exact Hl|]. split; [|auto].
    intros timer. split; [intros H; split; [exact H | now intros (k & [])] | now intros (H & _)].
  - unfold Async.bind, modify. cbn iota beta. fold (@Async.bind (State World N)).
    change (List.NoDup (k :: keys l)) in Hnd.
    apply List.NoDup_cons_iff in Hnd as (Hfresh & Hnd).
    set (st1 := setIntervals _ _).
    assert (Hl1 : intervals st1 = l).
    { subst st1. cbn [setIntervals clearInterval intervals]. rewrite Hl.
      unfold mapDelete. cbn [List.filter fst]. rewrite String.eqb_refl. cbn [negb].
      now apply mapDelete_fresh. }
    destruct (IH st1 Hl1 Hnd) as (Hnil & Hact & Htasks & Hrun & Hsys & Hcreated).
    split; [exact Hnil|]. split; [|auto].
    intros timer. rewrite Hact. subst st1.
    cbn [setIntervals clearInterval active]. rewrite elem_of_difference, elem_of_singleton.
    split.
    + intros ((Hin & Hne) & Hno). split; [exact Hin|].
      intros (k' & [[= _ E]|Hin']); [now destruct Hne | apply Hno; eauto].
    + intros (Hin & Hno). split; [split; [exact Hin|] |].
      * intros ->. apply Hno. exists k. now left.
      * intros (k' & Hin'). apply Hno. exists k'. now right.
Qed.

Lemma Timed_ext (st st' : State World N) :
  intervals st' = intervals st -> active st' = active st -> created st' = created st ->
  Timed st -> Timed st'.
Proof. unfold Timed. now intros -> -> ->. Qed.

(** The keys of the tasks are their ids. *)
Definition Ids (st : State World N) : Prop :=
  forall k task, In (k, task) (tasks st) -> id task = k.

(** What the class keeps between two calls of its methods. *)
Definition Inv (st : State World N) : Prop :=
  List.NoDup (keys (tasks st))
  /\ Ids st
  /\ Timed st
  /\ (isRunning st = false -> intervals st = [])
  /\ (isRunning st = true ->
      forall k, In k (keys (intervals st)) <-> In k (keys (tasks st))).

Lemma create_inv (s : Sys World N) : Inv (create s).
Proof.
  unfold Inv, Ids, Timed, create. cbn.
  split; [constructor|]. split; [now intros|]. split; [|split; [auto | discriminate]].
  split; [constructor|]. split; [now intros|]. split; [|intros timer H; now apply not_elem_of_empty in H].
  intros timer. split; [intros H; now apply not_elem_of_empty in H | now intros (k & [])].
Qed.

Lemma helper_DateNow_run (st : State World N) :
  helper (perform DateNow Date_now) st =
  (Returns (fst (Date_now (world (sys st)))),
   setSys {| world := snd (Date_now (world (sys st)));
             calls := calls (sys st) ++ [DateNow] |} st).
Proof.
  unfold helper, Async.lift, perform. now destruct (Date_now (world (sys st))).
Qed.

Lemma task_helper_run {A} (m : M (Sys World N) A) (st : State World N) :
  helper m st = (fst (m (sys st)), setSys (snd (m (sys st))) st).
Proof. unfold helper, Async.lift. now destruct (m (sys st)). Qed.

Lemma mapSet_keys_same {V} (key : string) (value : V) (entries : list (string * V)) :
  In key (keys entries) -> keys (mapSet key value entries) = keys entries.
Proof.
  induction entries as [|[k v] rest IH]; [now intros []|].
  cbn [mapSet]. destruct (String.eqb_spec k key) as [->|Hne]; [reflexivity|].
  intros [E|Hin]; [now destruct Hne|]. cbn. f_equal. exact (IH Hin).
Qed.

Lemma createAIInteractionTask_run uuid type interval handler (st : State World N) :
  let task :=
    mkTask uuid ("AI_INTERACTION_" ++ typeName type) type interval
      (fst (Date_now (world (sys st)))) (default (ret tt) handler) in
  let st1 :=
    setTasks (mapSet uuid task (tasks st))
      (setSys {| world := snd (Date_now (world (sys st)));
                 calls := calls (sys st) ++ [DateNow] |} st) in
  createAIInteractionTask uuid type interval handler st =
  (Returns task, if isRunning st then startTaskInterval task st1 else st1).
Proof.
  cbv zeta. unfold createAIInteractionTask. unfold Async.bind at 1.
  rewrite helper_DateNow_run. cbn iota beta.
  unfold Async.bind, modify, get. cbn [setTasks setSys isRunning].
  now destruct (isRunning st).
Qed.

Lemma createAIInteractionTask_inv uuid type interval handler (st : State World N) :
  Inv st -> Inv (snd (createAIInteractionTask uuid type interval handler st)).
Proof.
  intros (Hnd & Hids & Ht & Hoff & Hon).
  rewrite createAIInteractionTask_run. cbn [snd].
  set (task := mkTask _ _ _ _ _ _).
  set (st1 := setTasks _ _).
  assert (Hnd1 : List.NoDup (keys (tasks st1))) by now apply mapSet_NoDup.
  assert (Hids1 : Ids st1).
  { intros k t Hin. apply (mapSet_In _ _ _ _ _ Hnd) in Hin as [(-> & ->)|(_ & Hin)];
      [reflexivity | now apply Hids]. }
  assert (Ht1 : Timed st1) by now apply (Timed_ext st).
  destruct (isRunning st) eqn:Hrun.
  - destruct (startTaskInterval_timed task st1 Ht1) as (Ht2 & Hk & Htasks & Hrun2 & _).
    split; [now rewrite Htasks|]. split; [intros k t; rewrite Htasks; apply Hids1|].
    split; [exact Ht2|]. split.
    + rewrite Hrun2. cbn. congruence.
    + intros _ k. rewrite Hk, Htasks. subst st1. cbn [setTasks tasks setSys intervals].
      rewrite mapSet_keys, (Hon eq_refl). reflexivity.
  - split; [exact Hnd1|]. split; [exact Hids1|]. split; [exact Ht1|].
    split; [intros _; now apply Hoff | cbn; congruence].
Qed.

Lemma start_inv (st : State World N) : Inv st -> Inv (snd (start st)).
Proof.
  intros Hinv. unfold start. unfold Async.bind at 1. unfold get at 1. cbn iota beta.
  destruct (isRunning st) eqn:Hrun; [exact Hinv|].
  destruct Hinv as (Hnd & Hids & Ht & Hoff & _).
  unfold Async.bind at 1, modify at 1. cbn iota beta.
  unfold Async.bind at 1, get at 1. cbn iota beta.
  assert (Ht1 : Timed (setRunning true st)) by now apply (Timed_ext st).
  destruct (start_loop (map snd (tasks (setRunning true st))) _ Ht1)
    as (Ht2 & Hk & Htasks & Hrun2 & _).
  split; [now rewrite Htasks|]. split; [intros k t; rewrite Htasks; apply Hids|].
  split; [exact Ht2|]. split; [rewrite Hrun2; discriminate|].
  intros _ k. rewrite Hk, Htasks. cbn [setRunning tasks intervals].
  rewrite (Hoff Hrun). cbn [keys map In].
  split.
  - intros [Hin|[]]. apply in_map_iff in Hin as (t & <- & Hin).
    apply in_map_iff in Hin as ([k' t'] & E & Hin). cbn in E. subst t'.
    rewrite (Hids _ _ Hin). exact (In_keys _ _ _ Hin).
  - intros Hin. left. apply keys_In in Hin as (t & Hin).
    apply in_map_iff. exists t. split; [now apply Hids|].
    apply in_map_iff. now exists (k, t).
Qed.

Lemma stop_inv (st : State World N) : Inv st -> Inv (snd (stop st)).
Proof.
  intros Hinv. unfold stop. unfold Async.bind at 1. unfold get at 1. cbn iota beta.
  destruct (isRunning st) eqn:Hrun; cbn [negb]; [|exact Hinv].
  destruct Hinv as (Hnd & Hids & (Hkeys & Hinj & Hact & Hbound) & _ & _).
  unfold Async.bind at 1, modify at 1. cbn iota beta.
  unfold Async.bind at 1, get at 1. cbn iota beta.
  destruct (stop_loop (intervals (setRunning false st)) (setRunning false st) eq_refl Hkeys)
    as (Hnil & Hactive & Htasks & Hrun2 & _ & Hcreated).
  split; [now rewrite Htasks|]. split; [intros k t; rewrite Htasks; apply Hids|].
  split; [|split; [auto | rewrite Hrun2; discriminate]].
  unfold Timed. rewrite Hnil. split; [constructor|]. split; [now intros|]. split.
  - intros timer. rewrite Hactive. cbn [setRunning active intervals].
    split; [|now intros (k & [])]. intros (Hin & Hno). destruct Hno. now apply Hact.
  - intros timer Hin. apply Hactive in Hin as (Hin & _). rewrite Hcreated.
    now apply Hbound.
Qed.

Lemma forEach_cons_snd {S A} (x : A) (r : list A) (body : A -> M S unit) (s : S) :
  snd (forEach (x :: r) body s) =
  match body x s with
  | (Returns _, s') => snd (forEach r body s')
  | (_, s') => s'
  end.
Proof. cbn [forEach]. unfold Async.bind. now destruct (body x s) as [[[]|e|] s']. Qed.

(** The loop of [processTasks]. *)
Lemma process_loop (l : list (SimpleTask World N)) (st : State World N) :
  (forall task, In task l -> In (id task) (keys (tasks st))) ->
  List.NoDup (keys (tasks st)) -> Ids st ->
  let st' :=
    snd (forEach l
           (fun task =>
              Async.tryCatch
                (helper (handler task) ;;;
                 now <- helper (perform DateNow Date_now) ;;
                 modify (fun st =>
                           setTasks (mapSet (id task) (touch now task) (tasks st)) st))
                (fun error => ret tt)) st) in
  intervals st' = intervals st /\ active st' = active st /\ created st' = created st
  /\ isRunning st' = isRunning st /\ keys (tasks st') = keys (tasks st) /\ Ids st'.
Proof.
  revert st. induction l as [|task l IH]; intros st Hl Hnd Hids st'.
  - cbn in st'. subst st'. auto 10.
  - assert (E := forEach_cons_snd task l
                   (fun task =>
                      Async.tryCatch
                        (helper (handler task) ;;;
                         now <- helper (perform DateNow Date_now) ;;
                         modify (fun st =>
                                   setTasks (mapSet (id task) (touch now task) (tasks st)) st))
                        (fun error => ret tt)) st).
    fold st' in E. clearbody st'. cbn beta in E.
    match type of E with
    | context [Async.tryCatch ?m ?h st] =>
        assert (Hbody :
          let st1 := snd (Async.tryCatch m h st) in
          intervals st1 = intervals st /\ active st1 = active st
          /\ created st1 = created st /\ isRunning st1 = isRunning st
          /\ keys (tasks st1) = keys (tasks st) /\ Ids st1)
    end.
    { cbv zeta. unfold Async.tryCatch, Async.bind. rewrite task_helper_run.
      destruct (handler task (sys st)) as [[[]|e|] t]; cbn [fst snd]; [|cbn; auto 10 ..].
      rewrite helper_DateNow_run. unfold modify. cbn.
      split; [reflexivity|]. split; [reflexivity|]. split; [reflexivity|].
      split; [reflexivity|].
      split; [apply mapSet_keys_same, Hl; now left|].
      intros k t' Hin. apply (mapSet_In _ _ _ _ _ Hnd) in Hin as [(-> & ->)|(_ & Hin)];
        [reflexivity | now apply Hids]. }
    cbv zeta in Hbody.
    match type of E with
    | context [Async.tryCatch ?m ?h st] =>
        destruct (Async.tryCatch m h st) as [[[]|e|] st1]
    end; cbn [snd] in Hbody; subst st'; try exact Hbody.
    destruct Hbody as (Hi & Ha & Hc & Hr & Hk & Hids1).
    assert (Hl1 : forall task, In task l -> In (id task) (keys (tasks st1))).
    { intros t Hin. rewrite Hk. apply Hl. now right. }
    assert (Hnd1 : List.NoDup (keys (tasks st1))) by now rewrite Hk.
    destruct (IH st1 Hl1 Hnd1 Hids1) as (Hi2 & Ha2 & Hc2 & Hr2 & Hk2 & Hids2).
    rewrite Hi2, Ha2, Hc2, Hr2, Hk2. auto 10.
Qed.

Lemma processTasks_inv (st : State World N) : Inv st -> Inv (snd (processTasks st)).
Proof.
  intros (Hnd & Hids & Ht & Hoff & Hon).
  unfold processTasks. unfold Async.bind at 1. unfold get at 1. cbn iota beta.
  assert (Hl : forall task, In task (map snd (tasks st)) -> In (id task) (keys (tasks st))).
  { intros t Hin. apply in_map_iff in Hin as ([k t'] & E & Hin). cbn in E. subst t'.
    rewrite (Hids _ _ Hin). exact (In_keys _ _ _ Hin). }
  destruct (process_loop _ st Hl Hnd Hids) as (Hi & Ha & Hc & Hr & Hk & Hids').
  split; [now rewrite Hk|]. split; [exact Hids'|].
  split; [now apply (Timed_ext st)|].
  split; [rewrite Hr, Hi; exact Hoff | rewrite Hr, Hi, Hk; exact Hon].
Qed.

(** A call of one of the public methods of the class. *)
Inductive Method : Type :=
| CreateTask (uuid : string) (type : TaskType) (interval : Z)
    (handler : option (M (Sys World N) unit))
| StartTasks
| StopTasks
| ProcessTasks.

Definition invoke (method : Method) (st : State World N) : State World N :=
  match method with
  | CreateTask uuid type interval handler =>
      snd (createAIInteractionTask uuid type interval handler st)
  | StartTasks => snd (start st)
  | StopTasks => snd (stop st)
  | ProcessTasks => snd (processTasks st)
  end.

Definition invokeAll (methods : list Method) (st : State World N) : State World N :=
  fold_left (fun st method => invoke method st) methods st.

Lemma invokeAll_inv (methods : list Method) (st : State World N) :
  Inv st -> Inv (invokeAll methods st).
Proof.
  revert st. induction methods as [|method methods IH]; intros st Hinv; [exact Hinv|].
  cbn [invokeAll fold_left]. apply IH.
  destruct method; cbn [invoke];
    [now apply createAIInteractionTask_inv | now apply start_inv
     | now apply stop_inv | now apply processTasks_inv].
Qed.

Lemma Timed_size (st : State World N) :
  Timed st -> size (active st) = length (intervals st).
Proof.
  intros (Hnd & Hinj & Hact & _).
  assert (E : active st = list_to_set (map snd (intervals st))).
  { apply set_eq. intros timer.
    rewrite Hact, elem_of_list_to_set, list_elem_of_In, in_map_iff. split.
    - intros (k & Hin). now exists (k, timer).
    - intros ([k t] & <- & Hin). now exists k. }
  rewrite E, size_list_to_set, length_map; [reflexivity|].
  apply NoDup_ListNoDup. apply Finite.Injective_map_NoDup_in.
  - intros [k1 t1] [k2 t2] H1 H2. cbn. intros <-. f_equal. exact (Hinj _ _ _ H1 H2).
  - exact (List.NoDup_map_inv _ _ Hnd).
Qed.

(** X18. Whatever methods of the task manager have been called, in whatever
    order and with whatever handlers (a handler acts on the environment, not
    on the manager): the timers that are active are those recorded for the
    tasks, none has leaked; when the manager is stopped no timer is active;
    when it runs, every task has a timer and there are as many active timers
    as tasks. *)
Theorem timers_follow_tasks (s : Sys World N) (methods : list Method) :
  let st := invokeAll methods (create s) in
  (forall timer,
     timer ∈ active st <->
     exists k, In k (keys (tasks st)) /\ mapGet k (intervals st) = Some timer)
  /\ (isRunning st = false -> active st = ∅)
  /\ (isRunning st = true ->
      size (active st) = length (tasks st)
      /\ forall k, In k (keys (tasks st)) ->
                   exists timer, mapGet k (intervals st) = Some timer).
Proof.
  intros st.
  destruct (invokeAll_inv methods (create s) (create_inv s))
    as (Hnd & Hids & Ht & Hoff & Hon).
  fold st in Hnd, Hids, Ht, Hoff, Hon. clearbody st.
  pose proof (Timed_size st Ht) as Hsize.
  destruct Ht as (Hkeys & Hinj & Hact & Hbound).
  split; [|split].
  - intros timer. rewrite Hact. split.
    + intros (k & Hin). exists k. split; [|now apply mapGet_In].
      destruct (isRunning st) eqn:Hrun.
      * apply (Hon eq_refl). exact (In_keys _ _ _ Hin).
      * rewrite (Hoff eq_refl) in Hin. now destruct Hin.
    + intros (k & _ & Hget). exists k. now apply mapGet_In in Hget.
  - intros Hrun. rewrite (Hoff Hrun) in Hsize. cbn in Hsize.
    apply size_empty_inv in Hsize. now apply leibniz_equiv.
  - intros Hrun. split.
    + rewrite Hsize. rewrite <- (length_map fst (intervals st)), <- (length_map fst (tasks st)).
      apply Nat.le_antisymm; apply List.NoDup_incl_length; try assumption;
        intros k Hin; now apply (Hon Hrun).
    + intros k Hin. apply (Hon Hrun) in Hin. apply keys_In in Hin as (timer & Hin).
      exists timer. now apply mapGet_In.
Qed.

(** The body of the loop of [processTasks]. *)
Definition processTask (task : SimpleTask World N) : M (State World N) unit :=
  Async.tryCatch
    (helper (handler task) ;;;
     now <- helper (perform DateNow Date_now) ;;
     modify (fun st => setTasks (mapSet (id task) (touch now task) (tasks st)) st))
    (fun error => ret tt).




End TaskTimers.

(** ** [extensions/ai-post.ts]: [class AlfaFrensAIPost] *)

Module AlfaFrensAIPost.

Module Options.
Record t : Type := mk {
  postTemplate : option string;
  modelClass : option ModelClass;
  intervalSeconds : option Z
}.
End Options.

Section Post.
Context {World N : Type} {rt : Runtime World N}.
Variable options : Options.t.

(** The fields of the class that its public methods use; the runtime is
    the one of the task manager. *)
Record State : Type := mkState {
  isRunning : bool;
  taskManager : AlfaFrensTaskManager.State World N
}.

(** [new AlfaFrensAIPost(client, runtime, options)]. *)
Definition create (s : Sys World N) : State :=
  mkState false (AlfaFrensTaskManager.create s).

Definition setRunning (b : bool) (st : State) : State := mkState b (taskManager st).

Definition setTaskManager (tm : AlfaFrensTaskManager.State World N) (st : State)
  : State := mkState (isRunning st) tm.

(** [start], lines 57-73; [uuid] is what [uuidv4()] gives in the task
    manager. *)
Definition start (uuid : string) (intervalSeconds : option Z) : M State unit :=
  st <- get ;;
  if isRunning st
  then ret tt
  else
    modify (setRunning true) ;;;
    let interval :=
      AlfaFrensAIInteraction.orNumber intervalSeconds
        (AlfaFrensAIInteraction.orNumber (Options.intervalSeconds options)
           (Utils.getNumericSetting "ALFAFRENS_POST_INTERVAL_SECONDS" 3600)) in
    Async.lift taskManager setTaskManager
      (AlfaFrensTaskManager.createAIInteractionTask uuid AlfaFrensTaskManager.POST
         (interval * 1000)%Z None) ;;;
    ret tt.

(** [stop], lines 78-89. *)
Definition stop : M State unit :=
  st <- get ;;
  if negb (isRunning st)
  then ret tt
  else
    modify (setRunning false) ;;;
    Async.lift taskManager setTaskManager AlfaFrensTaskManager.processTasks.

End Post.

Arguments State World N : clear implicits.

End AlfaFrensAIPost.

Section Posting.

Context {World N : Type} {rt : Runtime World N}.
Variable options : AlfaFrensAIPost.Options.t.

(** A call of one of the public methods of the class. *)
Inductive PostMethod : Type :=
| StartPosting (uuid : string) (intervalSeconds : option Z)
| StopPosting.

Definition invokePost (method : PostMethod) (st : AlfaFrensAIPost.State World N)
  : AlfaFrensAIPost.State World N :=
  match method with
  | StartPosting uuid intervalSeconds =>
      snd (AlfaFrensAIPost.start options uuid intervalSeconds st)
  | StopPosting => snd (AlfaFrensAIPost.stop st)
  end.

Definition invokeAllPost (methods : list PostMethod) (st : AlfaFrensAIPost.State World N)
  : AlfaFrensAIPost.State World N :=
  fold_left (fun st method => invokePost method st) methods st.

(** A task manager that was never started, whose tasks do nothing, and
    that has only read the clock since [s0]. *)
Definition Idle (s0 : Sys World N) (tm : AlfaFrensTaskManager.State World N) : Prop :=
  AlfaFrensTaskManager.isRunning tm = false
  /\ AlfaFrensTaskManager.active tm = ∅
  /\ (forall k task, In (k, task) (AlfaFrensTaskManager.tasks tm) ->
                     AlfaFrensTaskManager.handler task = ret tt)
  /\ exists added,
       calls (AlfaFrensTaskManager.sys tm) = (calls s0 ++ added)%list
       /\ Forall (fun c => c = DateNow) added.

Lemma mapSet_In_inv {V} (key : string) (value : V) (entries : list (string * V)) k v :
  In (k, v) (AlfaFrensTaskManager.mapSet key value entries) ->
  v = value \/ In (k, v) entries.
Proof.
  induction entries as [|[k0 v0] rest IH]; cbn [AlfaFrensTaskManager.mapSet].
  - intros [[= _ <-]|[]]. now left.
  - destruct (String.eqb k0 key).
    + intros [[= _ <-]|Hin]; [now left | right; now right].
    + intros [E|Hin]; [right; now left|].
      destruct (IH Hin) as [->|Hin']; [now left | right; now right].
Qed.

Lemma Idle_clock (s0 : Sys World N) (tm : AlfaFrensTaskManager.State World N) w tasks' :
  Idle s0 tm ->
  (forall k task, In (k, task) tasks' -> AlfaFrensTaskManager.handler task = ret tt) ->
  Idle s0
    (AlfaFrensTaskManager.setTasks tasks'
       (AlfaFrensTaskManager.setSys
          {| world := w; calls := calls (AlfaFrensTaskManager.sys tm) ++ [DateNow] |} tm)).
Proof.
  intros (Hrun & Hact & _ & added & Hcalls & Hadded) Hhandlers.
  split; [exact Hrun|]. split; [exact Hact|]. split; [exact Hhandlers|].
  exists (added ++ [DateNow])%list. cbn. rewrite Hcalls, <- app_assoc.
  split; [reflexivity|]. apply List.Forall_app. split; [exact Hadded | now constructor].
Qed.

Lemma processTask_idle (s0 : Sys World N) (task : AlfaFrensTaskManager.SimpleTask World N)
    (tm : AlfaFrensTaskManager.State World N) :
  AlfaFrensTaskManager.handler task = ret tt ->
  Idle s0 tm ->
  fst (processTask task tm) = Returns tt /\ Idle s0 (snd (processTask task tm)).
Proof.
  intros Hhandler Hidle. unfold processTask, Async.tryCatch, Async.bind.
  rewrite task_helper_run, Hhandler. cbn [ret fst snd].
  rewrite helper_DateNow_run. unfold modify. cbn [fst snd].
  split; [reflexivity|].
  destruct tm as [tasks0 intervals0 running0 active0 created0 sys0].
  apply (Idle_clock s0 _ _ _ Hidle).
  intros k t Hin. apply mapSet_In_inv in Hin as [->|Hin]; [exact Hhandler|].
  destruct Hidle as (_ & _ & Hhandlers & _). exact (Hhandlers _ _ Hin).
Qed.

Lemma processTasks_idle (s0 : Sys World N)
    (l : list (AlfaFrensTaskManager.SimpleTask World N))
    (tm : AlfaFrensTaskManager.State World N) :
  (forall task, In task l -> AlfaFrensTaskManager.handler task = ret tt) ->
  Idle s0 tm ->
  Idle s0 (snd (forEach l processTask tm)).
Proof.
  revert tm. induction l as [|task l IH]; intros tm Hl Hidle; [exact Hidle|].
  rewrite forEach_cons_snd.
  destruct (processTask_idle s0 task tm (Hl _ (or_introl eq_refl)) Hidle) as (E & Hidle1).
  destruct (processTask task tm) as [r tm1]. cbn [fst snd] in E, Hidle1. subst r.
  apply IH; [|exact Hidle1]. intros t Hin. apply Hl. now right.
Qed.

Lemma invokePost_idle (s0 : Sys World N) (method : PostMethod)
    (st : AlfaFrensAIPost.State World N) :
  Idle s0 (AlfaFrensAIPost.taskManager st) ->
  Idle s0 (AlfaFrensAIPost.taskManager (invokePost method st)).
Proof.
  intros Hidle. destruct method as [uuid intervalSeconds|]; cbn [invokePost].
  - unfold AlfaFrensAIPost.start. unfold Async.bind at 1. unfold get at 1. cbn iota beta.
    destruct (AlfaFrensAIPost.isRunning st); [exact Hidle|].
    unfold Async.bind, modify, Async.lift. cbn iota beta.
    cbn [AlfaFrensAIPost.setRunning AlfaFrensAIPost.taskManager].
    rewrite createAIInteractionTask_run.
    destruct Hidle as (Hrun & Hrest). rewrite Hrun.
    cbn [snd AlfaFrensAIPost.setTaskManager AlfaFrensAIPost.taskManager ret].
    apply Idle_clock; [now split|].
    intros k t Hin. apply mapSet_In_inv in Hin as [->|Hin]; [reflexivity|].
    destruct Hrest as (_ & Hhandlers & _). exact (Hhandlers _ _ Hin).
  - unfold AlfaFrensAIPost.stop. unfold Async.bind at 1. unfold get at 1. cbn iota beta.
    destruct (AlfaFrensAIPost.isRunning st); cbn [negb]; [|exact Hidle].
    unfold Async.bind, modify, Async.lift. cbn iota beta.
    cbn [AlfaFrensAIPost.setRunning AlfaFrensAIPost.taskManager].
    unfold AlfaFrensTaskManager.processTasks at 1.
    unfold Async.bind at 1. unfold get at 1. cbn iota beta.
    pose proof (processTasks_idle s0
                  (map snd (AlfaFrensTaskManager.tasks (AlfaFrensAIPost.taskManager st)))
                  (AlfaFrensAIPost.taskManager st)) as Hloop.
    unfold processTask in Hloop.
    destruct (forEach _ _ (AlfaFrensAIPost.taskManager st)) as [r tm1].
    cbn [snd AlfaFrensAIPost.setTaskManager AlfaFrensAIPost.taskManager] in *.
    apply Hloop; [|exact Hidle].
    intros task Hin. apply in_map_iff in Hin as ([k task'] & E & Hin). cbn in E. subst task'.
    destruct Hidle as (_ & _ & Hhandlers & _). exact (Hhandlers _ _ Hin).
Qed.

(** X20. However the posting service is started and stopped, it makes no
    post and asks for no generation: its task manager is never started, no
    timer is ever active, and the only calls the service adds to those of the
    environment are readings of the clock. *)
Theorem posting_service_never_posts (s : Sys World N) (methods : list PostMethod) :
  let st := invokeAllPost methods (AlfaFrensAIPost.create s) in
  let manager := AlfaFrensAIPost.taskManager st in
  AlfaFrensTaskManager.isRunning manager = false
  /\ AlfaFrensTaskManager.active manager = ∅
  /\ exists added,
       calls (AlfaFrensTaskManager.sys manager) = (calls s ++ added)%list
       /\ Forall (fun c => c = DateNow) added.
Proof.
  cbv zeta.
  assert (H : forall st, Idle s (AlfaFrensAIPost.taskManager st) ->
                         Idle s (AlfaFrensAIPost.taskManager (invokeAllPost methods st))).
  { induction methods as [|method methods IH]; intros st Hidle; [exact Hidle|].
    cbn [invokeAllPost fold_left]. apply IH. now apply invokePost_idle. }
  destruct (H (AlfaFrensAIPost.create s)) as (Hrun & Hact & _ & Hcalls).
  - split; [reflexivity|]. split; [reflexivity|]. split; [now intros|].
    exists []. split; [now rewrite app_nil_r | constructor].
  - auto.
Qed.

End Posting.
